(** * Weather ingestion pipeline: a shallow embedding and its properties

    The development follows the source modules of the pipeline:
    - [models.py]        : [WeatherRecord] and its derived display fields;
    - [api_client.py]    : [OpenWeatherClient.fetch_weather] (bounded retries
                           with a fixed backoff) and [get_field] (safe nested
                           lookup);
    - [storage.py]       : [Storage.write], the partitioned writer;
    - [main.py]          : the per-city ingestion loop and the script around it;
    - [config_loader.py] : [ConfigLoader], the configuration and the reference
                           list of cities;
    - [logger.py]        : [setup_logger].

    Python values are modelled directly: [int] is [Z], [float] is an IEEE-754
    binary64 value ([spec_float], precision 53), [str] is a byte [string],
    [None] is [option]'s [None], exceptions are values of type [exn] carried by
    the [result] type.  Effects are explicit: the HTTP client writes an event
    trace, the writer threads a file-system state. *)

From Stdlib Require Import ZArith List String Ascii Bool Lia.
From Stdlib Require Import Floats.SpecFloat.
From Stdlib Require Import DecimalString DecimalZ DecimalPos.
Import ListNotations.

Open Scope string_scope.
Open Scope Z_scope.

(* ================================================================== *)
(** * Python runtime: exceptions, results, numbers, strings           *)
(* ================================================================== *)

(** Exception classes that the modelled code raises or catches.  The
    [requests] classes [Timeout], [ConnectionError], [HTTPError] and
    [JSONDecodeError] derive from [RequestException]; [KeyboardInterrupt]
    derives from [BaseException] only. *)
Inductive exn_class : Type :=
| TypeError | AttributeError | ValueError | RuntimeError | OverflowError
| IndexError | OSError | ValidationError | KeyboardInterrupt
| RequestException | Timeout | ConnectionError | HTTPError | JSONDecodeError.

Record exn : Type := mkExn { exn_cls : exn_class; exn_msg : string }.

(** [isinstance(e, requests.RequestException)] *)
Definition is_RequestException (e : exn) : bool :=
  match exn_cls e with
  | RequestException | Timeout | ConnectionError | HTTPError | JSONDecodeError => true
  | _ => false
  end.

(** [isinstance(e, Exception)] *)
Definition is_Exception (e : exn) : bool :=
  match exn_cls e with
  | KeyboardInterrupt => false
  | _ => true
  end.

Inductive result (A : Type) : Type :=
| OK (a : A)
| Raise (e : exn).
Arguments OK {A} a.
Arguments Raise {A} e.

Definition bind {A B : Type} (m : result A) (k : A -> result B) : result B :=
  match m with
  | OK a => k a
  | Raise e => Raise e
  end.

Declare Scope py_scope.
Delimit Scope py_scope with py.
Notation "x <- m ;; k" := (bind m (fun x => k))
  (at level 100, m at next level, right associativity) : py_scope.
Open Scope py_scope.

Definition raise {A : Type} (c : exn_class) (msg : string) : result A :=
  Raise (mkExn c msg).

(** [str(n)] for an [int]. *)
Definition str_int (z : Z) : string := NilZero.string_of_int (Z.to_int z).

(** [str(n).zfill(w)] for [n >= 0]; what [strftime] prints for [%d], [%m],
    [%H], [%M], [%S] (width 2) and [%Y] (width 4). *)
Fixpoint zeros (n : nat) : string :=
  match n with
  | O => ""
  | S k => "0" ++ zeros k
  end.

Definition zfill (w : nat) (z : Z) : string :=
  let s := str_int z in
  zeros (w - String.length s) ++ s.

(** [s.lower()] on ASCII letters; other bytes are left alone. *)
Definition lower_ascii (c : ascii) : ascii :=
  let n := nat_of_ascii c in
  if andb (Nat.leb 65 n) (Nat.leb n 90) then ascii_of_nat (n + 32) else c.

Fixpoint lower (s : string) : string :=
  match s with
  | EmptyString => EmptyString
  | String c r => String (lower_ascii c) (lower r)
  end.

(** [str.split()] without arguments: split on runs of white space, no empty
    pieces.  White space is the ASCII set Python uses: tab, LF, VT, FF, CR,
    FS, GS, RS, US and the space. *)
Definition is_space (c : ascii) : bool :=
  let n := nat_of_ascii c in
  orb (andb (Nat.leb 9 n) (Nat.leb n 13))
      (orb (andb (Nat.leb 28 n) (Nat.leb n 31)) (Nat.eqb n 32)).

(** The pieces of [s] between separators, empty pieces left out; [cur] is
    the piece being read. *)
Fixpoint pieces (sep : ascii -> bool) (cur : string) (s : string) : list string :=
  match s with
  | EmptyString => match cur with EmptyString => [] | _ => [cur] end
  | String c r =>
      if sep c
      then match cur with
           | EmptyString => pieces sep EmptyString r
           | _ => cur :: pieces sep EmptyString r
           end
      else pieces sep (cur ++ String c EmptyString) r
  end.

Definition split (s : string) : list string := pieces is_space EmptyString s.

(** [l[-1]]: the last element, [IndexError] on the empty list. *)
Definition last_item (l : list string) : result string :=
  match rev l with
  | x :: _ => OK x
  | [] => raise IndexError "list index out of range"
  end.

(** ** Floats *)

(** Python's [float] is IEEE-754 binary64: precision 53, maximal exponent
    1024, every operation rounded to nearest, ties to even. *)
Definition prec : Z := 53.
Definition emax : Z := 1024.
Definition float : Type := spec_float.

(** [float(n)] for an [int]: correctly rounded, [OverflowError] beyond the
    finite range. *)
Definition float_of_int (z : Z) : result float :=
  match binary_normalize prec emax z 0 false with
  | S754_infinity _ => raise OverflowError "int too large to convert to float"
  | f => OK f
  end.

(** The literal [22.5], that is 45/2. *)
Definition f22_5 : float := binary_normalize prec emax 45 (-1) false.
(** The literal [337.5], that is 675/2. *)
Definition f337_5 : float := binary_normalize prec emax 675 (-1) false.

(** A Python number: what a numeric attribute holds at run time. *)
Inductive number : Type :=
| PyInt (z : Z)
| PyFloat (f : float).

(** [x / y] for a number [x] and a non-zero float [y]. *)
Definition truediv (x : number) (y : float) : result float :=
  match x with
  | PyInt z => fx <- float_of_int z ;; OK (SFdiv prec emax fx y)
  | PyFloat fx => OK (SFdiv prec emax fx y)
  end.

(** The integer nearest to [m * 2^e], ties to the even one. *)
Definition round_half_even (m e : Z) : Z :=
  if 0 <=? e then m * 2 ^ e
  else
    let d := 2 ^ (- e) in
    let q := m / d in
    let r := m mod d in
    match Z.compare (2 * r) d with
    | Lt => q
    | Gt => q + 1
    | Eq => if Z.even q then q else q + 1
    end.

(** [round(x)] for a float, one argument: an [int], ties to even. *)
Definition round (x : float) : result Z :=
  match x with
  | S754_zero _ => OK 0
  | S754_infinity _ => raise OverflowError "cannot convert float infinity to integer"
  | S754_nan => raise ValueError "cannot convert float NaN to integer"
  | S754_finite s m e =>
      let n := round_half_even (Zpos m) e in
      OK (if s then - n else n)
  end.

(** ** [repr] of a float *)

(** The shortest decimal string that reads back as the same float, as
    [float.__repr__] prints it.  A positive finite float [m * 2^e] is the
    only float in its rounding interval; the digits are those of the
    coarsest decimal [D * 10^q] inside that interval, the closest to the float
    when two fit.  All comparisons are exact, on integers.  The float is taken
    in canonical form, as every operation of this file produces it. *)
Definition emin : Z := 3 - emax - prec.

(** [lo * N <= D * P * DEN <= hi * N], both inclusive only when [m] is even. *)
Definition in_interval (m lo hi N PDEN D : Z) : bool :=
  let c := D * PDEN in
  if Z.even m then andb (lo * N <=? c) (c <=? hi * N)
  else andb (lo * N <? c) (c <? hi * N).

(** One decimal position [q]: the candidate digits, if any. *)
Definition digits_at (m e q : Z) : option Z :=
  let u := 2 ^ (Z.max 0 e) in
  let DEN := 4 * 2 ^ (Z.max 0 (- e)) in
  let X := 4 * m * u in
  let hi := (4 * m + 2) * u in
  let lo := if andb (m =? 2 ^ (prec - 1)) (emin <? e)
            then (4 * m - 1) * u else (4 * m - 2) * u in
  let P := 10 ^ (Z.max 0 q) in
  let N := 10 ^ (Z.max 0 (- q)) in
  let PDEN := P * DEN in
  let D := (X * N) / PDEN in
  let okD := andb (0 <? D) (in_interval m lo hi N PDEN D) in
  let okD1 := in_interval m lo hi N PDEN (D + 1) in
  let below := X * N - D * PDEN in
  let above := (D + 1) * PDEN - X * N in
  match okD, okD1 with
  | true, true =>
      match Z.compare below above with
      | Lt => Some D
      | Gt => Some (D + 1)
      | Eq => Some (if Z.even D then D else D + 1)
      end
  | true, false => Some D
  | false, true => Some (D + 1)
  | false, false => None
  end.

Fixpoint shortest_digits (fuel : nat) (m e q : Z) : Z * Z :=
  match fuel with
  | O => (m, e)
  | S k =>
      match digits_at m e q with
      | Some D => (D, q)
      | None => shortest_digits k m e (q - 1)
      end
  end.

Fixpoint strip_zeros (fuel : nat) (D q : Z) : Z * Z :=
  match fuel with
  | O => (D, q)
  | S k => if andb (D mod 10 =? 0) (0 <? D) then strip_zeros k (D / 10) (q + 1) else (D, q)
  end.

Definition repr_finite (m e : Z) : string :=
  let q0 := (Z.log2 m + e) * 30103 / 100000 + 2 in
  let '(D0, q1) := shortest_digits 40 m e q0 in
  let '(D, q) := strip_zeros 400 D0 q1 in
  let ds := str_int D in
  let n := Z.of_nat (String.length ds) in
  let decpt := n + q in
  if orb (decpt <=? -4) (16 <? decpt) then
    let mant := match ds with
                | EmptyString => EmptyString
                | String c EmptyString => String c EmptyString
                | String c r => String c ("." ++ r)
                end in
    let x := decpt - 1 in
    mant ++ "e" ++ (if x <? 0 then "-" else "+") ++ zfill 2 (Z.abs x)
  else if decpt <=? 0 then "0." ++ zeros (Z.to_nat (- decpt)) ++ ds
  else if n <=? decpt then ds ++ zeros (Z.to_nat (decpt - n)) ++ ".0"
  else substring 0 (Z.to_nat decpt) ds ++ "." ++
       substring (Z.to_nat decpt) (Z.to_nat (n - decpt)) ds.

Definition repr_float (x : float) : string :=
  match x with
  | S754_nan => "nan"
  | S754_infinity s => if s then "-inf" else "inf"
  | S754_zero s => if s then "-0.0" else "0.0"
  | S754_finite s m e => (if s then "-" else "") ++ repr_finite (Zpos m) e
  end.

(* ================================================================== *)
(** * models.py                                                        *)
(* ================================================================== *)

Module Models.

(** A [datetime]: the calendar fields, the microseconds and the UTC offset
    of its [tzinfo] in seconds ([None] for a naive value). *)
Record datetime : Type := mkdatetime {
  year : Z; month : Z; day : Z; hour : Z; minute : Z; second : Z;
  microsecond : Z; utcoffset : option Z
}.

Record WeatherRecord : Type := mkWeatherRecord {
  city : option string;
  country : option string;
  timestamp : option datetime;
  timezone_offset : option Z;
  weather : option string;
  weather_description : option string;
  temperature_min : option float;
  temperature_max : option float;
  temperature_current : option float;
  temperature_feels_like : option float;
  cloudiness : option Z;
  wind_speed : option float;
  wind_direction_deg : option Z;
  humidity : option Z;
  pressure : option Z;
  sunrise : option datetime;
  sunset : option datetime;
  units : option string
}.

(** [dt.strftime("%d-%m-%Y %H:%M:%S")], with the year padded to four digits. *)
Definition strftime_dmy_hms (dt : datetime) : string :=
  zfill 2 (day dt) ++ "-" ++ zfill 2 (month dt) ++ "-" ++ zfill 4 (year dt)
  ++ " " ++ zfill 2 (hour dt) ++ ":" ++ zfill 2 (minute dt) ++ ":" ++ zfill 2 (second dt).

(** [format_datetime(self, dt)]; the attribute lookup [dt.strftime] fails on
    [None]. *)
Definition format_datetime (dt : option datetime) : result string :=
  match dt with
  | None => raise AttributeError "'NoneType' object has no attribute 'strftime'"
  | Some d => OK (strftime_dmy_hms d)
  end.

(** [timezone_str(self)] *)
Definition timezone_str (self : WeatherRecord) : result string :=
  match timezone_offset self with
  | None => raise TypeError "unsupported operand type(s) for //: 'NoneType' and 'int'"
  | Some off =>
      let hours := off / 3600 in
      if hours =? 0 then OK "UTC"
      else
        let sign := if hours >? 0 then "+" else "-" in
        OK ("UTC" ++ sign ++ str_int (Z.abs hours))
  end.

Definition dirs : list string :=
  [ "North"; "North-Northeast"; "Northeast"; "East-Northeast";
    "East"; "East-Southeast"; "Southeast"; "South-Southeast";
    "South"; "South-Southwest"; "Southwest"; "West-Southwest";
    "West"; "West-Northwest"; "Northwest"; "North-Northwest" ].

(** The body of [wind_direction_compass] on the value the attribute holds:
    [ix = round(deg / 22.5) % 16; return dirs[ix]]. *)
Definition compass_of (deg : number) : result string :=
  q <- truediv deg f22_5 ;;
  n <- round q ;;
  let ix := n mod 16 in
  OK (nth (Z.to_nat ix) dirs "").

(** [wind_direction_compass(self)] *)
Definition wind_direction_compass (self : WeatherRecord) : result string :=
  match wind_direction_deg self with
  | None => raise TypeError "unsupported operand type(s) for /: 'NoneType' and 'float'"
  | Some deg => compass_of (PyInt deg)
  end.

(** [str(dt)], that is [dt.isoformat(sep=" ")]. *)
Definition str_datetime (dt : datetime) : string :=
  zfill 4 (year dt) ++ "-" ++ zfill 2 (month dt) ++ "-" ++ zfill 2 (day dt)
  ++ " " ++ zfill 2 (hour dt) ++ ":" ++ zfill 2 (minute dt) ++ ":" ++ zfill 2 (second dt)
  ++ (if microsecond dt =? 0 then "" else "." ++ zfill 6 (microsecond dt))
  ++ match utcoffset dt with
     | None => ""
     | Some off =>
         let a := Z.abs off in
         (if off <? 0 then "-" else "+")
         ++ zfill 2 (a / 3600) ++ ":" ++ zfill 2 ((a mod 3600) / 60)
         ++ (if a mod 60 =? 0 then "" else ":" ++ zfill 2 (a mod 60))
     end.

(** The value of an attribute of a record, as [getattr] returns it. *)
Inductive value : Type :=
| VNone
| VStr (s : string)
| VInt (z : Z)
| VFloat (f : float)
| VDatetime (d : datetime).

Definition of_opt {A : Type} (inj : A -> value) (o : option A) : value :=
  match o with
  | Some a => inj a
  | None => VNone
  end.

(** [str(v)], which is what [f"{v}"] prints. *)
Definition str (v : value) : string :=
  match v with
  | VNone => "None"
  | VStr s => s
  | VInt z => str_int z
  | VFloat f => repr_float f
  | VDatetime d => str_datetime d
  end.

(** [getattr(self, field_name)] *)
Definition getattr (self : WeatherRecord) (field_name : string) : result value :=
  if String.eqb field_name "city" then OK (of_opt VStr (city self))
  else if String.eqb field_name "country" then OK (of_opt VStr (country self))
  else if String.eqb field_name "timestamp" then OK (of_opt VDatetime (timestamp self))
  else if String.eqb field_name "timezone_offset" then OK (of_opt VInt (timezone_offset self))
  else if String.eqb field_name "weather" then OK (of_opt VStr (weather self))
  else if String.eqb field_name "weather_description" then OK (of_opt VStr (weather_description self))
  else if String.eqb field_name "temperature_min" then OK (of_opt VFloat (temperature_min self))
  else if String.eqb field_name "temperature_max" then OK (of_opt VFloat (temperature_max self))
  else if String.eqb field_name "temperature_current" then OK (of_opt VFloat (temperature_current self))
  else if String.eqb field_name "temperature_feels_like" then OK (of_opt VFloat (temperature_feels_like self))
  else if String.eqb field_name "cloudiness" then OK (of_opt VInt (cloudiness self))
  else if String.eqb field_name "wind_speed" then OK (of_opt VFloat (wind_speed self))
  else if String.eqb field_name "wind_direction_deg" then OK (of_opt VInt (wind_direction_deg self))
  else if String.eqb field_name "humidity" then OK (of_opt VInt (humidity self))
  else if String.eqb field_name "pressure" then OK (of_opt VInt (pressure self))
  else if String.eqb field_name "sunrise" then OK (of_opt VDatetime (sunrise self))
  else if String.eqb field_name "sunset" then OK (of_opt VDatetime (sunset self))
  else if String.eqb field_name "units" then OK (of_opt VStr (units self))
  else raise AttributeError ("'WeatherRecord' object has no attribute '" ++ field_name ++ "'").

(** [sub in s] for strings. *)
Definition contains (sub s : string) : bool :=
  match index 0 sub s with
  | Some _ => true
  | None => false
  end.

Definition opt_string_eqb (o : option string) (s : string) : bool :=
  match o with
  | Some t => String.eqb t s
  | None => false
  end.

(** [field_with_units(self, field_name)] *)
Definition field_with_units (self : WeatherRecord) (field_name : string) : result string :=
  let unit :=
    if contains "temperature" field_name then
      (* {"metric": ..., "imperial": ..., "default": ...}.get(self.units, "K") *)
      if opt_string_eqb (units self) "metric" then "°C"
      else if opt_string_eqb (units self) "imperial" then "°F"
      else if opt_string_eqb (units self) "default" then "K"
      else "K"
    else if String.eqb field_name "wind_speed" then
      if orb (opt_string_eqb (units self) "metric") (opt_string_eqb (units self) "default")
      then "m/s" else "mph"
    else if orb (String.eqb field_name "humidity") (String.eqb field_name "cloudiness") then "%"
    else if String.eqb field_name "pressure" then "hPa"
    else "" in
  v <- getattr self field_name ;;
  OK (if String.eqb unit "" then str v else str v ++ " " ++ unit).

(** A cell of an output row. [CNaN] is the filler pandas puts where a row
    has no value for a column; [CTimestamp] and [CNaT] are what
    [pd.to_datetime] produces. *)
Inductive cell : Type :=
| CNone
| CStr (s : string)
| CInt (z : Z)
| CFloat (f : float)
| CNaN
| CTimestamp (d : datetime)
| CNaT.

Definition cell_of {A : Type} (inj : A -> cell) (o : option A) : cell :=
  match o with
  | Some a => inj a
  | None => CNone
  end.

(** A Python [dict] with string keys, in insertion order. *)
Definition dict : Type := list (string * cell).

(** [self.field_with_units(name).split()[-1]], the unit put in a header. *)
Definition header_unit (self : WeatherRecord) (field_name : string) : result string :=
  s <- field_with_units self field_name ;;
  last_item (split s).

(** [formatted_record(self)].  The entries of the dict display are evaluated
    in order, key before value, so the first failing entry decides the
    exception. *)
Definition formatted_record (self : WeatherRecord) : result dict :=
  ts <- format_datetime (timestamp self) ;;
  tz <- timezone_str self ;;
  u_cur <- header_unit self "temperature_current" ;;
  u_min <- header_unit self "temperature_min" ;;
  u_max <- header_unit self "temperature_max" ;;
  u_feel <- header_unit self "temperature_feels_like" ;;
  u_wind <- header_unit self "wind_speed" ;;
  wd <- wind_direction_compass self ;;
  sr <- format_datetime (sunrise self) ;;
  ss <- format_datetime (sunset self) ;;
  OK [ ("City", cell_of CStr (city self));
       ("Country", cell_of CStr (country self));
       ("Timestamp", CStr ts);
       ("Timezone", CStr tz);
       ("Weather", cell_of CStr (weather self));
       ("Weather_Description", cell_of CStr (weather_description self));
       ("Cloudiness_(%)", cell_of CInt (cloudiness self));
       ("Temperature_Current_(" ++ u_cur ++ ")", cell_of CFloat (temperature_current self));
       ("Temperature_Min_(" ++ u_min ++ ")", cell_of CFloat (temperature_min self));
       ("Temperature_Max_(" ++ u_max ++ ")", cell_of CFloat (temperature_max self));
       ("Temperature_Feels_Like_(" ++ u_feel ++ ")", cell_of CFloat (temperature_feels_like self));
       ("Wind_Speed_(" ++ u_wind ++ ")", cell_of CFloat (wind_speed self));
       ("Wind_Direction", CStr wd);
       ("Humidity_(%)", cell_of CInt (humidity self));
       ("Pressure_(hPa)", cell_of CInt (pressure self));
       ("Sunrise", CStr sr);
       ("Sunset", CStr ss) ].

End Models.

(* ================================================================== *)
(** * api_client.py                                                    *)
(* ================================================================== *)

Module ApiClient.

(** A path segment given to [get_field]: a string key or an integer index. *)
Inductive key : Type :=
| KStr (s : string)
| KInt (i : Z).

Definition key_eqb (a b : key) : bool :=
  match a, b with
  | KStr s, KStr t => String.eqb s t
  | KInt i, KInt j => Z.eqb i j
  | _, _ => false
  end.

(** A structured value: what [response.json()] returns, and more generally
    any nesting of dicts (string or integer keys, in insertion order) and
    lists over scalars. *)
#[local] Set Warnings "-register-all".
Inductive json : Type :=
| JNull
| JBool (b : bool)
| JInt (z : Z)
| JFloat (f : float)
| JStr (s : string)
| JList (l : list json)
| JDict (items : list (key * json)).

(** [d[key]] for a dict, [None] here when [key not in d]. *)
Fixpoint lookup (k : key) (items : list (key * json)) : option json :=
  match items with
  | [] => None
  | (k', v) :: rest => if key_eqb k k' then Some v else lookup k rest
  end.

(** [get_field(self, d, *keys, default=None)] *)
Fixpoint get_field (d : json) (keys : list key) (default : json) : json :=
  match keys with
  | [] => d
  | k :: rest =>
      match d with
      | JDict items =>
          match lookup k items with
          | Some v => get_field v rest default
          | None => default
          end
      | JList l =>
          match k with
          | KInt i =>
              if andb (0 <=? i) (i <? Z.of_nat (List.length l))
              then get_field (nth (Z.to_nat i) l JNull) rest default
              else default
          | KStr _ => default
          end
      | _ => default
      end
  end.

(** The client's configuration; the logger is the event trace below. *)
Record OpenWeatherClient : Type := mkClient {
  base_url : string;
  api_key : string;
  units : string;
  timeout : Z;
  max_retries : Z;
  backoff_seconds : Z
}.

(** A [requests.Response]: the status line, the URL and what [.json()] gives
    (the parsed body, or the exception the decoder raises). *)
Record Response : Type := mkResponse {
  status_code : Z;
  reason : string;
  url : string;
  json_body : result json
}.

(** [response.raise_for_status()]: [HTTPError] for 4xx and 5xx only. *)
Definition raise_for_status (r : Response) : result unit :=
  if andb (400 <=? status_code r) (status_code r <? 500) then
    raise HTTPError (str_int (status_code r) ++ " Client Error: " ++ reason r
                     ++ " for url: " ++ url r)
  else if andb (500 <=? status_code r) (status_code r <? 600) then
    raise HTTPError (str_int (status_code r) ++ " Server Error: " ++ reason r
                     ++ " for url: " ++ url r)
  else OK tt.

(** What the client does that the outside can see. *)
Inductive event : Type :=
| EGet (url : string) (params : list (string * string)) (timeout : Z)
| EWarning (msg : string)
| ESleep (seconds : Z).

(** [range(a, b)] *)
Definition range (a b : Z) : list Z :=
  map (fun i => a + Z.of_nat i) (seq 0 (Z.to_nat (b - a))).

(** How the [for] loop of [fetch_weather] ends. *)
Inductive loop_exit : Type :=
| Returned (body : json)
| Raised (e : exn)
| Exhausted.

(** The [try] block of one attempt: [requests.get], [raise_for_status],
    [response.json()].  [get] is the outcome of the call. *)
Definition try_body (get : result Response) : result json :=
  response <- get ;;
  _ <- raise_for_status response ;;
  json_body response.

Section Fetch.

Variable self : OpenWeatherClient.
(** [network attempt] is what [requests.get] does on the [attempt]-th call
    of this fetch: it returns a response or raises. *)
Variable network : Z -> result Response.

(** The retry loop over the attempt numbers still to run. *)
Fixpoint attempts (query : string) (params : list (string * string))
         (todo : list Z) : list event * loop_exit :=
  match todo with
  | [] => ([], Exhausted)
  | attempt :: rest =>
      let sent := EGet (base_url self) params (timeout self) in
      match try_body (network attempt) with
      | OK body => ([sent], Returned body)
      | Raise e =>
          if is_RequestException e then
            let warning :=
              EWarning ("Attempt " ++ str_int attempt ++ "/" ++ str_int (max_retries self)
                        ++ " failed for " ++ query ++ ": " ++ exn_msg e) in
            if attempt <? max_retries self then
              (* time.sleep(self.backoff_seconds) *)
              if backoff_seconds self <? 0 then
                ([sent; warning],
                 Raised (mkExn ValueError "sleep length must be non-negative"))
              else
                let '(tr, ex) := attempts query params rest in
                (sent :: warning :: ESleep (backoff_seconds self) :: tr, ex)
            else
              let '(tr, ex) := attempts query params rest in
              (sent :: warning :: tr, ex)
          else ([sent], Raised e)
      end
  end.

(** [fetch_weather(self, city, country)] *)
Definition fetch_weather (city country : string) : list event * result json :=
  let query := city ++ "," ++ country in
  let params := [("q", query); ("appid", api_key self); ("units", units self)] in
  let '(tr, ex) := attempts query params (range 1 (max_retries self + 1)) in
  (tr, match ex with
       | Returned body => OK body
       | Raised e => Raise e
       | Exhausted => raise RuntimeError ("Failed to fetch data for " ++ query)
       end).

End Fetch.

End ApiClient.

(* ================================================================== *)
(** * storage.py                                                       *)
(* ================================================================== *)

Module Storage.
Import Models.

(** ** pathlib *)

(** A [pathlib.Path] on POSIX: the root ([""] for a relative path, ["/"] or
    ["//"]) and the segments.  Empty segments and ["."] are dropped when a
    string is parsed; [".."] is kept. *)
Record Path : Type := mkPath { root : string; parts : list string }.

Definition is_slash (c : ascii) : bool := Ascii.eqb c "/"%char.

Definition root_of (s : string) : string :=
  match s with
  | String "/" (String "/" (String "/" _)) => "/"
  | String "/" (String "/" _) => "//"
  | String "/" _ => "/"
  | _ => ""
  end.

(** [Path(s)] *)
Definition parse_path (s : string) : Path :=
  mkPath (root_of s)
         (filter (fun seg => negb (String.eqb seg ".")) (pieces is_slash EmptyString s)).

(** [p / s]: an absolute right operand replaces the left one. *)
Definition joinpath (p : Path) (s : string) : Path :=
  let q := parse_path s in
  if String.eqb (root q) "" then mkPath (root p) (parts p ++ parts q)%list else q.

Definition list_eqb (l1 l2 : list string) : bool :=
  if list_eq_dec string_dec l1 l2 then true else false.

Definition path_eqb (p q : Path) : bool :=
  andb (String.eqb (root p) (root q)) (list_eqb (parts p) (parts q)).

(** [p.parent] *)
Definition parent (p : Path) : Path := mkPath (root p) (removelast (parts p)).

(** [p] and the directories above it that have a name, outermost first. *)
Definition ancestors (p : Path) : list Path :=
  map (fun n => mkPath (root p) (firstn n (parts p))) (seq 1 (List.length (parts p))).

(** ** The file system *)

(** A written file: the format tag that chose the writer and the rows of the
    frame, in order. *)
Record file : Type := mkFile { file_format : string; file_rows : list dict }.

Record FS : Type := mkFS { dirs : list Path; files : list (Path * file) }.

Definition empty_fs : FS := mkFS [] [].

Definition is_dir (fs : FS) (p : Path) : bool :=
  match parts p with
  | [] => true
  | _ => existsb (path_eqb p) (dirs fs)
  end.

Fixpoint read_file (l : list (Path * file)) (p : Path) : option file :=
  match l with
  | [] => None
  | (q, f) :: rest => if path_eqb p q then Some f else read_file rest p
  end.

Definition is_file (fs : FS) (p : Path) : bool :=
  match read_file (files fs) p with
  | Some _ => true
  | None => false
  end.

(** Computations of the writer: the file system is threaded through, and an
    exception leaves it as it was when the exception was raised. *)
Definition M (A : Type) : Type := FS -> FS * result A.

Definition ret {A : Type} (a : A) : M A := fun fs => (fs, OK a).
Definition throw {A : Type} (c : exn_class) (msg : string) : M A :=
  fun fs => (fs, raise c msg).
Definition lift {A : Type} (r : result A) : M A := fun fs => (fs, r).
Definition bindM {A B : Type} (m : M A) (k : A -> M B) : M B :=
  fun fs =>
    match m fs with
    | (fs', OK a) => k a fs'
    | (fs', Raise e) => (fs', Raise e)
    end.

Notation "x <~ m ;; k" := (bindM m (fun x => k))
  (at level 100, m at next level, right associativity) : py_scope.
Notation "m ;;; k" := (bindM m (fun _ => k))
  (at level 100, right associativity) : py_scope.

(** [for x in l: body(x)] *)
Fixpoint for_each {A : Type} (l : list A) (body : A -> M unit) : M unit :=
  match l with
  | [] => ret tt
  | x :: rest => body x ;;; for_each rest body
  end.

(** [path.mkdir(parents=True, exist_ok=True)]: the path and every missing
    directory above it are created; it fails when one of them is a file. *)
Definition mkdir (p : Path) : M unit :=
  fun fs =>
    if existsb (is_file fs) (ancestors p)
    then (fs, raise OSError "File exists")
    else
      (mkFS (fold_left (fun ds a => if existsb (path_eqb a) ds then ds else (ds ++ [a])%list)
                       (ancestors p) (dirs fs))
            (files fs),
       OK tt).

(** Opening [filepath] for writing and storing the frame: the directory of
    the file must exist and the file must not be a directory; an existing
    file is replaced. *)
Definition write_file (fmt : string) (rows : list dict) (filepath : Path) : M unit :=
  fun fs =>
    if andb (is_dir fs (parent filepath)) (negb (is_dir fs filepath))
    then
      (mkFS (dirs fs)
            ((filepath, mkFile fmt rows)
               :: filter (fun e => negb (path_eqb filepath (fst e))) (files fs)),
       OK tt)
    else (fs, raise OSError "Cannot save file into a non-existent directory").

(** ** pandas *)

(** A [DataFrame]: its rows in order, each a dict over the same columns. *)
Definition DataFrame : Type := list dict.

Fixpoint get (col : string) (row : dict) : option cell :=
  match row with
  | [] => None
  | (k, v) :: rest => if String.eqb col k then Some v else get col rest
  end.

(** The columns of [pd.DataFrame(data)]: the keys of the dicts in order of
    first appearance. *)
Fixpoint add_columns (cols : list string) (keys : list string) : list string :=
  match keys with
  | [] => cols
  | k :: rest =>
      add_columns (if existsb (String.eqb k) cols then cols else (cols ++ [k])%list) rest
  end.

Definition columns_of (data : list dict) : list string :=
  fold_left (fun cols d => add_columns cols (map fst d)) data [].

(** [pd.DataFrame(data)] for a list of dicts: a value missing from a dict is
    NaN.  Cells are kept as they are given, which is what the frame holds
    when no numeric column has a gap (pandas stores a numeric column that
    holds a [None] as floats). *)
Definition mkDataFrame (data : list dict) : DataFrame :=
  let cols := columns_of data in
  map (fun d => map (fun c => (c, match get c d with Some v => v | None => CNaN end)) cols)
      data.

Definition digit_of (c : ascii) : option Z :=
  let n := nat_of_ascii c in
  if andb (Nat.leb 48 n) (Nat.leb n 57) then Some (Z.of_nat (n - 48)) else None.

(** Exactly [n] decimal digits at the head of [s]: their value, and the rest
    of [s]. *)
Fixpoint read_digits (n : nat) (acc : Z) (s : string) : option (Z * string) :=
  match n with
  | O => Some (acc, s)
  | S k =>
      match s with
      | String c r =>
          match digit_of c with
          | Some d => read_digits k (10 * acc + d) r
          | None => None
          end
      | EmptyString => None
      end
  end.

Definition expect (c : ascii) (s : string) : option string :=
  match s with
  | String c' r => if Ascii.eqb c c' then Some r else None
  | EmptyString => None
  end.

Definition is_leap (y : Z) : bool :=
  andb (y mod 4 =? 0) (orb (negb (y mod 100 =? 0)) (y mod 400 =? 0)).

Definition days_in_month (y m : Z) : Z :=
  if m =? 2 then (if is_leap y then 29 else 28)
  else if orb (orb (m =? 4) (m =? 6)) (orb (m =? 9) (m =? 11)) then 30
  else 31.

(** The fields of a real calendar date and time of day. *)
Definition valid_datetime (d : datetime) : bool :=
  andb (andb (andb (1 <=? year d) (year d <=? 9999))
             (andb (andb (1 <=? month d) (month d <=? 12))
                   (andb (1 <=? day d) (day d <=? days_in_month (year d) (month d)))))
       (andb (andb (0 <=? hour d) (hour d <? 24))
             (andb (andb (0 <=? minute d) (minute d <? 60))
                   (andb (0 <=? second d) (second d <? 60)))).

(** Seconds-resolution order on the calendar fields. *)
Definition fields (d : datetime) : list Z :=
  [year d; month d; day d; hour d; minute d; second d].

Fixpoint lex_leb (a b : list Z) : bool :=
  match a, b with
  | x :: a', y :: b' => if x <? y then true else if y <? x then false else lex_leb a' b'
  | _, _ => true
  end.

(** The instants a [datetime64[ns]] can hold: from 1677-09-21 00:12:44 to
    2262-04-11 23:47:16 at whole seconds. *)
Definition in_ns_bounds (d : datetime) : bool :=
  andb (lex_leb [1677; 9; 21; 0; 12; 44] (fields d))
       (lex_leb (fields d) [2262; 4; 11; 23; 47; 16]).

(** Reading ["%d-%m-%Y %H:%M:%S"] as [strftime] writes it: a naive value. *)
Definition strptime_dmy_hms (s : string) : option datetime :=
  match read_digits 2 0 s with
  | Some (d, s1) =>
  match expect "-" s1 with
  | Some s2 =>
  match read_digits 2 0 s2 with
  | Some (m, s3) =>
  match expect "-" s3 with
  | Some s4 =>
  match read_digits 4 0 s4 with
  | Some (y, s5) =>
  match expect " " s5 with
  | Some s6 =>
  match read_digits 2 0 s6 with
  | Some (hh, s7) =>
  match expect ":" s7 with
  | Some s8 =>
  match read_digits 2 0 s8 with
  | Some (mm, s9) =>
  match expect ":" s9 with
  | Some s10 =>
  match read_digits 2 0 s10 with
  | Some (ss, EmptyString) => Some (mkdatetime y m d hh mm ss 0 None)
  | _ => None
  end | None => None end | None => None end | None => None end
  | None => None end | None => None end | None => None end
  | None => None end | None => None end | None => None end
  | None => None
  end.

(** One value of [pd.to_datetime(col, format="%d-%m-%Y %H:%M:%S",
    errors="coerce")]: a timestamp, or NaT for what does not parse, is not
    a real date or does not fit the nanosecond range. *)
Definition to_datetime (c : cell) : cell :=
  match c with
  | CStr s =>
      match strptime_dmy_hms s with
      | Some d => if andb (valid_datetime d) (in_ns_bounds d) then CTimestamp d else CNaT
      | None => CNaT
      end
  | _ => CNaT
  end.

Definition cell_or_nan (o : option cell) : cell :=
  match o with
  | Some c => c
  | None => CNaN
  end.

(** [df["_ts"] = pd.to_datetime(df["Timestamp"], ...)] *)
Definition assign_ts (df : DataFrame) : DataFrame :=
  map (fun row =>
         (filter (fun e => negb (String.eqb (fst e) "_ts")) row
            ++ [("_ts", to_datetime (cell_or_nan (get "Timestamp" row)))])%list)
      df.

Definition is_null (c : cell) : bool :=
  match c with
  | CNone | CNaN | CNaT => true
  | _ => false
  end.

(** [df.dropna(subset=["_ts"])] *)
Definition dropna_ts (df : DataFrame) : DataFrame :=
  filter (fun row => negb (is_null (cell_or_nan (get "_ts" row)))) df.

(** [df.drop(columns=["_ts"])] *)
Definition drop_ts (df : DataFrame) : DataFrame :=
  map (filter (fun e => negb (String.eqb (fst e) "_ts"))) df.

(** A [datetime.date] *)
Definition date : Type := (Z * Z * Z)%type.

Definition date_compare (a b : date) : comparison :=
  let '(y1, m1, d1) := a in
  let '(y2, m2, d2) := b in
  match Z.compare y1 y2 with
  | Eq => match Z.compare m1 m2 with
          | Eq => Z.compare d1 d2
          | c => c
          end
  | c => c
  end.

Definition pair_compare {A B : Type} (ca : A -> A -> comparison)
           (cb : B -> B -> comparison) (x y : A * B) : comparison :=
  match ca (fst x) (fst y) with
  | Eq => cb (snd x) (snd y)
  | c => c
  end.

(** [row["_ts"].dt.date], [None] on a null. *)
Definition ts_date (row : dict) : option date :=
  match get "_ts" row with
  | Some (CTimestamp d) => Some (year d, month d, day d)
  | _ => None
  end.

(** A string key column; a null is no key. *)
Definition str_key (col : string) (row : dict) : option string :=
  match get col row with
  | Some (CStr s) => Some s
  | _ => None
  end.

Definition key2 {A B : Type} (ka : dict -> option A) (kb : dict -> option B)
           (row : dict) : option (A * B) :=
  match ka row, kb row with
  | Some a, Some b => Some (a, b)
  | _, _ => None
  end.

Section GroupBy.

Context {K : Type}.
Variable compare : K -> K -> comparison.
Variable key : dict -> option K.

Definition key_is (k : K) (row : dict) : bool :=
  match key row with
  | Some k' => match compare k k' with Eq => true | _ => false end
  | None => false
  end.

(** Insertion into a sorted list without repetition. *)
Fixpoint insert_key (k : K) (l : list K) : list K :=
  match l with
  | [] => [k]
  | h :: t =>
      match compare k h with
      | Lt => k :: l
      | Eq => l
      | Gt => h :: insert_key k t
      end
  end.

Fixpoint sorted_keys (df : DataFrame) : list K :=
  match df with
  | [] => []
  | row :: rest =>
      match key row with
      | Some k => insert_key k (sorted_keys rest)
      | None => sorted_keys rest
      end
  end.

(** [df.groupby(keys)] as it is iterated: one pair per distinct key, keys
    in increasing order, rows with a null key left out, the rows of a group
    in frame order. *)
Definition groupby (df : DataFrame) : list (K * DataFrame) :=
  map (fun k => (k, filter (key_is k) df)) (sorted_keys df).

End GroupBy.

(** [f"{x}"] for a cell read back from a row. *)
Definition str_cell (c : cell) : string :=
  match c with
  | CNone => "None"
  | CStr s => s
  | CInt z => str_int z
  | CFloat f => repr_float f
  | CNaN => "nan"
  | CTimestamp d => str_datetime d
  | CNaT => "NaT"
  end.

(** ** The writer *)

Record Storage : Type := mkStorage {
  base_path : Path;
  fmt : string;
  layout : string
}.

(** [Storage(base_path, fmt, layout)] *)
Definition new (base_path fmt layout : string) : Storage :=
  mkStorage (parse_path base_path) (lower fmt) (lower layout).

(** [_save(self, df, filepath)] *)
Definition _save (self : Storage) (df : DataFrame) (filepath : Path) : M unit :=
  if String.eqb (fmt self) "parquet" then write_file (fmt self) df filepath
  else if String.eqb (fmt self) "csv" then write_file (fmt self) df filepath
  else if String.eqb (fmt self) "json" then write_file (fmt self) df filepath
  else throw ValueError ("Unsupported format: " ++ fmt self).

(** [[r.formatted_record() for r in records]] *)
Fixpoint formatted_records (records : list WeatherRecord) : result (list dict) :=
  match records with
  | [] => OK []
  | r :: rest =>
      d <- formatted_record r ;;
      ds <- formatted_records rest ;;
      OK (d :: ds)
  end.

(** ["year={y}/month={m}/day={d}"] *)
Definition date_dir (d : date) : string :=
  let '(y, m, dd) := d in
  "year=" ++ str_int y ++ "/month=" ++ str_int m ++ "/day=" ++ str_int dd.

(** ["year={ts.year}/month={ts.month}/day={ts.day}"] for the [_ts] cell of a
    row; the date parts of a null are [nan]. *)
Definition ts_dir (ts : cell) : string :=
  match ts with
  | CTimestamp d => date_dir (year d, month d, day d)
  | _ => "year=nan/month=nan/day=nan"
  end.

(** [now.strftime("%Y%m%d_%H%M%S")] *)
Definition strftime_run_ts (now : datetime) : string :=
  zfill 4 (year now) ++ zfill 2 (month now) ++ zfill 2 (day now) ++ "_"
  ++ zfill 2 (hour now) ++ zfill 2 (minute now) ++ zfill 2 (second now).

(** [write(self, records)]; [now] is what [datetime.now(timezone.utc)]
    returns during the call. *)
Definition write (self : Storage) (now : datetime) (records : list WeatherRecord) : M unit :=
  match records with
  | [] => ret tt
  | _ =>
    data <~ lift (formatted_records records) ;;
    let df := mkDataFrame data in
    let df := assign_ts df in
    let df := dropna_ts df in
    let run_ts := strftime_run_ts now in
    if String.eqb (layout self) "date" then
      for_each (groupby date_compare ts_date df)
        (fun '(date, group) =>
           let path := joinpath (base_path self) (date_dir date) in
           mkdir path ;;;
           let filename := "weather_" ++ run_ts ++ "." ++ fmt self in
           _save self (drop_ts group) (joinpath path filename))
    else if String.eqb (layout self) "date_country" then
      for_each (groupby (pair_compare date_compare String.compare)
                        (key2 ts_date (str_key "Country")) df)
        (fun '((date, country), group) =>
           let path := joinpath (base_path self) (date_dir date) in
           mkdir path ;;;
           let filename := country ++ "_weather_" ++ run_ts ++ "." ++ fmt self in
           _save self (drop_ts group) (joinpath path filename))
    else if String.eqb (layout self) "country_date" then
      for_each (groupby (pair_compare String.compare date_compare)
                        (key2 (str_key "Country") ts_date) df)
        (fun '((country, date), group) =>
           let path := joinpath (base_path self) (country ++ "/" ++ date_dir date) in
           mkdir path ;;;
           let filename := "weather_" ++ run_ts ++ "." ++ fmt self in
           _save self (drop_ts group) (joinpath path filename))
    else if String.eqb (layout self) "hive_compact" then
      for_each df
        (fun row =>
           let ts := cell_or_nan (get "_ts" row) in
           let city := str_cell (cell_or_nan (get "City" row)) in
           let country := str_cell (cell_or_nan (get "Country" row)) in
           let path := joinpath (base_path self)
                                (ts_dir ts ++ "/" ++ country ++ "/" ++ city) in
           mkdir path ;;;
           let filename := country ++ "_" ++ city ++ "_" ++ run_ts ++ "." ++ fmt self in
           _save self (drop_ts [row]) (joinpath path filename))
    else if String.eqb (layout self) "city_date" then
      for_each (groupby (pair_compare String.compare date_compare)
                        (key2 (str_key "City") ts_date) df)
        (fun '((city, date), group) =>
           let path := joinpath (base_path self) (city ++ "/" ++ date_dir date) in
           mkdir path ;;;
           let filename := "weather_" ++ run_ts ++ "." ++ fmt self in
           _save self (drop_ts group) (joinpath path filename))
    else throw ValueError ("Unsupported layout: " ++ layout self)
  end.

End Storage.

(* ================================================================== *)
(** * main.py                                                          *)
(* ================================================================== *)

Module Main.
Import Models ApiClient.

(** [s.upper()] on ASCII letters. *)
Definition upper_ascii (c : ascii) : ascii :=
  let n := nat_of_ascii c in
  if andb (Nat.leb 97 n) (Nat.leb n 122) then ascii_of_nat (n - 32) else c.

Fixpoint upper (s : string) : string :=
  match s with
  | EmptyString => EmptyString
  | String c r => String (upper_ascii c) (upper r)
  end.

(** ** [datetime.fromtimestamp(x, tz=timezone.utc)] *)

(** Days since 1970-01-01 to the civil date of the proleptic Gregorian
    calendar. *)
Definition civil_from_days (z : Z) : Z * Z * Z :=
  let z := z + 719468 in
  let era := z / 146097 in
  let doe := z - era * 146097 in
  let yoe := (doe - doe / 1460 + doe / 36524 - doe / 146096) / 365 in
  let y := yoe + era * 400 in
  let doy := doe - (365 * yoe + yoe / 4 - yoe / 100) in
  let mp := (5 * doy + 2) / 153 in
  let d := doy - (153 * mp + 2) / 5 + 1 in
  let m := if mp <? 10 then mp + 3 else mp - 9 in
  (if m <=? 2 then y + 1 else y, m, d).

(** The UTC [datetime] of [sec] seconds and [us] microseconds after the
    epoch; years outside 1..9999 are refused. *)
Definition utc_datetime (sec us : Z) : result datetime :=
  if orb (sec <? - 2 ^ 63) (2 ^ 63 <=? sec) then
    raise OverflowError "timestamp out of range for platform time_t"
  else if orb (sec <? -62135596800) (253402300799 <? sec) then
    raise ValueError "year is out of range"
  else
    let '(y, m, d) := civil_from_days (sec / 86400) in
    let s := sec mod 86400 in
    OK (mkdatetime y m d (s / 3600) ((s mod 3600) / 60) (s mod 60) us (Some 0)).

(** The literal [1e6]. *)
Definition f1e6 : float := binary_normalize prec emax 1000000 0 false.

(** A float split as the interpreter does it: whole seconds and microseconds
    rounded half to even, the microseconds brought back into [0, 10^6). *)
Definition seconds_and_micros (s : bool) (m e : Z) : Z * Z :=
  let whole := if 0 <=? e then m * 2 ^ e else m / 2 ^ (- e) in
  let intpart := if s then - whole else whole in
  let x := S754_finite s (Z.to_pos m) e in
  let frac := SFsub prec emax x (binary_normalize prec emax intpart 0 false) in
  let us := match SFmul prec emax frac f1e6 with
            | S754_finite s' m' e' =>
                let n := round_half_even (Zpos m') e' in if s' then - n else n
            | _ => 0
            end in
  if 1000000 <=? us then (intpart + 1, us - 1000000)
  else if us <? 0 then (intpart - 1, us + 1000000)
  else (intpart, us).

Definition fromtimestamp (x : json) : result datetime :=
  match x with
  | JInt z => utc_datetime z 0
  | JBool b => utc_datetime (if b then 1 else 0) 0
  | JFloat S754_nan => raise ValueError "Invalid value NaN (not a number)"
  | JFloat (S754_infinity _) =>
      raise OverflowError "timestamp out of range for platform time_t"
  | JFloat (S754_zero _) => utc_datetime 0 0
  | JFloat (S754_finite s m e) =>
      let '(sec, us) := seconds_and_micros s (Zpos m) e in utc_datetime sec us
  | JNull => raise TypeError "'NoneType' object cannot be interpreted as an integer"
  | JStr _ => raise TypeError "'str' object cannot be interpreted as an integer"
  | JList _ => raise TypeError "'list' object cannot be interpreted as an integer"
  | JDict _ => raise TypeError "'dict' object cannot be interpreted as an integer"
  end.

(** ** The ingestion loop *)

(** The keyword arguments of [WeatherRecord(...)], evaluated. *)
Record RecordArgs : Type := mkArgs {
  a_city : string;
  a_country : string;
  a_timestamp : datetime;
  a_timezone_offset : json;
  a_weather : json;
  a_weather_description : json;
  a_temperature_min : json;
  a_temperature_max : json;
  a_temperature_current : json;
  a_temperature_feels_like : json;
  a_cloudiness : json;
  a_wind_speed : json;
  a_wind_direction_deg : json;
  a_humidity : json;
  a_pressure : json;
  a_sunrise : datetime;
  a_sunset : datetime;
  a_units : string
}.

(** The arguments of the constructor call, evaluated left to right: the
    three [fromtimestamp] calls can raise before the record is built. *)
Definition record_args (client : OpenWeatherClient) (city_name country_code : string)
           (raw : json) : result RecordArgs :=
  let default_none := JNull in
  ts <- fromtimestamp (get_field raw [KStr "dt"] default_none) ;;
  sr <- fromtimestamp (get_field raw [KStr "sys"; KStr "sunrise"] default_none) ;;
  ss <- fromtimestamp (get_field raw [KStr "sys"; KStr "sunset"] default_none) ;;
  OK (mkArgs city_name country_code ts
        (get_field raw [KStr "timezone"] default_none)
        (get_field raw [KStr "weather"; KInt 0; KStr "main"] default_none)
        (get_field raw [KStr "weather"; KInt 0; KStr "description"] default_none)
        (get_field raw [KStr "main"; KStr "temp_min"] default_none)
        (get_field raw [KStr "main"; KStr "temp_max"] default_none)
        (get_field raw [KStr "main"; KStr "temp"] default_none)
        (get_field raw [KStr "main"; KStr "feels_like"] default_none)
        (get_field raw [KStr "clouds"; KStr "all"] default_none)
        (get_field raw [KStr "wind"; KStr "speed"] default_none)
        (get_field raw [KStr "wind"; KStr "deg"] default_none)
        (get_field raw [KStr "main"; KStr "humidity"] default_none)
        (get_field raw [KStr "main"; KStr "pressure"] default_none)
        sr ss (units client)).

(** An entry of [config["cities"]]. *)
Record city_info : Type := mkCity { cfg_name : string; cfg_country : string }.

(** What the loop prints and logs, with the client's own events. *)
Inductive output : Type :=
| Print (line : string)
| Client (e : event)
| LogError (msg : string).

(** The variables the loop updates. *)
Record state : Type := mkState {
  success_count : Z;
  failed_cities_count : Z;
  failed_cities : list string;
  records : list WeatherRecord;
  out : list output
}.

Definition initial : state := mkState 0 0 [] [] [].

Section Ingest.

Variable client : OpenWeatherClient.
(** [network city country attempt]: the outcome of the HTTP call. *)
Variable network : string -> string -> Z -> result Response.
(** The validation done by the constructor of the pydantic model: the record
    or a [ValidationError]. *)
Variable validate : RecordArgs -> result WeatherRecord.

(** The [try] block of one city. *)
Definition process (city_name country_code : string) : list event * result WeatherRecord :=
  let '(tr, fetched) := fetch_weather client (network city_name country_code)
                                      city_name country_code in
  (tr, raw <- fetched ;;
       args <- record_args client city_name country_code raw ;;
       validate args).

(** One turn of [for city_info in valid_cities_list]. An exception that is
    not an [Exception] leaves the loop. *)
Definition ingest_city (st : state) (c : city_info) : result state :=
  let city_name := cfg_name c in
  let country_code := upper (cfg_country c) in
  let line := Print ("Fetching weather for " ++ city_name ++ ", " ++ country_code ++ "...") in
  let '(tr, r) := process city_name country_code in
  let seen := (out st ++ line :: map Client tr)%list in
  match r with
  | OK record =>
      OK (mkState (success_count st + 1) (failed_cities_count st) (failed_cities st)
                  (records st ++ [record])%list seen)
  | Raise e =>
      if is_Exception e then
        OK (mkState (success_count st) (failed_cities_count st + 1)
                    (app (failed_cities st) [country_code ++ "." ++ city_name])
                    (records st)
                    (app seen [LogError ("Failed processing " ++ city_name ++ ", "
                                         ++ country_code ++ ": " ++ exn_msg e)]))
      else Raise e
  end.

Fixpoint ingest (st : state) (cities : list city_info) : result state :=
  match cities with
  | [] => OK st
  | c :: rest => st' <- ingest_city st c ;; ingest st' rest
  end.

End Ingest.

(** The constructor on arguments that already have the declared types: each
    value is [None] or of the type of its field, an [int] is accepted for a
    [float] field; anything else is a [ValidationError]. *)
Definition as_str (field : string) (j : json) : result (option string) :=
  match j with
  | JNull => OK None
  | JStr s => OK (Some s)
  | _ => raise ValidationError (field ++ ": Input should be a valid string")
  end.

Definition as_int (field : string) (j : json) : result (option Z) :=
  match j with
  | JNull => OK None
  | JInt z => OK (Some z)
  | _ => raise ValidationError (field ++ ": Input should be a valid integer")
  end.

Definition as_float (field : string) (j : json) : result (option float) :=
  match j with
  | JNull => OK None
  | JFloat f => OK (Some f)
  | JInt z => f <- float_of_int z ;; OK (Some f)
  | _ => raise ValidationError (field ++ ": Input should be a valid number")
  end.

Definition exact_types (a : RecordArgs) : result WeatherRecord :=
  tz <- as_int "timezone_offset" (a_timezone_offset a) ;;
  w <- as_str "weather" (a_weather a) ;;
  wdesc <- as_str "weather_description" (a_weather_description a) ;;
  tmin <- as_float "temperature_min" (a_temperature_min a) ;;
  tmax <- as_float "temperature_max" (a_temperature_max a) ;;
  tcur <- as_float "temperature_current" (a_temperature_current a) ;;
  tfeel <- as_float "temperature_feels_like" (a_temperature_feels_like a) ;;
  cl <- as_int "cloudiness" (a_cloudiness a) ;;
  ws <- as_float "wind_speed" (a_wind_speed a) ;;
  wdir <- as_int "wind_direction_deg" (a_wind_direction_deg a) ;;
  hum <- as_int "humidity" (a_humidity a) ;;
  pr <- as_int "pressure" (a_pressure a) ;;
  OK (mkWeatherRecord (Some (a_city a)) (Some (a_country a)) (Some (a_timestamp a))
        tz w wdesc tmin tmax tcur tfeel cl ws wdir hum pr
        (Some (a_sunrise a)) (Some (a_sunset a)) (Some (a_units a))).

End Main.

(* ================================================================== *)
(** * config_loader.py                                                 *)
(* ================================================================== *)

Module ConfigLoader.
Import ApiClient.

(** The exception classes of this module; opening and parsing a file can
    raise the last four, [OtherError] standing for any other class. *)
Inductive error_class : Type :=
| FileNotFoundError | KeyError | TypeError | AttributeError | RuntimeError
| OSError | JSONDecodeError | YAMLError | OtherError (class_name : string).

Record error : Type := mkError { err_cls : error_class; err_msg : string }.

Inductive outcome (A : Type) : Type :=
| Return (a : A)
| Throw (e : error).
Arguments Return {A} a.
Arguments Throw {A} e.

(** [str.lstrip()], [str.rstrip()] and [str.strip()] without arguments. *)
Fixpoint lstrip (s : string) : string :=
  match s with
  | EmptyString => EmptyString
  | String c r => if is_space c then lstrip r else s
  end.

Fixpoint rstrip (s : string) : string :=
  match s with
  | EmptyString => EmptyString
  | String c r =>
      match rstrip r with
      | EmptyString => if is_space c then EmptyString else String c EmptyString
      | kept => String c kept
      end
  end.

Definition strip (s : string) : string := rstrip (lstrip s).

(** [s.encode("ASCII", "ignore").decode("utf-8")]: every code point above
    127 is dropped; in UTF-8 these are exactly the bytes above 127. *)
Definition is_ascii (c : ascii) : bool := Nat.ltb (nat_of_ascii c) 128.

Fixpoint encode_ascii_ignore (s : string) : string :=
  match s with
  | EmptyString => EmptyString
  | String c r => if is_ascii c then String c (encode_ascii_ignore r)
                  else encode_ascii_ignore r
  end.

(** [str(path)] for a [pathlib.Path]. *)
Fixpoint join_segments (l : list string) : string :=
  match l with
  | [] => ""
  | [a] => a
  | a :: rest => a ++ "/" ++ join_segments rest
  end.

Definition path_str (p : Storage.Path) : string :=
  match Storage.parts p with
  | [] => if String.eqb (Storage.root p) "" then "." else Storage.root p
  | l => Storage.root p ++ join_segments l
  end.

Section Loader.

(** What [yaml.safe_load] returns, and the value [None]. *)
Variable yaml_value : Type.
Variable yaml_none : yaml_value.

(** [path.exists()] *)
Variable path_exists : Storage.Path -> bool.
(** [open(path, "r", encoding="utf-8")] followed by [yaml.safe_load(f)],
    respectively [json.load(f)]: the parsed value or the exception raised. *)
Variable read_yaml : Storage.Path -> outcome yaml_value.
Variable read_json : Storage.Path -> outcome json.
(** [unicodedata.normalize("NFKD", s)] *)
Variable nfkd : string -> string.

Record ConfigLoader : Type := mkLoader {
  config_path : Storage.Path;
  city_list_path : Storage.Path;
  config : yaml_value;
  (* a set of pairs: only membership is ever asked *)
  valid_cities_set : option (list (string * string))
}.

(** [ConfigLoader(config_path, city_list_path)] *)
Definition new (config_path city_list_path : string) : ConfigLoader :=
  mkLoader (Storage.parse_path config_path) (Storage.parse_path city_list_path)
           yaml_none None.

(** [load_config(self)]: the loader afterwards and what the call returns. *)
Definition load_config (self : ConfigLoader) : ConfigLoader * outcome yaml_value :=
  if negb (path_exists (config_path self)) then
    (self, Throw (mkError FileNotFoundError
                          ("Config file not found: " ++ path_str (config_path self))))
  else
    match read_yaml (config_path self) with
    | Throw e => (self, Throw e)
    | Return parsed =>
        (mkLoader (config_path self) (city_list_path self) parsed (valid_cities_set self),
         Return parsed)
    end.

(** [normalize_city(name)] *)
Definition normalize_city (name : string) : string :=
  lower (strip (encode_ascii_ignore (nfkd name))).

(** The name of the type of a value, as error messages print it. *)
Definition type_name (v : json) : string :=
  match v with
  | JNull => "NoneType"
  | JBool _ => "bool"
  | JInt _ => "int"
  | JFloat _ => "float"
  | JStr _ => "str"
  | JList _ => "list"
  | JDict _ => "dict"
  end.

(** [c[key]] for a string key. *)
Definition subscript (c : json) (key : string) : outcome json :=
  match c with
  | JDict items =>
      match lookup (KStr key) items with
      | Some v => Return v
      | None => Throw (mkError KeyError ("'" ++ key ++ "'"))
      end
  | JList _ => Throw (mkError TypeError "list indices must be integers or slices, not str")
  | JStr _ => Throw (mkError TypeError "string indices must be integers, not 'str'")
  | other => Throw (mkError TypeError ("'" ++ type_name other ++ "' object is not subscriptable"))
  end.

(** The pair built for one entry of the city list:
    [(self.normalize_city(c["name"]), c["country"].upper())], evaluated from
    left to right. *)
Definition city_key (c : json) : outcome (string * string) :=
  match subscript c "name" with
  | Throw e => Throw e
  | Return name =>
      match name with
      | JStr n =>
          match subscript c "country" with
          | Throw e => Throw e
          | Return country =>
              match country with
              | JStr k => Return (normalize_city n, Main.upper k)
              | other =>
                  Throw (mkError AttributeError
                                 ("'" ++ type_name other ++ "' object has no attribute 'upper'"))
              end
          end
      | other =>
          Throw (mkError TypeError
                         ("normalize() argument 2 must be str, not " ++ type_name other))
      end
  end.

Fixpoint city_keys (l : list json) : outcome (list (string * string)) :=
  match l with
  | [] => Return []
  | c :: rest =>
      match city_key c with
      | Throw e => Throw e
      | Return k =>
          match city_keys rest with
          | Throw e => Throw e
          | Return ks => Return (k :: ks)
          end
      end
  end.

(** The elements the comprehension runs over: those of a list, the keys of
    a dict, the characters of a string; anything else is not iterable. *)
Definition iterate (city_list : json) : outcome (list json) :=
  match city_list with
  | JList l => Return l
  | JDict items =>
      Return (map (fun e => match fst e with
                            | KStr s => JStr s
                            | KInt i => JInt i
                            end) items)
  | JStr s => Return (map (fun c => JStr (String c EmptyString)) (list_ascii_of_string s))
  | other => Throw (mkError TypeError ("'" ++ type_name other ++ "' object is not iterable"))
  end.

(** [load_valid_cities(self)] *)
Definition load_valid_cities (self : ConfigLoader)
  : ConfigLoader * outcome (list (string * string)) :=
  if negb (path_exists (city_list_path self)) then
    (self, Throw (mkError FileNotFoundError
                          ("City list not found: " ++ path_str (city_list_path self))))
  else
    match read_json (city_list_path self) with
    | Throw e => (self, Throw e)
    | Return city_list =>
        match iterate city_list with
        | Throw e => (self, Throw e)
        | Return entries =>
            match city_keys entries with
            | Throw e => (self, Throw e)
            | Return keys =>
                (mkLoader (config_path self) (city_list_path self) (config self) (Some keys),
                 Return keys)
            end
        end
    end.

Definition pair_eqb (a b : string * string) : bool :=
  andb (String.eqb (fst a) (fst b)) (String.eqb (snd a) (snd b)).

(** [validate_city(self, city, country)] *)
Definition validate_city (self : ConfigLoader) (city country : string) : outcome bool :=
  match valid_cities_set self with
  | None =>
      Throw (mkError RuntimeError
                     "Valid cities set not loaded. Call load_valid_cities() first.")
  | Some cities =>
      Return (existsb (pair_eqb (normalize_city city, Main.upper country)) cities)
  end.

End Loader.

Arguments config_path {yaml_value}.
Arguments city_list_path {yaml_value}.
Arguments config {yaml_value}.
Arguments valid_cities_set {yaml_value}.
Arguments new {yaml_value}.
Arguments load_config {yaml_value}.
Arguments load_valid_cities {yaml_value}.
Arguments validate_city {yaml_value}.

End ConfigLoader.

(* ================================================================== *)
(** * logger.py                                                        *)
(* ================================================================== *)

Module Logger.

(** The levels of [logging]. *)
Definition NOTSET : Z := 0.
Definition INFO : Z := 20.
Definition WARNING : Z := 30.

(** A stream handler with its formatter. *)
Record Handler : Type := mkHandler {
  stream : string;
  fmt : string;
  datefmt : string
}.

Record Logger : Type := mkLogger {
  name : string;
  level : Z;
  handlers : list Handler;
  propagate : bool
}.

(** The loggers of the process: the root logger and the named loggers
    created so far, which [logging] keeps for the life of the process. *)
Record Manager : Type := mkManager {
  root : Logger;
  loggerDict : list (string * Logger)
}.

Fixpoint find_logger (n : string) (d : list (string * Logger)) : option Logger :=
  match d with
  | [] => None
  | (k, lg) :: rest => if String.eqb n k then Some lg else find_logger n rest
  end.

(** The logger stored under a name is an object: changing it changes the
    entry of the dictionary. *)
Fixpoint replace_logger (n : string) (lg : Logger) (d : list (string * Logger))
  : list (string * Logger) :=
  match d with
  | [] => []
  | (k, old) :: rest =>
      if String.eqb n k then (k, lg) :: rest else (k, old) :: replace_logger n lg rest
  end.

Definition is_root (n : string) : bool := orb (String.eqb n "") (String.eqb n "root").

(** [logging.getLogger(name)]: the root logger for an empty name or the name
    of the root, the logger of that name if there is one, a new one
    otherwise (level NOTSET, no handler, propagating). *)
Definition getLogger (n : string) (m : Manager) : Manager * Logger :=
  if is_root n then (m, root m)
  else
    match find_logger n (loggerDict m) with
    | Some lg => (m, lg)
    | None =>
        let lg := mkLogger n NOTSET [] true in
        (mkManager (root m) (loggerDict m ++ [(n, lg)])%list, lg)
    end.

(** The manager after the logger called [n] has become [lg]. *)
Definition update (n : string) (lg : Logger) (m : Manager) : Manager :=
  if is_root n then mkManager lg (loggerDict m)
  else mkManager (root m) (replace_logger n lg (loggerDict m)).

(** [setup_logger(name)]: the manager afterwards and the logger returned. *)
Definition setup_logger (n : string) (m : Manager) : Manager * Logger :=
  let '(m, logger) := getLogger n m in
  (* logger.setLevel(logging.INFO) *)
  let logger := mkLogger (name logger) INFO (handlers logger) (propagate logger) in
  let logger :=
    match handlers logger with
    | [] =>
        let handler := mkHandler "stdout" "%(asctime)s - %(levelname)s - %(message)s"
                                 "%Y-%m-%d %H:%M:%S" in
        (* logger.addHandler(handler); logger.propagate = False *)
        mkLogger (name logger) (level logger) (handlers logger ++ [handler])%list false
    | _ => logger
    end in
  (update n logger m, logger).

(** The default argument of [setup_logger]. *)
Definition default_name : string := "weather_pipeline".

End Logger.

(* ================================================================== *)
(** * main.py: the script                                              *)
(* ================================================================== *)

Module Script.
Import Models ApiClient Main.

(** The values the script reads from the parsed configuration. *)
Record ApiConfig : Type := mkApiConfig {
  cfg_base_url : string;
  cfg_units : string;
  cfg_timeout_seconds : Z;
  cfg_max_retries : Z;
  cfg_backoff_seconds : Z
}.

Record StorageConfig : Type := mkStorageConfig {
  cfg_base_path : string;
  cfg_format : string;
  cfg_layout : string
}.

Record Config : Type := mkConfig {
  cities : list city_info;
  api : ApiConfig;
  storage : StorageConfig
}.

(** What ends the script early: an exception of the configuration loader or
    any other exception. *)
Inductive raised : Type :=
| LoaderError (e : ConfigLoader.error)
| PythonError (e : exn).

(** What the script prints and logs. *)
Inductive line : Type :=
| Loop (o : output)
| LogInfo (msg : string).

(** The line feed. *)
Definition nl : string := String "010" EmptyString.

(** The state of the process when the script stops, and the exception that
    stopped it, if any. *)
Record run : Type := mkRun {
  lines : list line;
  disk : Storage.FS;
  loggers : Logger.Manager;
  uncaught : option raised
}.

Section Run.

(** The files of the configuration, as the loader reads them; an empty YAML
    document is [None]. *)
Variable path_exists : Storage.Path -> bool.
Variable read_yaml : Storage.Path -> ConfigLoader.outcome (option Config).
Variable read_json : Storage.Path -> ConfigLoader.outcome json.
Variable nfkd : string -> string.
(** [os.environ.get("OPENWEATHER_API_KEY")] *)
Variable environ_api_key : option string.
(** The outcome of each HTTP call, the validation of the record model and
    the reading of the clock during the write. *)
Variable network : string -> string -> Z -> result Response.
Variable validate : RecordArgs -> result WeatherRecord.
Variable now : datetime.

(** The answers of [validate_city] for the cities of the configuration, in
    order. *)
Fixpoint validities (loader : ConfigLoader.ConfigLoader (option Config))
         (l : list city_info) : ConfigLoader.outcome (list bool) :=
  match l with
  | [] => ConfigLoader.Return []
  | c :: rest =>
      match ConfigLoader.validate_city nfkd loader (cfg_name c) (cfg_country c) with
      | ConfigLoader.Throw e => ConfigLoader.Throw e
      | ConfigLoader.Return b =>
          match validities loader rest with
          | ConfigLoader.Throw e => ConfigLoader.Throw e
          | ConfigLoader.Return bs => ConfigLoader.Return (b :: bs)
          end
      end
  end.

(** The elements of [l] whose flag is [keep]. *)
Fixpoint select {A : Type} (keep : bool) (l : list A) (flags : list bool) : list A :=
  match l, flags with
  | x :: l', b :: flags' =>
      if Bool.eqb b keep then x :: select keep l' flags' else select keep l' flags'
  | _, _ => []
  end.

(** The summary printed after the write. *)
Definition summary (st : state) : list line :=
  map (fun s => Loop (Print s))
      (app [ nl ++ "Pipeline finished." ++ nl;
             "✅ Successful cities: " ++ str_int (success_count st);
             "❌ Failed cities: " ++ str_int (failed_cities_count st) ++ nl ]
           (if 0 <? failed_cities_count st
            then "List of failed cities (check names/country codes):"
                   :: map (fun c => " - " ++ c) (failed_cities st)
            else [])).

(** One turn of the loop over the cities, with what it leaves behind when
    an exception that is not an [Exception] ends it: the variables are as
    before the turn, the line printed and the calls made are in the output,
    and the exception goes on. *)
Definition turn (client : OpenWeatherClient) (st : state) (c : city_info)
  : state * option exn :=
  match ingest_city client network validate st c with
  | OK st' => (st', None)
  | Raise e =>
      let city_name := cfg_name c in
      let country_code := upper (cfg_country c) in
      let line := Print ("Fetching weather for " ++ city_name ++ ", " ++ country_code ++ "...") in
      let tr := fst (process client network validate city_name country_code) in
      (mkState (success_count st) (failed_cities_count st) (failed_cities st) (records st)
               (app (out st) (line :: map Client tr)),
       Some e)
  end.

(** The loop: the state when it ends, and the exception that left it, if
    any. *)
Fixpoint loop (client : OpenWeatherClient) (st : state) (l : list city_info)
  : state * option exn :=
  match l with
  | [] => (st, None)
  | c :: rest =>
      match turn client st c with
      | (st', None) => loop client st' rest
      | stopped => stopped
      end
  end.

(** The script, from its first statement to its last. *)
Definition main (fs0 : Storage.FS) (loggers0 : Logger.Manager) : run :=
  let config_loader :=
    ConfigLoader.new (@None Config) "config/config.yaml" "config/city.list.json" in
  match ConfigLoader.load_config path_exists read_yaml config_loader with
  | (_, ConfigLoader.Throw e) => mkRun [] fs0 loggers0 (Some (LoaderError e))
  | (config_loader, ConfigLoader.Return config) =>
  match ConfigLoader.load_valid_cities path_exists read_json nfkd config_loader with
  | (_, ConfigLoader.Throw e) => mkRun [] fs0 loggers0 (Some (LoaderError e))
  | (config_loader, ConfigLoader.Return _) =>
  let '(loggers1, _) := Logger.setup_logger Logger.default_name loggers0 in
  let out1 := [Loop (Print (nl ++ "Validating cities in YAML config..." ++ nl))] in
  match config with
  | None =>
      mkRun out1 fs0 loggers1
            (Some (PythonError (mkExn TypeError "'NoneType' object is not subscriptable")))
  | Some config =>
  match validities config_loader (cities config) with
  | ConfigLoader.Throw e => mkRun out1 fs0 loggers1 (Some (LoaderError e))
  | ConfigLoader.Return flags =>
  let invalid_cities :=
    map (fun c => upper (cfg_country c) ++ "." ++ cfg_name c)
        (select false (cities config) flags) in
  let out2 :=
    app out1
        (map (fun s => Loop (Print s))
             (match invalid_cities with
              | [] => ["✅ All cities in config.yaml are valid according to OpenWeather city list." ++ nl]
              | _ => app ("⚠️ The following cities are invalid (not in OpenWeather list):" :: map (fun c => " - " ++ c) invalid_cities)
                         [nl ++ "These cities will be skipped." ++ nl]
              end)) in
  let valid_cities_list := select true (cities config) flags in
  match environ_api_key with
  | None | Some EmptyString =>
      mkRun out2 fs0 loggers1
            (Some (PythonError
                     (mkExn RuntimeError "OPENWEATHER_API_KEY environment variable is not set")))
  | Some api_key =>
  let client :=
    mkClient (cfg_base_url (api config)) api_key (cfg_units (api config))
             (cfg_timeout_seconds (api config)) (cfg_max_retries (api config))
             (cfg_backoff_seconds (api config)) in
  let out3 := app out2 [Loop (Print ("Starting weather ingestion pipeline..." ++ nl))] in
  match loop client initial valid_cities_list with
  | (st, Some e) => mkRun (app out3 (map Loop (out st))) fs0 loggers1 (Some (PythonError e))
  | (st, None) =>
  let out4 := app out3 (map Loop (out st)) in
  let storage :=
    Storage.new (cfg_base_path (storage config)) (cfg_format (storage config))
                (cfg_layout (storage config)) in
  match Storage.write storage now (records st) fs0 with
  | (fs1, Raise e) => mkRun out4 fs1 loggers1 (Some (PythonError e))
  | (fs1, OK _) =>
      mkRun (app out4 (app (summary st) [LogInfo "Weather ingestion completed"]))
            fs1 loggers1 None
  end end end end end end end.

End Run.

End Script.

(* ================================================================== *)
(** * Properties                                                       *)
(* ================================================================== *)

Import Models.

(** ** Results and loops: general facts *)

Lemma bind_OK {A B : Type} (m : result A) (k : A -> result B) (b : B) :
  bind m k = OK b -> exists a, m = OK a /\ k a = OK b.
Proof.
  destruct m as [a|e]; simpl; intros H.
  - exists a; split; [reflexivity | exact H].
  - discriminate H.
Qed.

Lemma forallb_range (P : Z -> bool) (lo : Z) (n : nat) :
  forallb P (map (fun i => lo + Z.of_nat i) (seq 0 n)) = true ->
  forall z, lo <= z < lo + Z.of_nat n -> P z = true.
Proof.
  intros H z Hz.
  rewrite forallb_forall in H. apply H.
  apply in_map_iff. exists (Z.to_nat (z - lo)). split.
  - rewrite Z2Nat.id by lia. lia.
  - apply in_seq. lia.
Qed.

(** ** Timezone label *)

(** C9. The timezone label is computed from the whole hours [h] of the
    offset (the floor of offset / 3600): "UTC" when [h] is 0, otherwise
    "UTC+N" or "UTC-N" with N the absolute value of [h]; offsets 0, 3600 and
    -18000 give "UTC", "UTC+1" and "UTC-5". *)
Theorem timezone_str_label :
  (forall self off, timezone_offset self = Some off ->
     exists h, 3600 * h <= off < 3600 * (h + 1) /\
       timezone_str self =
         OK (if h =? 0 then "UTC"
             else if 0 <? h then "UTC+" ++ str_int (Z.abs h)
             else "UTC-" ++ str_int (Z.abs h)))
  /\ (forall self, timezone_offset self = Some 0 -> timezone_str self = OK "UTC")
  /\ (forall self, timezone_offset self = Some 3600 -> timezone_str self = OK "UTC+1")
  /\ (forall self, timezone_offset self = Some (-18000) -> timezone_str self = OK "UTC-5").
Proof.
  repeat split.
  - intros self off Hoff. exists (off / 3600). split.
    + pose proof (Z.mul_div_le off 3600 ltac:(lia)).
      pose proof (Z.mul_succ_div_gt off 3600 ltac:(lia)). lia.
    + unfold timezone_str. rewrite Hoff.
      destruct (off / 3600 =? 0) eqn:E0; [reflexivity|].
      rewrite Z.gtb_ltb. destruct (0 <? off / 3600); reflexivity.
  - intros self H. unfold timezone_str. rewrite H. reflexivity.
  - intros self H. unfold timezone_str. rewrite H. reflexivity.
  - intros self H. unfold timezone_str. rewrite H. reflexivity.
Qed.

(** ** Compass direction *)

(** The check run on every direction of the range: the label is the entry of
    the table at the integer nearest to [deg / 22.5], taken modulo 16. *)
Definition nearest_sector (deg : Z) : Z := (4 * deg + 45) / 90.

Definition compass_agrees (deg : Z) : bool :=
  match compass_of (PyInt deg) with
  | OK label =>
      andb (Z.abs (4 * deg - 90 * nearest_sector deg) <? 45)
           (String.eqb label (nth (Z.to_nat (nearest_sector deg mod 16)) dirs ""))
  | Raise _ => false
  end.

Lemma compass_agrees_on_range :
  forall deg, -3600 <= deg <= 3600 -> compass_agrees deg = true.
Proof.
  intros deg H.
  apply (forallb_range compass_agrees (-3600) (Z.to_nat 7201)); [vm_compute; reflexivity | lia].
Qed.

(** C8, as the code has it. Whenever the division by 22.5 and the rounding
    return (they are done on floats), the compass label is the entry at
    index [round(deg / 22.5) mod 16] of the 16-point table written out below,
    which starts at North and goes clockwise in steps of 22.5 degrees; the
    index never leaves the table.  For an integer direction between -3600 and
    3600 degrees (the directions the API reports, 0 to 360, are among them)
    they do return and the index is [k mod 16], where [k] is the integer
    nearest to [deg / 22.5] (that is |deg/22.5 - k| < 1/2, written on
    integers); 0, 22.5, 45, 337.5 and 360 degrees give North,
    North-Northeast, Northeast, North-Northwest and North. *)
Theorem wind_direction_compass_nearest :
  let table :=
    [ "North"; "North-Northeast"; "Northeast"; "East-Northeast";
      "East"; "East-Southeast"; "Southeast"; "South-Southeast";
      "South"; "South-Southwest"; "Southwest"; "West-Southwest";
      "West"; "West-Northwest"; "Northwest"; "North-Northwest" ] in
  (forall self deg, wind_direction_deg self = Some deg -> -3600 <= deg <= 3600 ->
     exists k, Z.abs (4 * deg - 90 * k) < 45 /\
       wind_direction_compass self = OK (nth (Z.to_nat (k mod 16)) table ""))
  /\ (forall self deg q n, wind_direction_deg self = Some deg ->
        truediv (PyInt deg) f22_5 = OK q -> round q = OK n ->
        wind_direction_compass self = OK (nth (Z.to_nat (n mod 16)) table "")
        /\ In (nth (Z.to_nat (n mod 16)) table "") table)
  /\ compass_of (PyInt 0) = OK "North"
  /\ compass_of (PyFloat f22_5) = OK "North-Northeast"
  /\ compass_of (PyInt 45) = OK "Northeast"
  /\ compass_of (PyFloat f337_5) = OK "North-Northwest"
  /\ compass_of (PyInt 360) = OK "North".
Proof.
  intros table.
  split; [|split; [| repeat split; vm_compute; reflexivity]].
  - intros self deg Hdeg Hrange.
    pose proof (compass_agrees_on_range deg Hrange) as H.
    unfold compass_agrees in H.
    unfold wind_direction_compass. rewrite Hdeg.
    destruct (compass_of (PyInt deg)) as [label|e]; [|discriminate H].
    apply andb_true_iff in H. destruct H as [Hk Hl].
    exists (nearest_sector deg). split.
    + apply Z.ltb_lt. exact Hk.
    + apply String.eqb_eq in Hl. rewrite Hl. reflexivity.
  - intros self deg q n Hdeg Hq Hn.
    unfold wind_direction_compass, compass_of. rewrite Hdeg, Hq. cbn [bind].
    rewrite Hn. cbn [bind].
    split; [reflexivity|].
    apply nth_In. pose proof (Z.mod_pos_bound n 16 ltac:(lia)) as Hb.
    change (List.length table) with 16%nat. lia.
Qed.

Definition record_with_wind (deg : Z) : WeatherRecord :=
  mkWeatherRecord None None None None None None None None None None None None
                  (Some deg) None None None None None.

Lemma wind_direction_compass_nearest_witness :
  exists k, Z.abs (4 * 200 - 90 * k) < 45 /\
    wind_direction_compass (record_with_wind 200)
    = OK (nth (Z.to_nat (k mod 16))
              [ "North"; "North-Northeast"; "Northeast"; "East-Northeast";
                "East"; "East-Southeast"; "Southeast"; "South-Southeast";
                "South"; "South-Southwest"; "Southwest"; "West-Southwest";
                "West"; "West-Northwest"; "Northwest"; "North-Northwest" ] "").
Proof.
  apply (proj1 wind_direction_compass_nearest (record_with_wind 200) 200);
    [reflexivity | lia].
Defined.

(** C8 as stated does not hold for every direction: the division is done on
    floats, and an integer beyond the range of a float makes it raise. *)
Lemma wind_direction_compass_overflow :
  wind_direction_compass (record_with_wind (2 ^ 1024))
  = raise OverflowError "int too large to convert to float".
Proof.
  vm_compute. reflexivity.
Qed.

Definition record_with_offset (off : Z) : WeatherRecord :=
  mkWeatherRecord None None None (Some off) None None None None None None None None
                  None None None None None None.

Lemma timezone_str_label_witness :
  exists h, 3600 * h <= 19800 < 3600 * (h + 1) /\
    timezone_str (record_with_offset 19800) =
      OK (if h =? 0 then "UTC"
          else if 0 <? h then "UTC+" ++ str_int (Z.abs h)
          else "UTC-" ++ str_int (Z.abs h)).
Proof.
  apply (proj1 timezone_str_label (record_with_offset 19800) 19800). reflexivity.
Defined.

(** ** Field extractor *)

Import ApiClient.

(** One step of a walk: from a mapping that contains the key to the value
    stored under it, from a sequence to the element at an integer index that
    is in range.  A mapping holds a key once; in the list of its items the
    entry of the key is the first one that has it. *)
Inductive descends : json -> key -> json -> Prop :=
| descends_dict (before after : list (key * json)) (k : key) (v : json) :
    ~ In k (map fst before) ->
    descends (JDict (before ++ (k, v) :: after)) k v
| descends_list (l : list json) (i : Z) (v : json) :
    0 <= i < Z.of_nat (List.length l) ->
    nth_error l (Z.to_nat i) = Some v ->
    descends (JList l) (KInt i) v.

(** A walk along a whole path, one segment at a time. *)
Inductive reaches : json -> list key -> json -> Prop :=
| reaches_here (d : json) : reaches d [] d
| reaches_step (d : json) (k : key) (v : json) (rest : list key) (r : json) :
    descends d k v -> reaches v rest r -> reaches d (k :: rest) r.

Lemma key_eqb_eq (a b : key) : key_eqb a b = true <-> a = b.
Proof.
  destruct a as [s|i], b as [t|j]; simpl.
  - rewrite String.eqb_eq. split; congruence.
  - split; discriminate.
  - split; discriminate.
  - rewrite Z.eqb_eq. split; congruence.
Qed.

Lemma key_eqb_refl (k : key) : key_eqb k k = true.
Proof.
  apply key_eqb_eq. reflexivity.
Qed.

(** The search of a mapping finds the first entry of the key. *)
Lemma lookup_first (before after : list (key * json)) (k : key) (v : json) :
  ~ In k (map fst before) -> lookup k (before ++ (k, v) :: after) = Some v.
Proof.
  induction before as [|[k' v'] before IH]; intros H; simpl.
  - rewrite key_eqb_refl. reflexivity.
  - destruct (key_eqb k k') eqn:E.
    + apply key_eqb_eq in E. subst k'. exfalso. apply H. left. reflexivity.
    + apply IH. intros Hin. apply H. right. exact Hin.
Qed.

Lemma lookup_found (items : list (key * json)) (k : key) (v : json) :
  lookup k items = Some v ->
  exists before after, items = (before ++ (k, v) :: after)%list /\ ~ In k (map fst before).
Proof.
  induction items as [|[k' v'] items IH]; simpl; intros H; [discriminate H|].
  destruct (key_eqb k k') eqn:E.
  - apply key_eqb_eq in E. subst k'. inversion H; subst v'.
    exists [], items. split; [reflexivity | intros []].
  - destruct (IH H) as (before & after & Hitems & Hno).
    exists ((k', v') :: before), after. split; [rewrite Hitems; reflexivity|].
    intros [Hk|Hin]; [|exact (Hno Hin)].
    simpl in Hk. subst k'. rewrite key_eqb_refl in E. discriminate E.
Qed.

Lemma lookup_missing (items : list (key * json)) (k : key) :
  lookup k items = None <-> ~ In k (map fst items).
Proof.
  induction items as [|[k' v'] items IH]; simpl.
  - split; [intros _ [] | reflexivity].
  - destruct (key_eqb k k') eqn:E.
    + apply key_eqb_eq in E. subst k'. split; [discriminate|].
      intros H. exfalso. apply H. left. reflexivity.
    + rewrite IH. split.
      * intros H [Hk|Hin]; [|exact (H Hin)].
        subst k'. rewrite key_eqb_refl in E. discriminate E.
      * intros H Hin. apply H. right. exact Hin.
Qed.

(** In a mapping that holds every key once, the entry of a key is the
    entry found. *)
Lemma lookup_unique (items : list (key * json)) (k : key) (v : json) :
  NoDup (map fst items) -> In (k, v) items -> lookup k items = Some v.
Proof.
  induction items as [|[k' v'] items IH]; intros Hnd Hin; [destruct Hin|].
  simpl in Hnd. inversion Hnd as [|x l Hk' Hnd']; subst.
  simpl. destruct Hin as [Heq|Hin].
  - inversion Heq; subst. rewrite key_eqb_refl. reflexivity.
  - destruct (key_eqb k k') eqn:E; [|exact (IH Hnd' Hin)].
    apply key_eqb_eq in E. subst k'. exfalso. apply Hk'.
    apply in_map_iff. exists (k, v). split; [reflexivity | exact Hin].
Qed.

Lemma descends_lookup (items : list (key * json)) (k : key) (v : json) :
  descends (JDict items) k v <-> lookup k items = Some v.
Proof.
  split.
  - intros H. inversion H; subst. apply lookup_first. assumption.
  - intros H. destruct (lookup_found items k v H) as (before & after & Hitems & Hno).
    rewrite Hitems. constructor. exact Hno.
Qed.

Lemma descends_functional (d : json) (k : key) (v w : json) :
  descends d k v -> descends d k w -> v = w.
Proof.
  intros Hv Hw. destruct d; try (inversion Hv; fail).
  - inversion Hv; inversion Hw; subst. congruence.
  - apply descends_lookup in Hv. apply descends_lookup in Hw. congruence.
Qed.

Lemma get_field_step (d : json) (k : key) (v : json) (rest : list key) (default : json) :
  descends d k v -> get_field d (k :: rest) default = get_field v rest default.
Proof.
  intros H. destruct H as [before after k v Hno | l i v Hi Hn]; simpl.
  - rewrite (lookup_first before after k v Hno). reflexivity.
  - assert (E : andb (0 <=? i) (i <? Z.of_nat (List.length l)) = true).
    { apply andb_true_iff. split; [apply Z.leb_le | apply Z.ltb_lt]; lia. }
    rewrite E. f_equal.
    apply nth_error_nth. exact Hn.
Qed.

Lemma get_field_stuck (d : json) (k : key) (rest : list key) (default : json) :
  (forall v, ~ descends d k v) -> get_field d (k :: rest) default = default.
Proof.
  intros H. destruct d; simpl; try reflexivity.
  - destruct k as [s|i]; [reflexivity|].
    destruct (andb (0 <=? i) (i <? Z.of_nat (List.length l))) eqn:E; [|reflexivity].
    exfalso. apply andb_true_iff in E. destruct E as [E1 E2].
    apply Z.leb_le in E1. apply Z.ltb_lt in E2.
    destruct (nth_error l (Z.to_nat i)) as [v|] eqn:En.
    + apply (H v). constructor; [lia | exact En].
    + apply nth_error_None in En. lia.
  - destruct (lookup k items) as [v|] eqn:El; [|reflexivity].
    exfalso. apply (H v). apply descends_lookup. exact El.
Qed.

Lemma get_field_reaches (path : list key) :
  forall d default r, reaches d path r -> get_field d path default = r.
Proof.
  induction path as [|k rest IH]; intros d default r H; inversion H; subst.
  - reflexivity.
  - rewrite (get_field_step d k v rest default) by assumption.
    apply IH. assumption.
Qed.

Lemma get_field_total (path : list key) :
  forall d default,
    (exists r, reaches d path r) \/
    ((forall r, ~ reaches d path r) /\ get_field d path default = default).
Proof.
  induction path as [|k rest IH]; intros d default.
  - left. exists d. constructor.
  - assert (Hd : (exists v, descends d k v) \/ (forall v, ~ descends d k v)).
    { destruct d; try (right; intros v Hv; inversion Hv; fail).
      - destruct k as [s|i]; [right; intros v Hv; inversion Hv|].
        destruct (nth_error l (Z.to_nat i)) as [v|] eqn:En.
        + destruct (Z_lt_dec i 0) as [Hneg|Hpos].
          * right. intros w Hw. inversion Hw; subst. lia.
          * left. exists v. constructor; [|exact En].
            assert (Z.to_nat i < List.length l)%nat
              by (apply nth_error_Some; congruence). lia.
        + right. intros w Hw. inversion Hw; subst. congruence.
      - destruct (lookup k items) as [v|] eqn:El.
        + left. exists v. apply descends_lookup. exact El.
        + right. intros w Hw. apply descends_lookup in Hw. congruence. }
    destruct Hd as [[v Hv] | Hno].
    + destruct (IH v default) as [[r Hr] | [Hnone Hdef]].
      * left. exists r. econstructor; eassumption.
      * right. split.
        -- intros r Hr. inversion Hr; subst.
           rewrite (descends_functional d k v v0) in Hnone by assumption.
           apply (Hnone r). assumption.
        -- rewrite (get_field_step d k v rest default) by assumption. exact Hdef.
    + right. split.
      * intros r Hr. inversion Hr; subst. apply (Hno v). assumption.
      * apply get_field_stuck. exact Hno.
Qed.

(** A value that is neither a mapping nor a sequence. *)
Definition is_scalar (d : json) : bool :=
  match d with
  | JDict _ | JList _ => false
  | _ => true
  end.

(** C5. The extractor walks the path one segment at a time, through a
    mapping that contains the key or a sequence with the integer index in
    range: when the whole path can be walked it returns the value reached,
    otherwise it returns the caller's default; it is a total function, so it
    never raises.  Segment by segment: a mapping is searched by key (the
    value stored under the key when it is there, the default when no entry
    has the key), a sequence is read by position (the element at an integer
    index from 0 to its length - 1, the default for any other index and for
    a string), anything else gives the default.  The four examples of the
    specification evaluate as stated, also when other keys stand before the
    one looked up. *)
Theorem get_field_walks :
  (forall d path default r, reaches d path r -> get_field d path default = r)
  /\ (forall d path default,
        (forall r, ~ reaches d path r) -> get_field d path default = default)
  /\ (forall items k v rest default,
        NoDup (map fst items) -> In (k, v) items ->
        get_field (JDict items) (k :: rest) default = get_field v rest default)
  /\ (forall items k rest default,
        ~ In k (map fst items) -> get_field (JDict items) (k :: rest) default = default)
  /\ (forall l i v rest default,
        0 <= i -> nth_error l (Z.to_nat i) = Some v ->
        get_field (JList l) (KInt i :: rest) default = get_field v rest default)
  /\ (forall l i rest default,
        i < 0 \/ Z.of_nat (List.length l) <= i ->
        get_field (JList l) (KInt i :: rest) default = default)
  /\ (forall l s rest default, get_field (JList l) (KStr s :: rest) default = default)
  /\ (forall d k rest default,
        is_scalar d = true -> get_field d (k :: rest) default = default)
  /\ get_field (JDict [(KStr "a", JDict [(KStr "b", JInt 5)])])
               [KStr "a"; KStr "b"] JNull = JInt 5
  /\ get_field (JDict [(KStr "a", JDict [])]) [KStr "a"; KStr "b"] (JInt (-1)) = JInt (-1)
  /\ get_field (JDict [(KStr "a", JList [JInt 1; JInt 2])]) [KStr "a"; KInt 1] JNull = JInt 2
  /\ get_field (JDict [(KStr "a", JList [JInt 1])]) [KStr "a"; KInt 5] JNull = JNull
  /\ get_field (JDict [(KStr "x", JInt 1); (KStr "a", JDict [(KStr "c", JInt 7); (KStr "b", JInt 5)])])
               [KStr "a"; KStr "b"] JNull = JInt 5
  /\ get_field (JDict [(KStr "x", JInt 1)]) [KStr "a"] (JInt (-1)) = JInt (-1).
Proof.
  split; [|split; [|split; [|split; [|split; [|split; [|split; [|split]]]]]]].
  - intros d path default r H. apply get_field_reaches. exact H.
  - intros d path default H.
    destruct (get_field_total path d default) as [[r Hr] | [_ Hdef]].
    + exfalso. apply (H r). exact Hr.
    + exact Hdef.
  - intros items k v rest default Hnd Hin. simpl.
    rewrite (lookup_unique items k v Hnd Hin). reflexivity.
  - intros items k rest default Hno. simpl.
    apply lookup_missing in Hno. rewrite Hno. reflexivity.
  - intros l i v rest default Hi Hn.
    apply get_field_step. constructor; [|exact Hn].
    assert (Z.to_nat i < List.length l)%nat by (apply nth_error_Some; congruence). lia.
  - intros l i rest default Hi. simpl.
    assert (E : andb (0 <=? i) (i <? Z.of_nat (List.length l)) = false).
    { apply andb_false_iff. destruct Hi as [Hi|Hi];
        [left; apply Z.leb_gt | right; apply Z.ltb_ge]; lia. }
    rewrite E. reflexivity.
  - intros l s rest default. reflexivity.
  - intros d k rest default Hd. destruct d; try discriminate Hd; reflexivity.
  - repeat split.
Qed.

(** A walk through a response in which other fields stand before the ones
    on the path. *)
Lemma get_field_walks_witness :
  get_field (JDict [ (KStr "coord", JDict [(KStr "lon", JInt 9); (KStr "lat", JInt 38)]);
                     (KStr "weather", JList [JDict [(KStr "id", JInt 500);
                                                    (KStr "main", JStr "Rain");
                                                    (KStr "description", JStr "light rain")]]);
                     (KStr "base", JStr "stations") ])
            [KStr "weather"; KInt 0; KStr "main"] JNull = JStr "Rain".
Proof.
  apply (proj1 get_field_walks).
  eapply reaches_step.
  { apply (descends_dict [(KStr "coord", JDict [(KStr "lon", JInt 9); (KStr "lat", JInt 38)])]
                         [(KStr "base", JStr "stations")]).
    simpl. intros [H|[]]. discriminate H. }
  eapply reaches_step; [apply descends_list; [simpl; lia | reflexivity]|].
  eapply reaches_step.
  { apply (descends_dict [(KStr "id", JInt 500)] [(KStr "description", JStr "light rain")]).
    simpl. intros [H|[]]. discriminate H. }
  apply reaches_here.
Defined.

(** ** Retries of the fetch client *)

(** What the trace says: the HTTP calls made and the sleeps taken. *)
Definition is_get (e : event) : bool :=
  match e with
  | EGet _ _ _ => true
  | _ => false
  end.

Definition attempts_made (tr : list event) : Z :=
  Z.of_nat (List.length (filter is_get tr)).

Fixpoint sleeps (tr : list event) : list Z :=
  match tr with
  | [] => []
  | ESleep s :: rest => s :: sleeps rest
  | _ :: rest => sleeps rest
  end.

(** An attempt fails when its [try] block raises a [RequestException]. *)
Definition fails (get : result Response) : bool :=
  match try_body get with
  | Raise e => is_RequestException e
  | OK _ => false
  end.

(** A failure in the words of the specification: the call raised a timeout
    or a connection error (which covers DNS failures), or the response has a
    status outside 200..299. *)
Definition fails_as_specified (get : result Response) : bool :=
  match get with
  | Raise e => match exn_cls e with
               | Timeout | ConnectionError => true
               | _ => false
               end
  | OK r => negb (andb (200 <=? status_code r) (status_code r <? 300))
  end.

Lemma range_cons (a b : Z) : a < b -> range a b = a :: range (a + 1) b.
Proof.
  intros H. unfold range.
  replace (Z.to_nat (b - a)) with (S (Z.to_nat (b - (a + 1)))) by lia.
  simpl. f_equal; [lia|].
  rewrite <- seq_shift, map_map. apply map_ext. intros i. lia.
Qed.

Lemma range_empty (a b : Z) : b <= a -> range a b = [].
Proof.
  intros H. unfold range. replace (Z.to_nat (b - a)) with 0%nat by lia. reflexivity.
Qed.

Lemma last_cons_default {A : Type} (x : A) (l : list A) (d : A) :
  last (x :: l) d = last l x.
Proof.
  revert x d. induction l as [|y l IH]; intros x d; [reflexivity|].
  change (last (x :: y :: l) d) with (last (y :: l) d).
  rewrite (IH y d), (IH y x). reflexivity.
Qed.

Section AlwaysFailing.

Variable self : OpenWeatherClient.
Variable network : Z -> result Response.
Variable query : string.
Variable params : list (string * string).

Hypothesis backoff_ok : 0 <= backoff_seconds self.

(** The events of the attempts [a, a+1, ..., max_retries] when all fail:
    [n] calls, a sleep of the configured length after each but the last, and
    the warning of the last attempt at the end. *)
Lemma attempts_all_fail (n : nat) :
  forall a,
    Z.of_nat n = max_retries self + 1 - a -> 1 <= a ->
    (forall k, a <= k <= max_retries self -> fails (network k) = true) ->
    exists tr,
      attempts self network query params (range a (max_retries self + 1)) = (tr, Exhausted)
      /\ attempts_made tr = Z.of_nat n
      /\ sleeps tr = repeat (backoff_seconds self) (Z.to_nat (max_retries self - a))
      /\ ((0 < n)%nat -> forall d, exists msg, last tr d = EWarning msg).
Proof.
  induction n as [|n IH]; intros a Hn Ha Hfail.
  - rewrite range_empty by lia. exists []. simpl.
    replace (Z.to_nat (max_retries self - a)) with 0%nat by lia.
    repeat split. intros H. inversion H.
  - rewrite range_cons by lia. simpl.
    pose proof (Hfail a ltac:(lia)) as Hf. unfold fails in Hf.
    destruct (try_body (network a)) as [body|e]; [discriminate Hf|].
    rewrite Hf.
    destruct (IH (a + 1) ltac:(lia) ltac:(lia)) as (tr & Htr & Hmade & Hsl & Hlast).
    { intros k Hk. apply Hfail. lia. }
    rewrite Htr.
    destruct (a <? max_retries self) eqn:Elt.
    + apply Z.ltb_lt in Elt.
      destruct (backoff_seconds self <? 0) eqn:Eb; [apply Z.ltb_lt in Eb; lia|].
      eexists. split; [reflexivity|]. split; [|split].
      * unfold attempts_made in *. simpl. lia.
      * simpl. rewrite Hsl.
        replace (Z.to_nat (max_retries self - a))
          with (S (Z.to_nat (max_retries self - (a + 1)))) by lia.
        reflexivity.
      * intros _ d. rewrite !last_cons_default. apply Hlast. lia.
    + apply Z.ltb_ge in Elt.
      assert (n = 0)%nat by lia. subst n.
      rewrite range_empty in Htr by lia. simpl in Htr. inversion Htr; subst tr.
      eexists. split; [reflexivity|]. split; [|split].
      * reflexivity.
      * replace (Z.to_nat (max_retries self - a)) with 0%nat by lia. reflexivity.
      * intros _ d. simpl. eexists. reflexivity.
Qed.

End AlwaysFailing.

(** The failures the client retries: an exception of [requests] raised by
    the call, or a response with a 4xx or 5xx status. *)
Lemma request_exception_fails (e : exn) :
  is_RequestException e = true -> fails (Raise e) = true.
Proof.
  intros H. unfold fails. simpl. exact H.
Qed.

Lemma error_status_fails (r : Response) :
  400 <= status_code r < 600 -> fails (OK r) = true.
Proof.
  intros H. unfold fails, try_body, raise_for_status. simpl.
  destruct (andb (400 <=? status_code r) (status_code r <? 500)) eqn:E4; [reflexivity|].
  assert (E5 : andb (500 <=? status_code r) (status_code r <? 600) = true).
  { apply andb_false_iff in E4. apply andb_true_iff.
    split; [apply Z.leb_le | apply Z.ltb_lt];
      destruct E4 as [E|E]; [apply Z.leb_gt in E | apply Z.ltb_ge in E | apply Z.leb_gt in E | apply Z.ltb_ge in E]; lia. }
  rewrite E5. reflexivity.
Qed.

(** C1, as the code has it. For every attempt limit N >= 1 and backoff >= 0,
    if every attempt fails by raising a [requests] exception (timeout, DNS
    or connection failure, or the [HTTPError] of a 4xx/5xx status), the fetch
    makes exactly N calls, sleeps exactly N-1 times, each time for exactly
    the configured backoff, ends on the warning of the last attempt (no
    sleep after it) and raises the terminal error naming "City,Country". *)
Theorem fetch_weather_exhausts :
  forall (self : OpenWeatherClient) (network : Z -> result Response) (city country : string),
    1 <= max_retries self ->
    0 <= backoff_seconds self ->
    (forall k, 1 <= k <= max_retries self -> fails (network k) = true) ->
    exists tr,
      fetch_weather self network city country
        = (tr, raise RuntimeError ("Failed to fetch data for " ++ city ++ "," ++ country))
      /\ attempts_made tr = max_retries self
      /\ sleeps tr = repeat (backoff_seconds self) (Z.to_nat (max_retries self - 1))
      /\ (forall d, exists msg, last tr d = EWarning msg).
Proof.
  intros self network city country HN Hb Hfail.
  unfold fetch_weather.
  destruct (attempts_all_fail self network (city ++ "," ++ country)
              [("q", city ++ "," ++ country); ("appid", api_key self); ("units", units self)]
              Hb (Z.to_nat (max_retries self)) 1 ltac:(lia) ltac:(lia) Hfail)
    as (tr & Htr & Hmade & Hsl & Hlast).
  rewrite Htr. exists tr. split; [reflexivity|]. split; [|split].
  - rewrite Hmade. lia.
  - exact Hsl.
  - apply Hlast. lia.
Qed.

Definition client3 : OpenWeatherClient := mkClient "https://api.example/weather" "k" "metric" 10 3 2.

Lemma fetch_weather_exhausts_witness :
  exists tr,
    fetch_weather client3 (fun _ => raise Timeout "timed out") "Lisbon" "PT"
      = (tr, raise RuntimeError ("Failed to fetch data for " ++ "Lisbon" ++ "," ++ "PT"))
    /\ attempts_made tr = 3
    /\ sleeps tr = repeat 2 (Z.to_nat (3 - 1))
    /\ (forall d, exists msg, last tr d = EWarning msg).
Proof.
  apply (fetch_weather_exhausts client3 (fun _ => raise Timeout "timed out") "Lisbon" "PT").
  - simpl. lia.
  - simpl. lia.
  - intros k _. reflexivity.
Defined.

(** A response with status 300 and a JSON body. *)
Definition multiple_choices : Response :=
  mkResponse 300 "Multiple Choices" "https://api.example/weather" (OK (JDict [])).

(** C1 as stated does not hold: a response with status 300 is outside
    200..299, yet [raise_for_status] accepts it and the body is returned on
    the first attempt, without a retry and without an error. *)
Lemma fetch_weather_non_2xx_returns :
  fails_as_specified (OK multiple_choices) = true
  /\ fetch_weather client3 (fun _ => OK multiple_choices) "Lisbon" "PT"
     = ([EGet "https://api.example/weather"
              [("q", "Lisbon,PT"); ("appid", "k"); ("units", "metric")] 10],
        OK (JDict [])).
Proof.
  split; reflexivity.
Qed.

(** ** Strings and paths *)

Import Storage.

Fixpoint no_sep (sep : ascii -> bool) (s : string) : bool :=
  match s with
  | EmptyString => true
  | String c r => andb (negb (sep c)) (no_sep sep r)
  end.

(** A string that is one path segment: not empty, not ["."], no slash. *)
Definition plain (s : string) : bool :=
  andb (no_sep is_slash s) (andb (negb (String.eqb s "")) (negb (String.eqb s "."))).

Lemma append_assoc (a b c : string) : (a ++ b) ++ c = a ++ (b ++ c).
Proof.
  induction a as [|x a IH]; simpl; [reflexivity | rewrite IH; reflexivity].
Qed.

Lemma append_nil_r (a : string) : a ++ "" = a.
Proof.
  induction a as [|x a IH]; simpl; [reflexivity | rewrite IH; reflexivity].
Qed.

Lemma no_sep_app (sep : ascii -> bool) (a b : string) :
  no_sep sep (a ++ b) = andb (no_sep sep a) (no_sep sep b).
Proof.
  induction a as [|x a IH]; simpl; [reflexivity|].
  rewrite IH. apply andb_assoc.
Qed.

Lemma pieces_app (sep : ascii -> bool) (a : string) :
  forall cur b, no_sep sep a = true -> pieces sep cur (a ++ b) = pieces sep (cur ++ a) b.
Proof.
  induction a as [|x a IH]; intros cur b H; simpl in *.
  - rewrite append_nil_r. reflexivity.
  - apply andb_true_iff in H. destruct H as [Hx Ha].
    apply negb_true_iff in Hx. rewrite Hx.
    rewrite IH by exact Ha. rewrite append_assoc. reflexivity.
Qed.

Lemma uint_no_slash (d : Decimal.uint) : no_sep is_slash (NilEmpty.string_of_uint d) = true.
Proof.
  induction d; simpl; auto.
Qed.

Lemma str_int_no_slash (z : Z) : no_sep is_slash (str_int z) = true.
Proof.
  unfold str_int, NilZero.string_of_int.
  destruct (Z.to_int z) as [d|d]; simpl.
  - unfold NilZero.string_of_uint. destruct d; try reflexivity; apply uint_no_slash.
  - unfold NilZero.string_of_uint. destruct d; try reflexivity; apply uint_no_slash.
Qed.

Lemma zeros_no_slash (n : nat) : no_sep is_slash (zeros n) = true.
Proof.
  induction n; simpl; auto.
Qed.

Lemma zfill_no_slash (w : nat) (z : Z) : no_sep is_slash (zfill w z) = true.
Proof.
  unfold zfill. rewrite no_sep_app, zeros_no_slash, str_int_no_slash. reflexivity.
Qed.

(** The segments of a parsed string. *)
Definition segments (s : string) : list string := parts (parse_path s).

Lemma plain_inv (a : string) :
  plain a = true ->
  no_sep is_slash a = true /\ a <> "" /\ a <> ".".
Proof.
  unfold plain. intros H.
  apply andb_true_iff in H. destruct H as [H1 H].
  apply andb_true_iff in H. destruct H as [H2 H3].
  apply negb_true_iff in H2, H3.
  apply String.eqb_neq in H2, H3. auto.
Qed.

Lemma pieces_at_sep (sep : ascii -> bool) (cur : string) (x : ascii) (rest : string) :
  sep x = true -> cur <> "" ->
  pieces sep cur (String x rest) = cur :: pieces sep "" rest.
Proof.
  intros Hx Hc. simpl. rewrite Hx. destruct cur; [congruence | reflexivity].
Qed.

Lemma pieces_at_end (sep : ascii -> bool) (cur : string) :
  cur <> "" -> pieces sep cur "" = [cur].
Proof.
  intros Hc. simpl. destruct cur; [congruence | reflexivity].
Qed.

Lemma keep_segment (a : string) (l : list string) :
  a <> "." ->
  filter (fun seg => negb (String.eqb seg ".")) (a :: l)
  = a :: filter (fun seg => negb (String.eqb seg ".")) l.
Proof.
  intros H. apply String.eqb_neq in H.
  change (filter (fun seg => negb (String.eqb seg ".")) (a :: l))
    with (if negb (String.eqb a ".")
          then a :: filter (fun seg => negb (String.eqb seg ".")) l
          else filter (fun seg => negb (String.eqb seg ".")) l).
  rewrite H. reflexivity.
Qed.

Lemma segments_cons (a rest : string) :
  plain a = true -> segments (a ++ String "/" rest) = a :: segments rest.
Proof.
  intros H. apply plain_inv in H. destruct H as (Hs & Hne & Hdot).
  unfold segments, parse_path, parts.
  rewrite pieces_app by exact Hs.
  change ("" ++ a) with a.
  rewrite pieces_at_sep by (reflexivity || exact Hne).
  apply keep_segment. exact Hdot.
Qed.

Lemma segments_one (a : string) : plain a = true -> segments a = [a].
Proof.
  intros H. apply plain_inv in H. destruct H as (Hs & Hne & Hdot).
  unfold segments, parse_path, parts.
  rewrite <- (append_nil_r a) at 1.
  rewrite pieces_app by exact Hs.
  change ("" ++ a) with a.
  rewrite pieces_at_end by exact Hne.
  apply keep_segment. exact Hdot.
Qed.

Lemma root_of_plain (a rest : string) : plain a = true -> root_of (a ++ rest) = "".
Proof.
  intros H. apply plain_inv in H. destruct H as (Hs & Hne & _).
  destruct a as [|c a]; [congruence|]. simpl in *.
  apply andb_true_iff in Hs. destruct Hs as [Hc _].
  apply negb_true_iff in Hc. unfold is_slash in Hc.
  apply Ascii.eqb_neq in Hc.
  destruct c as [[] [] [] [] [] [] [] []]; try reflexivity. congruence.
Qed.

Lemma joinpath_relative (p : Path) (s : string) :
  root_of s = "" -> joinpath p s = mkPath (root p) (parts p ++ segments s)%list.
Proof.
  intros H. unfold joinpath, segments, parse_path. simpl. rewrite H. reflexivity.
Qed.

Lemma path_eqb_eq (p q : Path) : path_eqb p q = true <-> p = q.
Proof.
  unfold path_eqb, list_eqb. destruct p as [r1 l1], q as [r2 l2]. simpl.
  destruct (list_eq_dec string_dec l1 l2) as [E|E].
  - rewrite andb_true_r, String.eqb_eq. split; intros H; [subst; reflexivity | congruence].
  - rewrite andb_false_r. split; intros H; [discriminate | congruence].
Qed.

Lemma path_eqb_refl (p : Path) : path_eqb p p = true.
Proof. apply path_eqb_eq. reflexivity. Qed.

Lemma path_eqb_neq (p q : Path) : path_eqb p q = false <-> p <> q.
Proof.
  split; intros H.
  - intros E. apply path_eqb_eq in E. congruence.
  - destruct (path_eqb p q) eqn:E; [apply path_eqb_eq in E; congruence | reflexivity].
Qed.

(** ** The file system under the writer *)

(** Every file lies more than [n] segments deep and every directory at most
    [n]: no directory of the output tree is in the way of a file and no file
    in the way of a directory. *)
Definition fits (n : nat) (fs : FS) : bool :=
  andb (forallb (fun e => Nat.ltb n (List.length (parts (fst e)))) (files fs))
       (forallb (fun q => Nat.leb (List.length (parts q)) n) (dirs fs)).

Lemma fits_inv (n : nat) (fs : FS) :
  fits n fs = true <->
  (forall q f, In (q, f) (files fs) -> (n < List.length (parts q))%nat)
  /\ (forall q, In q (dirs fs) -> (List.length (parts q) <= n)%nat).
Proof.
  unfold fits. rewrite andb_true_iff, !forallb_forall. split.
  - intros [Hf Hd]. split.
    + intros q f Hin. apply Nat.ltb_lt. apply (Hf (q, f) Hin).
    + intros q Hin. apply Nat.leb_le. apply (Hd q Hin).
  - intros [Hf Hd]. split.
    + intros [q f] Hin. apply Nat.ltb_lt. simpl. apply (Hf q f Hin).
    + intros q Hin. apply Nat.leb_le. apply (Hd q Hin).
Qed.

Lemma read_file_In (l : list (Path * file)) (p : Path) (f : file) :
  read_file l p = Some f -> In (p, f) l.
Proof.
  induction l as [|[q g] l IH]; simpl; [discriminate|].
  destruct (path_eqb p q) eqn:E.
  - intros H. inversion H; subst. apply path_eqb_eq in E. subst. left. reflexivity.
  - intros H. right. apply IH. exact H.
Qed.

Lemma read_file_removed (l : list (Path * file)) (p q : Path) :
  path_eqb q p = false ->
  read_file (filter (fun e => negb (path_eqb p (fst e))) l) q = read_file l q.
Proof.
  intros Hqp. induction l as [|[q' g] l IH]; simpl; [reflexivity|].
  destruct (path_eqb p q') eqn:E; simpl.
  - apply path_eqb_eq in E. subst q'. rewrite Hqp. exact IH.
  - rewrite IH. reflexivity.
Qed.

Definition add_dir (ds : list Path) (a : Path) : list Path :=
  if existsb (path_eqb a) ds then ds else (ds ++ [a])%list.

Lemma add_dirs_In (l ds : list Path) (q : Path) :
  In q (fold_left add_dir l ds) <-> In q ds \/ In q l.
Proof.
  revert ds. induction l as [|a l IH]; intros ds; simpl.
  - tauto.
  - rewrite IH. unfold add_dir. destruct (existsb (path_eqb a) ds) eqn:E.
    + apply existsb_exists in E. destruct E as (x & Hx & Hax).
      apply path_eqb_eq in Hax. subst x.
      split; [tauto|]. intros [H|[H|H]]; subst; tauto.
    + rewrite in_app_iff. simpl. tauto.
Qed.

Lemma ancestors_length (p q : Path) :
  In q (ancestors p) -> (List.length (parts q) <= List.length (parts p))%nat.
Proof.
  unfold ancestors. intros H. apply in_map_iff in H.
  destruct H as (n & Hq & _). subst q. simpl. rewrite length_firstn. lia.
Qed.

Lemma ancestors_self (p : Path) : parts p <> [] -> In p (ancestors p).
Proof.
  intros H. unfold ancestors. apply in_map_iff.
  exists (List.length (parts p)). split.
  - rewrite firstn_all. destruct p; reflexivity.
  - apply in_seq. destruct (parts p); [congruence | simpl; lia].
Qed.

(** The file system after [d] was made and [f] was stored at [p]. *)
Definition put (d p : Path) (f : file) (fs : FS) : FS :=
  mkFS (fold_left add_dir (ancestors d) (dirs fs))
       ((p, f) :: filter (fun e => negb (path_eqb p (fst e))) (files fs)).

Lemma read_file_put (d p : Path) (f : file) (fs : FS) (q : Path) :
  read_file (files (put d p f fs)) q
  = if path_eqb q p then Some f else read_file (files fs) q.
Proof.
  simpl. destruct (path_eqb q p) eqn:E; [reflexivity|].
  apply read_file_removed. exact E.
Qed.

Definition supported_format (fmt : string) : bool :=
  orb (String.eqb fmt "parquet") (orb (String.eqb fmt "csv") (String.eqb fmt "json")).

(** Making the directory of a group and saving the group, in a file system
    that fits: both succeed, and the file system still fits. *)
Lemma mkdir_then_save (self : Storage) (n : nat) (d : Path) (name : string)
      (rows : DataFrame) (fs : FS) :
  supported_format (fmt self) = true ->
  fits n fs = true ->
  List.length (parts d) = n ->
  plain name = true ->
  let p := joinpath d name in
  (mkdir d ;;; _save self rows p) fs = (put d p (mkFile (fmt self) rows) fs, OK tt)
  /\ fits n (put d p (mkFile (fmt self) rows) fs) = true
  /\ p = mkPath (root d) (parts d ++ [name])%list.
Proof.
  intros Hfmt Hfits Hlen Hname p.
  assert (Hp : p = mkPath (root d) (parts d ++ [name])%list).
  { unfold p. rewrite joinpath_relative.
    - rewrite segments_one by exact Hname. reflexivity.
    - rewrite <- (append_nil_r name). apply root_of_plain. exact Hname. }
  apply fits_inv in Hfits. destruct Hfits as [Hfiles Hdirs].
  assert (Hmk : existsb (is_file fs) (ancestors d) = false).
  { destruct (existsb (is_file fs) (ancestors d)) eqn:E; [|reflexivity].
    apply existsb_exists in E. destruct E as (a & Ha & Hfile).
    unfold is_file in Hfile.
    destruct (read_file (files fs) a) as [g|] eqn:Hr; [|discriminate].
    apply read_file_In in Hr. apply Hfiles in Hr.
    apply ancestors_length in Ha. lia. }
  assert (Hfits' : fits n (put d p (mkFile (fmt self) rows) fs) = true).
  { apply fits_inv. split.
    - intros q g [Hq|Hq].
      + inversion Hq; subst q. rewrite Hp. simpl. rewrite length_app. simpl. lia.
      + apply filter_In in Hq. destruct Hq as [Hq _]. apply (Hfiles q g Hq).
    - intros q Hq. simpl in Hq. apply add_dirs_In in Hq. destruct Hq as [Hq|Hq].
      + apply Hdirs. exact Hq.
      + apply ancestors_length in Hq. lia. }
  split; [|split; [exact Hfits' | exact Hp]].
  unfold bindM, mkdir. rewrite Hmk.
  change (fold_left (fun ds a => if existsb (path_eqb a) ds then ds else (ds ++ [a])%list)
                    (ancestors d) (dirs fs))
    with (fold_left add_dir (ancestors d) (dirs fs)).
  set (fs1 := mkFS (fold_left add_dir (ancestors d) (dirs fs)) (files fs)).
  assert (Hsave : write_file (fmt self) rows p fs1
                  = (put d p (mkFile (fmt self) rows) fs, OK tt)).
  { unfold write_file.
    assert (Hparent : is_dir fs1 (parent p) = true).
    { rewrite Hp. unfold parent. simpl. rewrite removelast_last.
      unfold is_dir. simpl. destruct (parts d) as [|s l] eqn:Ed; [reflexivity|].
      apply existsb_exists. exists d. split.
      - apply add_dirs_In. right. apply ancestors_self. congruence.
      - rewrite <- Ed. destruct d. apply path_eqb_refl. }
    assert (Hnot : is_dir fs1 p = false).
    { unfold is_dir. rewrite Hp. simpl.
      destruct (parts d ++ [name])%list eqn:El; [destruct (parts d); discriminate|].
      rewrite <- El.
      destruct (existsb _ (fold_left add_dir (ancestors d) (dirs fs))) eqn:E; [|reflexivity].
      apply existsb_exists in E. destruct E as (q & Hq & Heq).
      apply path_eqb_eq in Heq. subst q.
      apply add_dirs_In in Hq.
      assert (List.length (parts d ++ [name])%list <= n)%nat.
      { destruct Hq as [Hq|Hq].
        - apply Hdirs in Hq. exact Hq.
        - apply ancestors_length in Hq. simpl in Hq. lia. }
      rewrite length_app in H. simpl in H. lia. }
    rewrite Hparent, Hnot. reflexivity. }
  unfold _save. unfold supported_format in Hfmt.
  destruct (String.eqb (fmt self) "parquet"); [exact Hsave|].
  destruct (String.eqb (fmt self) "csv"); [exact Hsave|].
  destruct (String.eqb (fmt self) "json"); [exact Hsave | discriminate Hfmt].
Qed.

Lemma find_append {A : Type} (P : A -> bool) (l1 l2 : list A) :
  find P (l1 ++ l2)%list = match find P l1 with
                           | Some x => Some x
                           | None => find P l2
                           end.
Proof.
  induction l1 as [|x l1 IH]; simpl; [reflexivity|].
  destruct (P x); [reflexivity | exact IH].
Qed.

(** A loop whose every turn stores one file. *)
Lemma for_each_puts {A : Type} (n : nat) (body : A -> M unit)
      (dir path : A -> Path) (content : A -> file) (l : list A) :
  (forall x fs, In x l -> fits n fs = true ->
     body x fs = (put (dir x) (path x) (content x) fs, OK tt)
     /\ fits n (put (dir x) (path x) (content x) fs) = true) ->
  forall fs, fits n fs = true ->
    exists fs',
      for_each l body fs = (fs', OK tt)
      /\ fits n fs' = true
      /\ forall q, read_file (files fs') q
                   = match find (fun x => path_eqb q (path x)) (rev l) with
                     | Some x => Some (content x)
                     | None => read_file (files fs) q
                     end.
Proof.
  induction l as [|x l IH]; intros Hbody fs Hfits.
  - exists fs. simpl. auto.
  - destruct (Hbody x fs (or_introl eq_refl) Hfits) as [Hx Hfits1].
    destruct (IH (fun y fs0 Hy => Hbody y fs0 (or_intror Hy)) _ Hfits1)
      as (fs' & Hrun & Hfits' & Hread).
    exists fs'. split; [|split].
    + simpl. unfold bindM. rewrite Hx. exact Hrun.
    + exact Hfits'.
    + intros q. rewrite Hread. simpl rev. rewrite find_append.
      destruct (find (fun y => path_eqb q (path y)) (rev l)); [reflexivity|].
      rewrite read_file_put. simpl. destruct (path_eqb q (path x)); reflexivity.
Qed.

(** ** Timestamps written and read back *)

Lemma read_digits_app (k : nat) :
  forall acc s v r rest,
    read_digits k acc s = Some (v, r) ->
    read_digits k acc (s ++ rest) = Some (v, r ++ rest).
Proof.
  induction k as [|k IH]; intros acc s v r rest H; simpl in *.
  - inversion H; subst. reflexivity.
  - destruct s as [|c s]; [discriminate|]. simpl.
    destruct (digit_of c); [|discriminate].
    apply IH. exact H.
Qed.

Definition reads_back (w : nat) (n : Z) : bool :=
  match read_digits w 0 (zfill w n) with
  | Some (v, EmptyString) => v =? n
  | _ => false
  end.

Lemma reads_back_2 : forall n, 0 <= n < 100 -> reads_back 2 n = true.
Proof.
  intros n H.
  apply (forallb_range (reads_back 2) 0 (Z.to_nat 100)); [vm_compute; reflexivity | lia].
Qed.

Lemma reads_back_4 : forall n, 0 <= n < 10000 -> reads_back 4 n = true.
Proof.
  intros n H.
  apply (forallb_range (reads_back 4) 0 (Z.to_nat 10000)); [vm_compute; reflexivity | lia].
Qed.

Lemma read_zfill (w : nat) (n : Z) (rest : string) :
  reads_back w n = true -> read_digits w 0 (zfill w n ++ rest) = Some (n, rest).
Proof.
  unfold reads_back. intros H.
  destruct (read_digits w 0 (zfill w n)) as [[v r]|] eqn:E; [|discriminate].
  destruct r; [|discriminate].
  apply Z.eqb_eq in H. subst v.
  apply (read_digits_app w 0 (zfill w n) n "" rest). exact E.
Qed.

(** The value [pd.to_datetime] holds: no microseconds, no time zone. *)
Definition naive (d : datetime) : datetime :=
  mkdatetime (year d) (month d) (day d) (hour d) (minute d) (second d) 0 None.

Lemma valid_datetime_bounds (d : datetime) :
  valid_datetime d = true ->
  0 <= year d < 10000 /\ 0 <= month d < 100 /\ 0 <= day d < 100
  /\ 0 <= hour d < 100 /\ 0 <= minute d < 100 /\ 0 <= second d < 100.
Proof.
  unfold valid_datetime, days_in_month. intros H.
  repeat (apply andb_true_iff in H; destruct H as [? H]).
  repeat match goal with
         | H : andb _ _ = true |- _ => apply andb_true_iff in H; destruct H
         end.
  repeat match goal with
         | H : (_ <=? _) = true |- _ => apply Z.leb_le in H
         | H : (_ <? _) = true |- _ => apply Z.ltb_lt in H
         end.
  destruct (month d =? 2); [destruct (is_leap (year d))|];
    [| | destruct (orb (orb (month d =? 4) (month d =? 6)) (orb (month d =? 9) (month d =? 11)))];
    lia.
Qed.

Lemma strptime_strftime (d : datetime) :
  valid_datetime d = true -> strptime_dmy_hms (strftime_dmy_hms d) = Some (naive d).
Proof.
  intros H. apply valid_datetime_bounds in H.
  destruct H as (Hy & Hm & Hd & Hh & Hmi & Hs).
  unfold strptime_dmy_hms, strftime_dmy_hms.
  rewrite (read_zfill 2 (day d)) by (apply reads_back_2; lia).
  change (expect "-" ("-" ++ ?x)) with (Some x).
  cbn [expect append Ascii.eqb Bool.eqb].
  rewrite (read_zfill 2 (month d)) by (apply reads_back_2; lia).
  cbn [expect append Ascii.eqb Bool.eqb].
  rewrite (read_zfill 4 (year d)) by (apply reads_back_4; lia).
  cbn [expect append Ascii.eqb Bool.eqb].
  rewrite (read_zfill 2 (hour d)) by (apply reads_back_2; lia).
  cbn [expect append Ascii.eqb Bool.eqb].
  rewrite (read_zfill 2 (minute d)) by (apply reads_back_2; lia).
  cbn [expect append Ascii.eqb Bool.eqb].
  rewrite <- (append_nil_r (zfill 2 (second d))).
  rewrite (read_zfill 2 (second d)) by (apply reads_back_2; lia).
  reflexivity.
Qed.

(** A valid timestamp that fits the nanosecond range is read back as
    written; outside the range it becomes NaT. *)
Definition parseable_datetime (d : datetime) : bool :=
  andb (valid_datetime d) (in_ns_bounds d).

Lemma to_datetime_strftime (d : datetime) :
  valid_datetime d = true ->
  to_datetime (CStr (strftime_dmy_hms d))
  = if in_ns_bounds d then CTimestamp (naive d) else CNaT.
Proof.
  intros H. unfold to_datetime. rewrite strptime_strftime by exact H.
  change (valid_datetime (naive d)) with (valid_datetime d).
  change (in_ns_bounds (naive d)) with (in_ns_bounds d).
  rewrite H. reflexivity.
Qed.

(** ** Rows of the frame *)

Definition not_ts (e : string * cell) : bool := negb (String.eqb (fst e) "_ts").

(** The row of the frame built from the dict [d], after [_ts] was added. *)
Definition frame_row (cols : list string) (d : dict) : dict :=
  let row := map (fun c => (c, cell_or_nan (get c d))) cols in
  (filter not_ts row ++ [("_ts", to_datetime (cell_or_nan (get "Timestamp" row)))])%list.

Lemma assign_ts_frame (data : list dict) :
  assign_ts (mkDataFrame data) = map (frame_row (columns_of data)) data.
Proof.
  unfold assign_ts, mkDataFrame. rewrite map_map. reflexivity.
Qed.

Lemma get_app (c : string) (l1 l2 : dict) :
  get c (l1 ++ l2)%list = match get c l1 with
                          | Some v => Some v
                          | None => get c l2
                          end.
Proof.
  induction l1 as [|[k v] l1 IH]; simpl; [reflexivity|].
  destruct (String.eqb c k); [reflexivity | exact IH].
Qed.

Lemma get_not_ts (c : string) (row : dict) :
  get c (filter not_ts row) = if String.eqb c "_ts" then None else get c row.
Proof.
  induction row as [|[k v] row IH]; simpl.
  - destruct (String.eqb c "_ts"); reflexivity.
  - unfold not_ts at 1. simpl. destruct (String.eqb k "_ts") eqn:Ek; simpl.
    + apply String.eqb_eq in Ek. subst k. rewrite IH.
      destruct (String.eqb c "_ts"); reflexivity.
    + rewrite IH. destruct (String.eqb c k) eqn:Eck; [|reflexivity].
      apply String.eqb_eq in Eck. subst k. rewrite Ek. reflexivity.
Qed.

Lemma get_columns (f : string -> cell) (c : string) (cols : list string) :
  In c cols -> get c (map (fun k => (k, f k)) cols) = Some (f c).
Proof.
  induction cols as [|k cols IH]; intros H; [destruct H|].
  simpl. destruct (String.eqb c k) eqn:E.
  - apply String.eqb_eq in E. subst k. reflexivity.
  - apply IH. destruct H as [H|H]; [|exact H].
    subst k. rewrite String.eqb_refl in E. discriminate.
Qed.

Lemma frame_row_get (cols : list string) (d : dict) (c : string) :
  In c cols -> String.eqb c "_ts" = false ->
  get c (frame_row cols d) = Some (cell_or_nan (get c d)).
Proof.
  intros Hin Hc. unfold frame_row.
  rewrite get_app, get_not_ts, Hc, (get_columns (fun k => cell_or_nan (get k d))) by exact Hin.
  reflexivity.
Qed.

Lemma frame_row_ts (cols : list string) (d : dict) :
  In "Timestamp" cols ->
  get "_ts" (frame_row cols d) = Some (to_datetime (cell_or_nan (get "Timestamp" d))).
Proof.
  intros Hin. unfold frame_row.
  rewrite get_app, get_not_ts.
  rewrite (get_columns (fun k => cell_or_nan (get k d)) "Timestamp") by exact Hin.
  reflexivity.
Qed.

Lemma add_columns_In (keys cols : list string) (k : string) :
  In k (add_columns cols keys) <-> In k cols \/ In k keys.
Proof.
  revert cols. induction keys as [|x keys IH]; intros cols; simpl.
  - tauto.
  - rewrite IH. destruct (existsb (String.eqb x) cols) eqn:E.
    + apply existsb_exists in E. destruct E as (y & Hy & Hxy).
      apply String.eqb_eq in Hxy. subst y.
      split; [tauto|]. intros [H|[H|H]]; subst; tauto.
    + rewrite in_app_iff. simpl. tauto.
Qed.

Lemma columns_of_In (data : list dict) (d : dict) (k : string) :
  In d data -> In k (map fst d) -> In k (columns_of data).
Proof.
  unfold columns_of.
  assert (G : forall (data : list dict) (cols : list string),
             (In k cols \/ exists d : dict, In d data /\ In k (map fst d)) ->
             In k (fold_left (fun cols d => add_columns cols (map fst d)) data cols)).
  { clear. induction data as [|x data IH]; intros cols H; simpl.
    - destruct H as [H|(d & [] & _)]. exact H.
    - apply IH. destruct H as [H|(d & [Hd|Hd] & Hk)].
      + left. apply add_columns_In. left. exact H.
      + subst x. left. apply add_columns_In. right. exact Hk.
      + right. exists d. split; assumption. }
  intros Hd Hk. apply G. right. exists d. split; assumption.
Qed.

Lemma filter_map_swap {A B : Type} (f : A -> B) (P : B -> bool) (l : list A) :
  filter P (map f l) = map f (filter (fun x => P (f x)) l).
Proof.
  induction l as [|x l IH]; simpl; [reflexivity|].
  destruct (P (f x)); simpl; rewrite IH; reflexivity.
Qed.

(** ** Records that can be stored *)

Lemma to_int_not_nil (z : Z) :
  Z.to_int z <> Decimal.Pos Decimal.Nil /\ Z.to_int z <> Decimal.Neg Decimal.Nil.
Proof.
  destruct z; simpl; split; try discriminate.
  - intros H. inversion H as [H1]. revert H1. apply Unsigned.to_uint_nonnil.
  - intros H. inversion H as [H1]. revert H1. apply Unsigned.to_uint_nonnil.
Qed.

Lemma str_int_inj (a b : Z) : str_int a = str_int b -> a = b.
Proof.
  unfold str_int. intros H. apply DecimalZ.to_int_inj.
  destruct (to_int_not_nil a) as [Ha1 Ha2].
  destruct (to_int_not_nil b) as [Hb1 Hb2].
  pose proof (NilZero.isi _ Ha1 Ha2) as Ea.
  pose proof (NilZero.isi _ Hb1 Hb2) as Eb.
  rewrite H in Ea. congruence.
Qed.

Definition formats (r : WeatherRecord) : bool :=
  match formatted_record r with
  | OK _ => true
  | Raise _ => false
  end.

Definition dict_of (r : WeatherRecord) : dict :=
  match formatted_record r with
  | OK d => d
  | Raise _ => []
  end.

Lemma formatted_records_all (records : list WeatherRecord) :
  forallb formats records = true ->
  formatted_records records = OK (map dict_of records).
Proof.
  induction records as [|r records IH]; simpl; [reflexivity|].
  intros H. apply andb_true_iff in H. destruct H as [Hr Hrest].
  unfold formats, dict_of in *.
  destruct (formatted_record r) as [d|e]; [|discriminate].
  simpl. rewrite IH by exact Hrest. reflexivity.
Qed.

(** What a formatted record holds in the columns the writer reads. *)
Lemma formatted_record_cells (r : WeatherRecord) (d : dict) :
  formatted_record r = OK d ->
  exists dt,
    timestamp r = Some dt
    /\ get "City" d = Some (cell_of CStr (city r))
    /\ get "Country" d = Some (cell_of CStr (country r))
    /\ get "Timestamp" d = Some (CStr (strftime_dmy_hms dt))
    /\ In "City" (map fst d) /\ In "Country" (map fst d) /\ In "Timestamp" (map fst d).
Proof.
  unfold formatted_record. intros H.
  apply bind_OK in H. destruct H as (ts & Hts & H).
  repeat (apply bind_OK in H; destruct H as (? & _ & H)).
  inversion H; subst d; clear H.
  unfold format_datetime in Hts.
  destruct (timestamp r) as [dt|]; [|discriminate].
  inversion Hts; subst ts.
  exists dt. repeat split; simpl; auto.
Qed.

(** A record the writer can take: it formats, its timestamp is a real date
    and time, its city and country are single path segments. *)
Definition storable (r : WeatherRecord) : bool :=
  andb (formats r)
       (andb (match timestamp r with Some dt => valid_datetime dt | None => false end)
             (andb (match city r with Some n => plain n | None => false end)
                   (match country r with Some c => plain c | None => false end))).

(** The observation timestamp survives [pd.to_datetime]. *)
Definition parseable (r : WeatherRecord) : bool :=
  match timestamp r with
  | Some dt => andb (valid_datetime dt) (in_ns_bounds dt)
  | None => false
  end.

Definition obs_date (r : WeatherRecord) : date :=
  match timestamp r with
  | Some dt => (year dt, month dt, day dt)
  | None => (0, 0, 0)
  end.

Definition city_of (r : WeatherRecord) : string :=
  match city r with Some n => n | None => "None" end.

Definition country_of (r : WeatherRecord) : string :=
  match country r with Some c => c | None => "None" end.

Lemma storable_inv (r : WeatherRecord) :
  storable r = true ->
  exists d dt,
    formatted_record r = OK d /\ dict_of r = d
    /\ timestamp r = Some dt /\ valid_datetime dt = true
    /\ city r = Some (city_of r) /\ plain (city_of r) = true
    /\ country r = Some (country_of r) /\ plain (country_of r) = true.
Proof.
  unfold storable, formats, dict_of, city_of, country_of. intros H.
  apply andb_true_iff in H. destruct H as [Hf H].
  apply andb_true_iff in H. destruct H as [Ht H].
  apply andb_true_iff in H. destruct H as [Hc Hk].
  destruct (formatted_record r) as [d|e]; [|discriminate].
  destruct (timestamp r) as [dt|]; [|discriminate].
  destruct (city r) as [n|]; [|discriminate].
  destruct (country r) as [c|]; [|discriminate].
  exists d, dt. repeat split; assumption.
Qed.

Section Frame.

Variable records : list WeatherRecord.
Hypothesis all_storable : forallb storable records = true.

Let cols : list string := columns_of (map dict_of records).

(** The row of a record in the frame of the batch. *)
Definition row_in (r : WeatherRecord) : dict := frame_row cols (dict_of r).

Lemma storable_in (r : WeatherRecord) : In r records -> storable r = true.
Proof.
  intros H. rewrite forallb_forall in all_storable. apply all_storable. exact H.
Qed.

Lemma all_format : forallb formats records = true.
Proof.
  apply forallb_forall. intros r Hr. apply storable_in in Hr.
  unfold storable in Hr. apply andb_true_iff in Hr. tauto.
Qed.

Lemma row_cells (r : WeatherRecord) :
  In r records ->
  get "City" (row_in r) = Some (CStr (city_of r))
  /\ get "Country" (row_in r) = Some (CStr (country_of r))
  /\ get "_ts" (row_in r)
     = Some (if parseable r
             then CTimestamp (match timestamp r with Some dt => naive dt | None => naive (mkdatetime 0 0 0 0 0 0 0 None) end)
             else CNaT).
Proof.
  intros Hin.
  destruct (storable_inv r (storable_in r Hin))
    as (d & dt & Hd & Hdict & Hts & Hvalid & Hcity & _ & Hcountry & _).
  destruct (formatted_record_cells r d Hd)
    as (dt' & Hts' & Hgc & Hgk & Hgt & Hic & Hik & Hit).
  assert (dt' = dt) by congruence. subst dt'.
  assert (Hcols : forall k, In k (map fst d) -> In k cols).
  { intros k Hk. apply (columns_of_In (map dict_of records) d k); [|exact Hk].
    apply in_map_iff. exists r. split; assumption. }
  unfold row_in. rewrite Hdict.
  rewrite !frame_row_get by (auto || reflexivity).
  rewrite frame_row_ts by auto.
  rewrite Hgc, Hgk, Hgt, Hcity, Hcountry. cbn [cell_or_nan cell_of].
  rewrite to_datetime_strftime by exact Hvalid.
  unfold parseable. rewrite Hts, Hvalid. cbn [andb].
  repeat split.
Qed.

Lemma row_ts_date (r : WeatherRecord) :
  In r records -> parseable r = true -> ts_date (row_in r) = Some (obs_date r).
Proof.
  intros Hin Hp. destruct (row_cells r Hin) as (_ & _ & Hts).
  unfold ts_date. rewrite Hts, Hp. unfold obs_date.
  unfold parseable in Hp. destruct (timestamp r); [reflexivity | discriminate].
Qed.

Lemma row_kept (r : WeatherRecord) :
  In r records ->
  negb (is_null (cell_or_nan (get "_ts" (row_in r)))) = parseable r.
Proof.
  intros Hin. destruct (row_cells r Hin) as (_ & _ & Hts).
  rewrite Hts. destruct (parseable r); reflexivity.
Qed.

(** The frame the writer groups: the rows of the parseable records. *)
Lemma frame_of_batch :
  dropna_ts (assign_ts (mkDataFrame (map dict_of records)))
  = map row_in (filter parseable records).
Proof.
  rewrite assign_ts_frame. unfold dropna_ts.
  rewrite map_map. fold cols.
  change (map (fun r => frame_row cols (dict_of r)) records) with (map row_in records).
  rewrite filter_map_swap. f_equal.
  apply filter_ext_in. intros r Hr. apply row_kept. exact Hr.
Qed.

End Frame.

(** ** Grouping *)

Section GroupByFacts.

Context {K : Type}.
Variable compare : K -> K -> comparison.
Variable key : dict -> option K.
Hypothesis compare_eq : forall a b, compare a b = Eq <-> a = b.

Lemma key_is_true (k : K) (row : dict) : key_is compare key k row = true <-> key row = Some k.
Proof.
  unfold key_is. destruct (key row) as [k'|].
  - destruct (compare k k') eqn:E.
    + apply compare_eq in E. subst. tauto.
    + split; [discriminate|]. intros H. inversion H; subst.
      assert (compare k k = Eq) by (apply compare_eq; reflexivity). congruence.
    + split; [discriminate|]. intros H. inversion H; subst.
      assert (compare k k = Eq) by (apply compare_eq; reflexivity). congruence.
  - split; discriminate.
Qed.

Lemma insert_key_In (k x : K) (l : list K) :
  In x (insert_key compare k l) <-> x = k \/ In x l.
Proof.
  induction l as [|h l IH]; simpl.
  - split; intros [H|H]; auto.
  - destruct (compare k h) eqn:E; simpl.
    + apply compare_eq in E. subst h. split; [tauto|]. intros [H|[H|H]]; subst; auto.
    + split; intros H; [destruct H as [H|[H|H]] | destruct H as [H|[H|H]]]; subst; auto.
    + rewrite IH. split; intros H; [destruct H as [H|[H|H]] | destruct H as [H|[H|H]]]; subst; auto.
Qed.

Lemma sorted_keys_In (k : K) (df : DataFrame) :
  In k (sorted_keys compare key df) <-> exists row, In row df /\ key row = Some k.
Proof.
  induction df as [|row df IH]; simpl.
  - split; [tauto | intros (row & [] & _)].
  - destruct (key row) as [k'|] eqn:E.
    + rewrite insert_key_In, IH. split.
      * intros [H|(row' & Hin & Hk)].
        -- subst k'. exists row. auto.
        -- exists row'. auto.
      * intros (row' & [Hin|Hin] & Hk).
        -- subst row'. left. congruence.
        -- right. exists row'. auto.
    + rewrite IH. split.
      * intros (row' & Hin & Hk). exists row'. auto.
      * intros (row' & [Hin|Hin] & Hk).
        -- subst row'. congruence.
        -- exists row'. auto.
Qed.

End GroupByFacts.

Lemma date_compare_eq (a b : date) : date_compare a b = Eq <-> a = b.
Proof.
  destruct a as [[y1 m1] d1], b as [[y2 m2] d2]. unfold date_compare.
  destruct (Z.compare y1 y2) eqn:Ey;
    [apply Z.compare_eq_iff in Ey; subst
    | split; [discriminate | intros H; inversion H; subst; rewrite Z.compare_refl in Ey; discriminate]
    | split; [discriminate | intros H; inversion H; subst; rewrite Z.compare_refl in Ey; discriminate]].
  destruct (Z.compare m1 m2) eqn:Em;
    [apply Z.compare_eq_iff in Em; subst
    | split; [discriminate | intros H; inversion H; subst; rewrite Z.compare_refl in Em; discriminate]
    | split; [discriminate | intros H; inversion H; subst; rewrite Z.compare_refl in Em; discriminate]].
  rewrite Z.compare_eq_iff. split; intros H; [subst; reflexivity | inversion H; reflexivity].
Qed.

Lemma pair_compare_eq {A B : Type} (ca : A -> A -> comparison) (cb : B -> B -> comparison) :
  (forall a b, ca a b = Eq <-> a = b) ->
  (forall a b, cb a b = Eq <-> a = b) ->
  forall x y, pair_compare ca cb x y = Eq <-> x = y.
Proof.
  intros Ha Hb [a1 b1] [a2 b2]. unfold pair_compare. simpl.
  destruct (ca a1 a2) eqn:E.
  - apply Ha in E. subst. rewrite Hb. split; intros H; [subst; reflexivity | inversion H; reflexivity].
  - split; [discriminate|]. intros H. inversion H; subst.
    assert (ca a2 a2 = Eq) by (apply Ha; reflexivity). congruence.
  - split; [discriminate|]. intros H. inversion H; subst.
    assert (ca a2 a2 = Eq) by (apply Ha; reflexivity). congruence.
Qed.

(** ** The loops of the writer *)

Lemma find_rev_some {A : Type} (P : A -> bool) (l : list A) (x : A) :
  find P (rev l) = Some x -> In x l /\ P x = true.
Proof.
  intros H. apply find_some in H. destruct H as [Hin HP].
  split; [apply in_rev; exact Hin | exact HP].
Qed.

Lemma find_rev_none {A : Type} (P : A -> bool) (l : list A) :
  find P (rev l) = None -> forall x, In x l -> P x = false.
Proof.
  intros H x Hin. apply (find_none P (rev l) H). apply in_rev in Hin. exact Hin.
Qed.

Section Grouped.

Context {K : Type}.
Variable compare : K -> K -> comparison.
Variable key : dict -> option K.

Variable self : Storage.
Hypothesis fmt_ok : supported_format (fmt self) = true.
Variable n : nat.

Variable body : K * DataFrame -> M unit.
Variable tdir : K -> Path.
Variable fname : K -> string.
Hypothesis body_eq :
  forall k g, body (k, g)
              = (mkdir (tdir k) ;;; _save self (drop_ts g) (joinpath (tdir k) (fname k))).

Variable df : DataFrame.

Let keys : list K := sorted_keys compare key df.
Let tpath (k : K) : Path := joinpath (tdir k) (fname k).

Hypothesis shape :
  forall k, In k keys -> List.length (parts (tdir k)) = n /\ plain (fname k) = true.
Hypothesis tpath_inj :
  forall k k', In k keys -> In k' keys -> tpath k = tpath k' -> k = k'.

(** The loop over the groups: every group is stored in its own file, whole,
    and nothing else is touched. *)
Lemma grouped_write (fs : FS) :
  fits n fs = true ->
  exists fs',
    for_each (groupby compare key df) body fs = (fs', OK tt)
    /\ fits n fs' = true
    /\ (forall k, In k keys ->
          read_file (files fs') (tpath k)
          = Some (mkFile (fmt self) (drop_ts (filter (key_is compare key k) df))))
    /\ (forall q, (forall k, In k keys -> q <> tpath k) ->
          read_file (files fs') q = read_file (files fs) q).
Proof.
  intros Hfits.
  destruct (for_each_puts n body
              (fun x => tdir (fst x))
              (fun x => tpath (fst x))
              (fun x => mkFile (fmt self) (drop_ts (snd x)))
              (groupby compare key df)) with (fs := fs)
    as (fs' & Hrun & Hfits' & Hread).
  - intros [k g] fs1 Hin Hf1.
    unfold groupby in Hin. apply in_map_iff in Hin.
    destruct Hin as (k' & Heq & Hk). inversion Heq; subst k' g.
    destruct (shape k Hk) as [Hlen Hplain].
    rewrite body_eq. simpl fst. simpl snd.
    destruct (mkdir_then_save self n (tdir k) (fname k)
                (drop_ts (filter (key_is compare key k) df)) fs1 fmt_ok Hf1 Hlen Hplain)
      as (H1 & H2 & _).
    split; assumption.
  - exact Hfits.
  - exists fs'. split; [exact Hrun|]. split; [exact Hfits'|]. split.
    + intros k Hk. rewrite Hread.
      destruct (find (fun x => path_eqb (tpath k) (tpath (fst x)))
                     (rev (groupby compare key df))) as [[k' g]|] eqn:Ef.
      * apply find_rev_some in Ef. destruct Ef as [Hin HP].
        unfold groupby in Hin. apply in_map_iff in Hin.
        destruct Hin as (k'' & Heq & Hk'). inversion Heq; subst k'' g.
        simpl in HP. apply path_eqb_eq in HP.
        rewrite <- (tpath_inj k k' Hk Hk' HP). reflexivity.
      * exfalso.
        pose proof (find_rev_none _ _ Ef (k, filter (key_is compare key k) df)) as Hn.
        simpl in Hn. rewrite path_eqb_refl in Hn.
        assert (true = false); [apply Hn | discriminate].
        unfold groupby. apply in_map_iff. exists k. split; [reflexivity | exact Hk].
    + intros q Hq. rewrite Hread.
      destruct (find (fun x => path_eqb q (tpath (fst x)))
                     (rev (groupby compare key df))) as [[k' g]|] eqn:Ef; [|reflexivity].
      exfalso. apply find_rev_some in Ef. destruct Ef as [Hin HP].
      unfold groupby in Hin. apply in_map_iff in Hin.
      destruct Hin as (k'' & Heq & Hk'). inversion Heq; subst k'' g.
      simpl in HP. apply path_eqb_eq in HP. apply (Hq k' Hk'). exact HP.
Qed.

End Grouped.

Section RowByRow.

Variable self : Storage.
Hypothesis fmt_ok : supported_format (fmt self) = true.
Variable n : nat.

Variable body : dict -> M unit.
Variable tdir : dict -> Path.
Variable fname : dict -> string.
Hypothesis body_eq :
  forall row, body row
              = (mkdir (tdir row) ;;; _save self (drop_ts [row]) (joinpath (tdir row) (fname row))).

Variable df : DataFrame.

Let tpath (row : dict) : Path := joinpath (tdir row) (fname row).

Hypothesis shape :
  forall row, In row df -> List.length (parts (tdir row)) = n /\ plain (fname row) = true.

(** The loop over the rows: every row is stored alone, and a file holds the
    last row that was sent to it. *)
Lemma row_by_row_write (fs : FS) :
  fits n fs = true ->
  exists fs',
    for_each df body fs = (fs', OK tt)
    /\ fits n fs' = true
    /\ (forall q, read_file (files fs') q
                  = match find (fun row => path_eqb q (tpath row)) (rev df) with
                    | Some row => Some (mkFile (fmt self) (drop_ts [row]))
                    | None => read_file (files fs) q
                    end).
Proof.
  intros Hfits.
  apply (for_each_puts n body tdir tpath
           (fun row => mkFile (fmt self) (drop_ts [row])) df); [|exact Hfits].
  intros row fs1 Hin Hf1.
  destruct (shape row Hin) as [Hlen Hplain].
  rewrite body_eq.
  destruct (mkdir_then_save self n (tdir row) (fname row) (drop_ts [row]) fs1
              fmt_ok Hf1 Hlen Hplain) as (H1 & H2 & _).
  split; assumption.
Qed.

End RowByRow.

(** ** The layout table *)

Definition date_segments (d : date) : list string :=
  let '(y, m, dd) := d in
  ["year=" ++ str_int y; "month=" ++ str_int m; "day=" ++ str_int dd].

(** Directory segments below the base path, per layout. *)
Definition table_dir (layout : string) (d : date) (country city : string) : list string :=
  if String.eqb layout "date" then date_segments d
  else if String.eqb layout "date_country" then date_segments d
  else if String.eqb layout "country_date" then country :: date_segments d
  else if String.eqb layout "hive_compact" then (date_segments d ++ [country; city])%list
  else city :: date_segments d.

(** File name, per layout. *)
Definition table_file (layout fmt run_ts country city : string) : string :=
  if String.eqb layout "date_country" then country ++ "_weather_" ++ run_ts ++ "." ++ fmt
  else if String.eqb layout "hive_compact"
       then country ++ "_" ++ city ++ "_" ++ run_ts ++ "." ++ fmt
  else "weather_" ++ run_ts ++ "." ++ fmt.

(** Records that share a file, per layout: the group key of the table; for
    [hive_compact], where every record is its own group, the fields that
    name the file. *)
Definition date_eqb (a b : date) : bool :=
  match date_compare a b with Eq => true | _ => false end.

Definition same_group (layout : string) (r r' : WeatherRecord) : bool :=
  if String.eqb layout "date" then date_eqb (obs_date r) (obs_date r')
  else if String.eqb layout "date_country"
       then andb (date_eqb (obs_date r) (obs_date r')) (String.eqb (country_of r) (country_of r'))
  else if String.eqb layout "country_date"
       then andb (String.eqb (country_of r) (country_of r')) (date_eqb (obs_date r) (obs_date r'))
  else if String.eqb layout "hive_compact"
       then andb (date_eqb (obs_date r) (obs_date r'))
                 (andb (String.eqb (country_of r) (country_of r'))
                       (String.eqb (city_of r) (city_of r')))
  else andb (String.eqb (city_of r) (city_of r')) (date_eqb (obs_date r) (obs_date r')).

Definition supported_layout (layout : string) : bool :=
  orb (String.eqb layout "date")
      (orb (String.eqb layout "date_country")
           (orb (String.eqb layout "country_date")
                (orb (String.eqb layout "hive_compact") (String.eqb layout "city_date")))).

Definition layout_depth (layout : string) : nat :=
  List.length (table_dir layout (0, 0, 0) "" "").

(** The file of a record: base path, directory segments, file name. *)
Definition target (self : Storage) (now : datetime) (r : WeatherRecord) : Path :=
  mkPath (root (base_path self))
         (parts (base_path self)
            ++ table_dir (layout self) (obs_date r) (country_of r) (city_of r)
            ++ [table_file (layout self) (fmt self) (strftime_run_ts now)
                           (country_of r) (city_of r)])%list.

(** The row of a record as it is saved: without the [_ts] column. *)
Definition saved_row (records : list WeatherRecord) (r : WeatherRecord) : dict :=
  filter not_ts (row_in records r).

Lemma drop_ts_rows (records l : list WeatherRecord) :
  drop_ts (map (row_in records) l) = map (saved_row records) l.
Proof.
  unfold drop_ts. rewrite map_map. reflexivity.
Qed.

(** *** Segments of the strings the writer builds *)

Lemma plain_label (label : string) (z : Z) :
  plain label = true -> plain (label ++ str_int z) = true.
Proof.
  intros H. apply plain_inv in H. destruct H as (Hs & Hne & _).
  unfold plain. rewrite no_sep_app, Hs, str_int_no_slash.
  destruct label as [|c label]; [congruence|].
  destruct label as [|c' label].
  - simpl. unfold str_int, NilZero.string_of_int.
    destruct (Z.to_int z) as [d|d]; unfold NilZero.string_of_uint;
      destruct d; simpl; destruct (Ascii.eqb c "."); reflexivity.
  - simpl. destruct (Ascii.eqb c "."); reflexivity.
Qed.

Lemma plain_app (a b : string) :
  plain a = true -> no_sep is_slash b = true -> b <> "" -> plain (a ++ b) = true.
Proof.
  intros Ha Hb Hne. apply plain_inv in Ha. destruct Ha as (Hs & Hna & _).
  unfold plain. rewrite no_sep_app, Hs, Hb.
  destruct a as [|c a]; [congruence|].
  destruct a as [|c' a]; [|simpl; destruct (Ascii.eqb c "."); reflexivity].
  destruct b as [|x b]; [congruence | simpl; destruct (Ascii.eqb c "."); reflexivity].
Qed.

Lemma date_dir_eq (y m dd : Z) :
  date_dir (y, m, dd)
  = ("year=" ++ str_int y)
      ++ String "/" (("month=" ++ str_int m) ++ String "/" ("day=" ++ str_int dd)).
Proof.
  unfold date_dir. rewrite !append_assoc. reflexivity.
Qed.

Lemma segments_date_dir (d : date) : segments (date_dir d) = date_segments d.
Proof.
  destruct d as [[y m] dd]. rewrite date_dir_eq.
  rewrite !segments_cons by (apply plain_label; reflexivity).
  rewrite segments_one by (apply plain_label; reflexivity).
  reflexivity.
Qed.

Lemma segments_date_dir_then (d : date) (rest : string) :
  segments (date_dir d ++ String "/" rest) = (date_segments d ++ segments rest)%list.
Proof.
  destruct d as [[y m] dd]. rewrite date_dir_eq.
  rewrite (append_assoc ("year=" ++ str_int y)).
  change (String "/" (("month=" ++ str_int m) ++ String "/" ("day=" ++ str_int dd)) ++ String "/" rest)
    with (String "/" ((("month=" ++ str_int m) ++ String "/" ("day=" ++ str_int dd)) ++ String "/" rest)).
  rewrite segments_cons by (apply plain_label; reflexivity).
  rewrite (append_assoc ("month=" ++ str_int m)).
  change (String "/" ("day=" ++ str_int dd) ++ String "/" rest)
    with (String "/" (("day=" ++ str_int dd) ++ String "/" rest)).
  rewrite segments_cons by (apply plain_label; reflexivity).
  rewrite segments_cons by (apply plain_label; reflexivity).
  reflexivity.
Qed.

Lemma root_of_date_dir (d : date) (rest : string) : root_of (date_dir d ++ rest) = "".
Proof.
  destruct d as [[y m] dd]. reflexivity.
Qed.

Lemma date_segments_length (d : date) : List.length (date_segments d) = 3%nat.
Proof.
  destruct d as [[y m] dd]. reflexivity.
Qed.

Lemma date_segments_inj (d d' : date) : date_segments d = date_segments d' -> d = d'.
Proof.
  destruct d as [[y m] dd], d' as [[y' m'] dd']. simpl. intros H.
  inversion H as [[Hy Hm Hd]].
  apply str_int_inj in Hy, Hm, Hd. subst. reflexivity.
Qed.

Lemma length_append (a b : string) :
  String.length (a ++ b) = (String.length a + String.length b)%nat.
Proof.
  induction a as [|c a IH]; simpl; [reflexivity | rewrite IH; reflexivity].
Qed.

Lemma append_cancel_r (s : string) : forall a b, a ++ s = b ++ s -> a = b.
Proof.
  induction a as [|c a IH]; intros b H.
  - destruct b as [|c' b]; [reflexivity|].
    apply (f_equal String.length) in H. simpl in H. rewrite length_append in H. lia.
  - destruct b as [|c' b].
    + apply (f_equal String.length) in H. simpl in H. rewrite length_append in H. lia.
    + simpl in H. inversion H; subst. f_equal. apply IH. assumption.
Qed.

Lemma supported_format_no_slash (f : string) :
  supported_format f = true -> no_sep is_slash f = true /\ f <> "".
Proof.
  unfold supported_format. intros H.
  destruct (String.eqb f "parquet") eqn:E1; [apply String.eqb_eq in E1; subst; split; [reflexivity | discriminate]|].
  destruct (String.eqb f "csv") eqn:E2; [apply String.eqb_eq in E2; subst; split; [reflexivity | discriminate]|].
  destruct (String.eqb f "json") eqn:E3; [apply String.eqb_eq in E3; subst; split; [reflexivity | discriminate]|].
  discriminate H.
Qed.

Lemma run_ts_no_slash (now : datetime) : no_sep is_slash (strftime_run_ts now) = true.
Proof.
  unfold strftime_run_ts. rewrite !no_sep_app, !zfill_no_slash. reflexivity.
Qed.

Lemma plain_weather_file (run_ts f : string) :
  no_sep is_slash run_ts = true -> supported_format f = true ->
  plain ("weather_" ++ run_ts ++ "." ++ f) = true.
Proof.
  intros Hr Hf. apply supported_format_no_slash in Hf. destruct Hf as [Hf _].
  unfold plain. rewrite !no_sep_app, Hr, Hf. reflexivity.
Qed.

Lemma tail_no_slash (sep run_ts f : string) :
  no_sep is_slash sep = true ->
  no_sep is_slash run_ts = true -> supported_format f = true ->
  no_sep is_slash (sep ++ run_ts ++ "." ++ f) = true.
Proof.
  intros Hsep Hr Hf. apply supported_format_no_slash in Hf. destruct Hf as [Hf _].
  rewrite !no_sep_app, Hsep, Hr, Hf. reflexivity.
Qed.

(** ** Files written for a batch *)

(** What a write leaves behind: the file of every parseable record holds
    [content], and no other path is touched. *)
Definition written (self : Storage) (now : datetime) (records : list WeatherRecord)
           (content : WeatherRecord -> list dict) (fs0 fs' : FS) : Prop :=
  (forall r, In r records -> parseable r = true ->
     read_file (files fs') (target self now r) = Some (mkFile (fmt self) (content r)))
  /\ (forall q, (forall r, In r records -> parseable r = true -> q <> target self now r) ->
        read_file (files fs') q = read_file (files fs0) q).

(** The rows of a group: the parseable records of the batch that share the
    group of [r], in batch order. *)
Definition group_rows (layout : string) (records : list WeatherRecord)
           (r : WeatherRecord) : list dict :=
  map (saved_row records)
      (filter (fun r' => andb (parseable r') (same_group layout r r')) records).

Lemma filter_filter {A : Type} (P Q : A -> bool) (l : list A) :
  filter Q (filter P l) = filter (fun x => andb (P x) (Q x)) l.
Proof.
  induction l as [|x l IH]; simpl; [reflexivity|].
  destruct (P x); simpl; [destruct (Q x); rewrite IH; reflexivity | exact IH].
Qed.

Section GroupedLayout.

Context {K : Type}.
Variable compare : K -> K -> comparison.
Variable key : dict -> option K.
Hypothesis compare_eq : forall a b, compare a b = Eq <-> a = b.

Variable self : Storage.
Variable now : datetime.
Variable records : list WeatherRecord.
Hypothesis fmt_ok : supported_format (fmt self) = true.
Variable n : nat.

Variable body : K * DataFrame -> M unit.
Variable tdir : K -> Path.
Variable fname : K -> string.
Hypothesis body_eq :
  forall k g, body (k, g)
              = (mkdir (tdir k) ;;; _save self (drop_ts g) (joinpath (tdir k) (fname k))).

Variable rkey : WeatherRecord -> K.
Variable group : string.

Let kept : list WeatherRecord := filter parseable records.

Hypothesis key_row :
  forall r, In r kept -> key (row_in records r) = Some (rkey r).
Hypothesis shape :
  forall r, In r kept ->
    List.length (parts (tdir (rkey r))) = n
    /\ plain (fname (rkey r)) = true
    /\ joinpath (tdir (rkey r)) (fname (rkey r)) = target self now r.
Hypothesis rkey_group :
  forall r r', In r kept -> In r' kept -> (rkey r' = rkey r <-> same_group group r r' = true).
Hypothesis target_inj :
  forall r r', In r kept -> In r' kept -> target self now r = target self now r' -> rkey r = rkey r'.

Lemma kept_In (r : WeatherRecord) : In r kept <-> In r records /\ parseable r = true.
Proof. unfold kept. apply filter_In. Qed.

Lemma keys_of_kept (k : K) :
  In k (sorted_keys compare key (map (row_in records) kept)) <->
  exists r, In r kept /\ rkey r = k.
Proof.
  rewrite (sorted_keys_In compare key compare_eq). split.
  - intros (row & Hin & Hk). apply in_map_iff in Hin.
    destruct Hin as (r & Hrow & Hr). subst row.
    exists r. split; [exact Hr|]. rewrite key_row in Hk by exact Hr. congruence.
  - intros (r & Hr & Hk). exists (row_in records r). split.
    + apply in_map. exact Hr.
    + rewrite key_row by exact Hr. congruence.
Qed.

Lemma grouped_layout_write (fs0 : FS) :
  fits n fs0 = true ->
  exists fs',
    for_each (groupby compare key (map (row_in records) kept)) body fs0 = (fs', OK tt)
    /\ fits n fs' = true
    /\ written self now records (group_rows group records) fs0 fs'.
Proof.
  intros Hfits.
  destruct (grouped_write compare key self fmt_ok n body tdir fname body_eq
              (map (row_in records) kept)) with (fs := fs0)
    as (fs' & Hrun & Hfits' & Hgroups & Hrest).
  - intros k Hk. apply keys_of_kept in Hk. destruct Hk as (r & Hr & Hk). subst k.
    destruct (shape r Hr) as (H1 & H2 & _). split; assumption.
  - intros k k' Hk Hk' Heq.
    apply keys_of_kept in Hk. destruct Hk as (r & Hr & Hk). subst k.
    apply keys_of_kept in Hk'. destruct Hk' as (r' & Hr' & Hk'). subst k'.
    apply target_inj; try assumption.
    destruct (shape r Hr) as (_ & _ & E). destruct (shape r' Hr') as (_ & _ & E').
    rewrite <- E, <- E'. exact Heq.
  - exact Hfits.
  - exists fs'. split; [exact Hrun|]. split; [exact Hfits'|]. split.
    + intros r Hin Hp.
      assert (Hr : In r kept) by (apply kept_In; split; assumption).
      destruct (shape r Hr) as (_ & _ & E). rewrite <- E.
      rewrite Hgroups by (apply keys_of_kept; exists r; split; [exact Hr | reflexivity]).
      f_equal. f_equal. unfold group_rows.
      rewrite filter_map_swap, drop_ts_rows. f_equal.
      unfold kept. rewrite filter_filter.
      apply filter_ext_in. intros r' Hr'.
      destruct (parseable r') eqn:Hp'; [|reflexivity]. simpl.
      assert (Hk' : In r' kept) by (apply kept_In; split; assumption).
      destruct (key_is compare key (rkey r) (row_in records r')) eqn:E1.
      * apply (key_is_true compare key compare_eq) in E1.
        rewrite key_row in E1 by exact Hk'.
        symmetry. apply (rkey_group r r' Hr Hk'). congruence.
      * destruct (same_group group r r') eqn:E2; [|reflexivity].
        apply (rkey_group r r' Hr Hk') in E2.
        assert (key_is compare key (rkey r) (row_in records r') = true).
        { apply (key_is_true compare key compare_eq). rewrite key_row by exact Hk'. congruence. }
        congruence.
    + intros q Hq. apply Hrest. intros k Hk.
      apply keys_of_kept in Hk. destruct Hk as (r & Hr & Hk). subst k.
      destruct (shape r Hr) as (_ & _ & E). rewrite E.
      apply kept_In in Hr. destruct Hr as [Hin Hp]. apply Hq; assumption.
Qed.

End GroupedLayout.

(** *** The table is injective on groups *)

Lemma supported_layout_cases (l : string) :
  supported_layout l = true ->
  l = "date" \/ l = "date_country" \/ l = "country_date" \/ l = "hive_compact"
  \/ l = "city_date".
Proof.
  unfold supported_layout. intros H.
  repeat (apply orb_true_iff in H; destruct H as [H|H];
          [apply String.eqb_eq in H; tauto|]).
  apply String.eqb_eq in H. tauto.
Qed.

Lemma date_eqb_true (a b : date) : date_eqb a b = true <-> a = b.
Proof.
  unfold date_eqb. rewrite <- date_compare_eq.
  destruct (date_compare a b); split; congruence.
Qed.

Lemma joinpath_plain (d : Path) (name : string) :
  plain name = true -> joinpath d name = mkPath (root d) (parts d ++ [name])%list.
Proof.
  intros H. rewrite joinpath_relative.
  - rewrite segments_one by exact H. reflexivity.
  - rewrite <- (append_nil_r name). apply root_of_plain. exact H.
Qed.

Lemma joinpath_date_dir (base : Path) (d : date) :
  joinpath base (date_dir d) = mkPath (root base) (parts base ++ date_segments d)%list.
Proof.
  rewrite joinpath_relative.
  - rewrite segments_date_dir. reflexivity.
  - rewrite <- (append_nil_r (date_dir d)). apply root_of_date_dir.
Qed.

Lemma joinpath_name_date_dir (base : Path) (name : string) (d : date) :
  plain name = true ->
  joinpath base (name ++ "/" ++ date_dir d)
  = mkPath (root base) (parts base ++ name :: date_segments d)%list.
Proof.
  intros H. rewrite joinpath_relative.
  - change (name ++ "/" ++ date_dir d) with (name ++ String "/" (date_dir d)).
    rewrite segments_cons by exact H. rewrite segments_date_dir. reflexivity.
  - apply root_of_plain. exact H.
Qed.

Lemma joinpath_hive (base : Path) (d : date) (country city : string) :
  plain country = true -> plain city = true ->
  joinpath base (date_dir d ++ "/" ++ country ++ "/" ++ city)
  = mkPath (root base) (parts base ++ date_segments d ++ [country; city])%list.
Proof.
  intros Hc Hn. rewrite joinpath_relative.
  - change (date_dir d ++ "/" ++ country ++ "/" ++ city)
      with (date_dir d ++ String "/" (country ++ String "/" city)).
    rewrite segments_date_dir_then, segments_cons, segments_one by assumption.
    reflexivity.
  - apply root_of_date_dir.
Qed.

(** Records that share a group share their file, by the table itself. *)
Lemma same_group_target (self : Storage) (now : datetime) (r r' : WeatherRecord) :
  supported_layout (layout self) = true ->
  same_group (layout self) r r' = true -> target self now r = target self now r'.
Proof.
  intros Hl H. unfold target.
  destruct (supported_layout_cases _ Hl) as [E|[E|[E|[E|E]]]];
    rewrite E in *; unfold same_group, table_dir, table_file in *; simpl in H |- *;
    repeat match goal with
           | H : andb _ _ = true |- _ => apply andb_true_iff in H; destruct H
           | H : date_eqb _ _ = true |- _ => apply date_eqb_true in H
           | H : String.eqb _ _ = true |- _ => apply String.eqb_eq in H
           end;
    congruence.
Qed.

(** Records that share a file share their group: the table is injective. *)
Lemma target_same_group (self : Storage) (now : datetime) (r r' : WeatherRecord) :
  supported_layout (layout self) = true ->
  target self now r = target self now r' -> same_group (layout self) r r' = true.
Proof.
  intros Hl H. unfold target in H. inversion H as [Hparts]. clear H.
  apply app_inv_head in Hparts.
  destruct (obs_date r) as [[y m] dd] eqn:Ed.
  destruct (obs_date r') as [[y' m'] dd'] eqn:Ed'.
  destruct (supported_layout_cases _ Hl) as [E|[E|[E|[E|E]]]];
    rewrite E in *; unfold same_group, table_dir, table_file in *;
    rewrite ?Ed, ?Ed'; simpl in Hparts |- *;
    inversion Hparts;
    repeat match goal with
           | H : str_int _ = str_int _ |- _ => apply str_int_inj in H
           | H : _ ++ _ = _ ++ _ |- _ => apply append_cancel_r in H
           end;
    subst;
    repeat match goal with
           | H : country_of _ = country_of _ |- _ => rewrite H; clear H
           | H : city_of _ = city_of _ |- _ => rewrite H; clear H
           end;
    rewrite ?String.eqb_refl;
    try (assert (Hd : date_eqb (y', m', dd') (y', m', dd') = true)
          by (apply date_eqb_true; reflexivity); rewrite Hd);
    reflexivity.
Qed.

(** *** The five layouts *)

Lemma find_map {A B : Type} (f : A -> B) (P : B -> bool) (l : list A) :
  find P (map f l) = option_map f (find (fun x => P (f x)) l).
Proof.
  induction l as [|x l IH]; simpl; [reflexivity|].
  destruct (P (f x)); [reflexivity | exact IH].
Qed.

Lemma find_ext_in {A : Type} (P Q : A -> bool) (l : list A) :
  (forall x, In x l -> P x = Q x) -> find P l = find Q l.
Proof.
  induction l as [|x l IH]; intros H; simpl; [reflexivity|].
  rewrite (H x (or_introl eq_refl)).
  destruct (Q x); [reflexivity|]. apply IH. intros y Hy. apply H. right. exact Hy.
Qed.

(** The last parseable record of the batch that is sent to the file of [r]. *)
Definition last_sharing (self : Storage) (now : datetime) (records : list WeatherRecord)
           (r : WeatherRecord) : WeatherRecord :=
  match find (fun r' => path_eqb (target self now r) (target self now r'))
             (rev (filter parseable records)) with
  | Some r' => r'
  | None => r
  end.

Section Layouts.

Variable self : Storage.
Variable now : datetime.
Variable records : list WeatherRecord.

Hypothesis fmt_ok : supported_format (fmt self) = true.
Hypothesis all_storable : forallb storable records = true.

Let run_ts : string := strftime_run_ts now.

Lemma kept_row (r : WeatherRecord) :
  In r (filter parseable records) ->
  ts_date (row_in records r) = Some (obs_date r)
  /\ str_key "Country" (row_in records r) = Some (country_of r)
  /\ str_key "City" (row_in records r) = Some (city_of r)
  /\ ts_dir (cell_or_nan (get "_ts" (row_in records r))) = date_dir (obs_date r)
  /\ str_cell (cell_or_nan (get "Country" (row_in records r))) = country_of r
  /\ str_cell (cell_or_nan (get "City" (row_in records r))) = city_of r
  /\ plain (country_of r) = true /\ plain (city_of r) = true.
Proof.
  intros Hr. apply filter_In in Hr. destruct Hr as [Hin Hp].
  destruct (row_cells records all_storable r Hin) as (Hc & Hk & Hts).
  destruct (storable_inv r (storable_in records all_storable r Hin))
    as (d & dt & _ & _ & Ht & _ & _ & Hpc & _ & Hpk).
  split; [apply row_ts_date; assumption|].
  unfold str_key. rewrite Hc, Hk, Hts, Hp. simpl.
  unfold obs_date. rewrite Ht. simpl.
  repeat split; assumption.
Qed.

Lemma plain_file_country (r : WeatherRecord) :
  plain (country_of r) = true ->
  plain (country_of r ++ "_weather_" ++ run_ts ++ "." ++ fmt self) = true.
Proof.
  intros H. apply plain_app; [exact H | | discriminate].
  apply (tail_no_slash "_weather_"); [reflexivity | apply run_ts_no_slash | exact fmt_ok].
Qed.

Lemma plain_file_hive (r : WeatherRecord) :
  plain (country_of r) = true -> plain (city_of r) = true ->
  plain (country_of r ++ "_" ++ city_of r ++ "_" ++ run_ts ++ "." ++ fmt self) = true.
Proof.
  intros Hc Hn. apply plain_app; [exact Hc | | discriminate].
  assert (Ht : no_sep is_slash ("_" ++ run_ts ++ "." ++ fmt self) = true)
    by (apply (tail_no_slash "_"); [reflexivity | apply run_ts_no_slash | exact fmt_ok]).
  apply plain_inv in Hn. destruct Hn as (Hn & _).
  rewrite (no_sep_app is_slash "_"), (no_sep_app is_slash (city_of r)), Hn, Ht.
  reflexivity.
Qed.

End Layouts.

(** Entering [write] on a batch that is not empty and formats: what is left
    is the loop of the configured layout over the frame of the batch. *)
Ltac enter_write records Hne Hall Hlayout :=
  let r0 := fresh "r0" in
  let rest := fresh "rest" in
  destruct records as [|r0 rest]; [congruence|];
  unfold write; set (records := r0 :: rest) in *;
  unfold bindM at 1; unfold lift;
  rewrite (formatted_records_all records) by (apply all_format; exact Hall);
  rewrite (frame_of_batch records Hall);
  rewrite Hlayout; cbn [String.eqb Ascii.eqb Bool.eqb].

Section GroupedLayouts.

Variable self : Storage.
Variable now : datetime.
Hypothesis fmt_ok : supported_format (fmt self) = true.

Lemma write_date (records : list WeatherRecord) (fs0 : FS) :
  records <> [] ->
  forallb storable records = true ->
  layout self = "date" ->
  fits (List.length (parts (base_path self)) + 3) fs0 = true ->
  exists fs',
    write self now records fs0 = (fs', OK tt)
    /\ fits (List.length (parts (base_path self)) + 3) fs' = true
    /\ written self now records (group_rows "date" records) fs0 fs'.
Proof.
  intros Hne Hall Hlayout Hfits. enter_write records Hne Hall Hlayout.
  apply (grouped_layout_write date_compare ts_date date_compare_eq self now records fmt_ok)
    with (tdir := fun d => joinpath (base_path self) (date_dir d))
         (fname := fun _ : date => "weather_" ++ strftime_run_ts now ++ "." ++ fmt self)
         (rkey := obs_date); try exact Hfits.
  - intros [[y m] dd] g. reflexivity.
  - intros r Hr. apply (kept_row records Hall) in Hr. tauto.
  - intros r Hr. rewrite joinpath_date_dir. simpl parts.
    assert (Hp : plain ("weather_" ++ strftime_run_ts now ++ "." ++ fmt self) = true)
      by (apply plain_weather_file; [apply run_ts_no_slash | exact fmt_ok]).
    split; [rewrite length_app, date_segments_length; reflexivity|].
    split; [exact Hp|].
    rewrite joinpath_plain by exact Hp.
    unfold target, table_dir, table_file. rewrite Hlayout. simpl.
    rewrite <- app_assoc. reflexivity.
  - intros r r' _ _. unfold same_group. simpl.
    rewrite date_eqb_true. split; congruence.
  - intros r r' _ _ H.
    apply target_same_group in H; [|rewrite Hlayout; reflexivity].
    rewrite Hlayout in H. unfold same_group in H. simpl in H.
    apply date_eqb_true in H. exact H.
Qed.

Lemma string_compare_eq (a b : string) : String.compare a b = Eq <-> a = b.
Proof.
  split; [apply String.compare_eq_iff|].
  intros H. subst b. pose proof (String.compare_antisym a a) as E.
  destruct (String.compare a a); [reflexivity | discriminate | discriminate].
Qed.

Lemma key2_row {A B : Type} (ka : dict -> option A) (kb : dict -> option B)
      (row : dict) (a : A) (b : B) :
  ka row = Some a -> kb row = Some b -> key2 ka kb row = Some (a, b).
Proof.
  intros Ha Hb. unfold key2. rewrite Ha, Hb. reflexivity.
Qed.

Lemma pair_eq_iff {A B : Type} (a a' : A) (b b' : B) :
  (a, b) = (a', b') <-> a = a' /\ b = b'.
Proof.
  split; [intros H; inversion H; auto | intros [H1 H2]; subst; reflexivity].
Qed.

Lemma write_date_country (records : list WeatherRecord) (fs0 : FS) :
  records <> [] ->
  forallb storable records = true ->
  layout self = "date_country" ->
  fits (List.length (parts (base_path self)) + 3) fs0 = true ->
  exists fs',
    write self now records fs0 = (fs', OK tt)
    /\ fits (List.length (parts (base_path self)) + 3) fs' = true
    /\ written self now records (group_rows "date_country" records) fs0 fs'.
Proof.
  intros Hne Hall Hlayout Hfits. enter_write records Hne Hall Hlayout.
  apply (grouped_layout_write (pair_compare date_compare String.compare)
           (key2 ts_date (str_key "Country"))
           (pair_compare_eq _ _ date_compare_eq string_compare_eq)
           self now records fmt_ok)
    with (tdir := fun k : date * string => joinpath (base_path self) (date_dir (fst k)))
         (fname := fun k : date * string =>
                     snd k ++ "_weather_" ++ strftime_run_ts now ++ "." ++ fmt self)
         (rkey := fun r => (obs_date r, country_of r)); try exact Hfits.
  - intros [[[y m] dd] c] g. reflexivity.
  - intros r Hr. apply (kept_row records Hall) in Hr. apply key2_row; tauto.
  - intros r Hr. apply (kept_row records Hall) in Hr.
    cbn [fst snd]. rewrite joinpath_date_dir. simpl parts.
    assert (Hp : plain (country_of r ++ "_weather_" ++ strftime_run_ts now ++ "." ++ fmt self) = true)
      by (apply plain_file_country; tauto).
    split; [rewrite length_app, date_segments_length; reflexivity|].
    split; [exact Hp|].
    rewrite joinpath_plain by exact Hp.
    unfold target, table_dir, table_file. rewrite Hlayout. simpl.
    rewrite <- app_assoc. reflexivity.
  - intros r r' _ _. unfold same_group. simpl.
    rewrite pair_eq_iff, andb_true_iff, date_eqb_true, String.eqb_eq.
    split; intros [H1 H2]; split; congruence.
  - intros r r' _ _ H.
    apply target_same_group in H; [|rewrite Hlayout; reflexivity].
    rewrite Hlayout in H. unfold same_group in H. simpl in H.
    apply andb_true_iff in H. destruct H as [H1 H2].
    apply date_eqb_true in H1. apply String.eqb_eq in H2. congruence.
Qed.

Lemma write_country_date (records : list WeatherRecord) (fs0 : FS) :
  records <> [] ->
  forallb storable records = true ->
  layout self = "country_date" ->
  fits (List.length (parts (base_path self)) + 4) fs0 = true ->
  exists fs',
    write self now records fs0 = (fs', OK tt)
    /\ fits (List.length (parts (base_path self)) + 4) fs' = true
    /\ written self now records (group_rows "country_date" records) fs0 fs'.
Proof.
  intros Hne Hall Hlayout Hfits. enter_write records Hne Hall Hlayout.
  apply (grouped_layout_write (pair_compare String.compare date_compare)
           (key2 (str_key "Country") ts_date)
           (pair_compare_eq _ _ string_compare_eq date_compare_eq)
           self now records fmt_ok)
    with (tdir := fun k : string * date =>
                    joinpath (base_path self) (fst k ++ "/" ++ date_dir (snd k)))
         (fname := fun _ : string * date =>
                     "weather_" ++ strftime_run_ts now ++ "." ++ fmt self)
         (rkey := fun r => (country_of r, obs_date r)); try exact Hfits.
  - intros [c [[y m] dd]] g. reflexivity.
  - intros r Hr. apply (kept_row records Hall) in Hr. apply key2_row; tauto.
  - intros r Hr. apply (kept_row records Hall) in Hr.
    cbn [fst snd]. rewrite joinpath_name_date_dir by tauto. simpl parts.
    assert (Hp : plain ("weather_" ++ strftime_run_ts now ++ "." ++ fmt self) = true)
      by (apply plain_weather_file; [apply run_ts_no_slash | exact fmt_ok]).
    split; [rewrite length_app; simpl; rewrite date_segments_length; reflexivity|].
    split; [exact Hp|].
    rewrite joinpath_plain by exact Hp.
    unfold target, table_dir, table_file. rewrite Hlayout. simpl.
    rewrite <- app_assoc. reflexivity.
  - intros r r' _ _. unfold same_group. simpl.
    rewrite pair_eq_iff, andb_true_iff, date_eqb_true, String.eqb_eq.
    split; intros [H1 H2]; split; congruence.
  - intros r r' _ _ H.
    apply target_same_group in H; [|rewrite Hlayout; reflexivity].
    rewrite Hlayout in H. unfold same_group in H. simpl in H.
    apply andb_true_iff in H. destruct H as [H1 H2].
    apply date_eqb_true in H2. apply String.eqb_eq in H1. congruence.
Qed.

Lemma write_city_date (records : list WeatherRecord) (fs0 : FS) :
  records <> [] ->
  forallb storable records = true ->
  layout self = "city_date" ->
  fits (List.length (parts (base_path self)) + 4) fs0 = true ->
  exists fs',
    write self now records fs0 = (fs', OK tt)
    /\ fits (List.length (parts (base_path self)) + 4) fs' = true
    /\ written self now records (group_rows "city_date" records) fs0 fs'.
Proof.
  intros Hne Hall Hlayout Hfits. enter_write records Hne Hall Hlayout.
  apply (grouped_layout_write (pair_compare String.compare date_compare)
           (key2 (str_key "City") ts_date)
           (pair_compare_eq _ _ string_compare_eq date_compare_eq)
           self now records fmt_ok)
    with (tdir := fun k : string * date =>
                    joinpath (base_path self) (fst k ++ "/" ++ date_dir (snd k)))
         (fname := fun _ : string * date =>
                     "weather_" ++ strftime_run_ts now ++ "." ++ fmt self)
         (rkey := fun r => (city_of r, obs_date r)); try exact Hfits.
  - intros [c [[y m] dd]] g. reflexivity.
  - intros r Hr. apply (kept_row records Hall) in Hr. apply key2_row; tauto.
  - intros r Hr. apply (kept_row records Hall) in Hr.
    cbn [fst snd]. rewrite joinpath_name_date_dir by tauto. simpl parts.
    assert (Hp : plain ("weather_" ++ strftime_run_ts now ++ "." ++ fmt self) = true)
      by (apply plain_weather_file; [apply run_ts_no_slash | exact fmt_ok]).
    split; [rewrite length_app; simpl; rewrite date_segments_length; reflexivity|].
    split; [exact Hp|].
    rewrite joinpath_plain by exact Hp.
    unfold target, table_dir, table_file. rewrite Hlayout. simpl.
    rewrite <- app_assoc. reflexivity.
  - intros r r' _ _. unfold same_group. simpl.
    rewrite pair_eq_iff, andb_true_iff, date_eqb_true, String.eqb_eq.
    split; intros [H1 H2]; split; congruence.
  - intros r r' _ _ H.
    apply target_same_group in H; [|rewrite Hlayout; reflexivity].
    rewrite Hlayout in H. unfold same_group in H. simpl in H.
    apply andb_true_iff in H. destruct H as [H1 H2].
    apply date_eqb_true in H2. apply String.eqb_eq in H1. congruence.
Qed.

(** Under [hive_compact] every row is saved alone: a file holds the row of
    the last record that was sent to it. *)
Lemma write_hive_compact (records : list WeatherRecord) (fs0 : FS) :
  records <> [] ->
  forallb storable records = true ->
  layout self = "hive_compact" ->
  fits (List.length (parts (base_path self)) + 5) fs0 = true ->
  exists fs',
    write self now records fs0 = (fs', OK tt)
    /\ fits (List.length (parts (base_path self)) + 5) fs' = true
    /\ written self now records
         (fun r => [saved_row records (last_sharing self now records r)]) fs0 fs'.
Proof.
  intros Hne Hall Hlayout Hfits. enter_write records Hne Hall Hlayout.
  set (kept := filter parseable records).
  assert (Hshape : forall r, In r kept ->
            let row := row_in records r in
            let country := str_cell (cell_or_nan (get "Country" row)) in
            let city := str_cell (cell_or_nan (get "City" row)) in
            let tdir := joinpath (base_path self)
                          (ts_dir (cell_or_nan (get "_ts" row)) ++ "/" ++ country ++ "/" ++ city) in
            let fname := country ++ "_" ++ city ++ "_" ++ strftime_run_ts now ++ "." ++ fmt self in
            List.length (parts tdir) = (List.length (parts (base_path self)) + 5)%nat
            /\ plain fname = true
            /\ joinpath tdir fname = target self now r).
  { intros r Hr. apply (kept_row records Hall) in Hr.
    destruct Hr as (_ & _ & _ & Hts & Hc & Hn & Hpc & Hpn).
    cbv zeta. rewrite Hts, Hc, Hn.
    rewrite joinpath_hive by assumption. simpl parts.
    assert (Hp : plain (country_of r ++ "_" ++ city_of r ++ "_" ++ strftime_run_ts now
                        ++ "." ++ fmt self) = true)
      by (apply plain_file_hive; assumption).
    split; [rewrite !length_app, date_segments_length; reflexivity|].
    split; [exact Hp|].
    rewrite joinpath_plain by exact Hp.
    unfold target, table_dir, table_file. rewrite Hlayout. simpl.
    rewrite <- !app_assoc. reflexivity. }
  match goal with |- context [for_each _ ?b fs0] => set (body := b) end.
  destruct (row_by_row_write self fmt_ok (List.length (parts (base_path self)) + 5) body
              (fun row => joinpath (base_path self)
                            (ts_dir (cell_or_nan (get "_ts" row)) ++ "/"
                             ++ str_cell (cell_or_nan (get "Country" row)) ++ "/"
                             ++ str_cell (cell_or_nan (get "City" row))))
              (fun row => str_cell (cell_or_nan (get "Country" row)) ++ "_"
                          ++ str_cell (cell_or_nan (get "City" row)) ++ "_"
                          ++ strftime_run_ts now ++ "." ++ fmt self)
              (fun row => eq_refl) (map (row_in records) kept)) with (fs := fs0)
    as (fs' & Hrun & Hfits' & Hread).
  - intros row Hrow. apply in_map_iff in Hrow. destruct Hrow as (r & Hr & Hin). subst row.
    destruct (Hshape r Hin) as (H1 & H2 & _). split; assumption.
  - exact Hfits.
  - exists fs'. split; [exact Hrun|]. split; [exact Hfits'|].
    assert (Hfind : forall q,
              read_file (files fs') q
              = match find (fun r' => path_eqb q (target self now r')) (rev kept) with
                | Some r' => Some (mkFile (fmt self) [saved_row records r'])
                | None => read_file (files fs0) q
                end).
    { intros q. rewrite Hread. rewrite <- map_rev, find_map.
      rewrite (find_ext_in _ (fun r' => path_eqb q (target self now r'))).
      - destruct (find _ (rev kept)); reflexivity.
      - intros r Hr. apply in_rev in Hr.
        destruct (Hshape r Hr) as (_ & _ & E). cbv zeta in E. rewrite E. reflexivity. }
    split.
    + intros r Hin Hp. rewrite Hfind. unfold last_sharing. fold kept.
      destruct (find (fun r' => path_eqb (target self now r) (target self now r')) (rev kept))
        as [r'|] eqn:Ef; [reflexivity|].
      exfalso. pose proof (find_rev_none _ _ Ef r) as Hn.
      cbv beta in Hn. rewrite path_eqb_refl in Hn.
      assert (true = false); [apply Hn | discriminate].
      apply filter_In. split; assumption.
    + intros q Hq. rewrite Hfind.
      destruct (find (fun r' => path_eqb q (target self now r')) (rev kept))
        as [r'|] eqn:Ef; [|reflexivity].
      exfalso. apply find_rev_some in Ef. destruct Ef as [Hin HP].
      apply path_eqb_eq in HP. apply filter_In in Hin. destruct Hin as [Hin Hp].
      apply (Hq r' Hin Hp HP).
Qed.

End GroupedLayouts.

(** ** Sample records *)

Definition utc (y m d hh mm ss : Z) : datetime := mkdatetime y m d hh mm ss 0 (Some 0).

(** A complete record. *)
Definition observation (city country : string) (ts : datetime) : WeatherRecord :=
  mkWeatherRecord (Some city) (Some country) (Some ts) (Some 3600)
                  (Some "Clouds") (Some "few clouds")
                  (Some f22_5) (Some f22_5) (Some f22_5) (Some f22_5)
                  (Some 20) (Some f22_5) (Some 350) (Some 80) (Some 1013)
                  (Some (utc 2024 1 5 7 51 0)) (Some (utc 2024 1 5 17 28 0))
                  (Some "metric").

Definition lisbon : WeatherRecord := observation "Lisbon" "PT" (utc 2024 1 5 12 0 7).
Definition porto : WeatherRecord := observation "Porto" "PT" (utc 2024 1 5 13 30 0).
Definition madrid : WeatherRecord := observation "Madrid" "ES" (utc 2024 1 5 12 0 9).
Definition lisbon_later : WeatherRecord := observation "Lisbon" "PT" (utc 2024 1 5 18 45 0).

Definition run_time : datetime := utc 2024 1 6 8 30 0.

(** The paths of a small batch under two layouts, and the number of rows
    in each file: date parts without padding, one run timestamp. *)
Definition paths_and_rows (out : FS * result unit) : list (list string * nat) :=
  map (fun e => (parts (fst e), List.length (file_rows (snd e)))) (files (fst out)).

(** ** The writer follows the layout table *)

(** What a file holds: under [hive_compact] the row of the last record sent
    to it, under the other layouts the rows of its whole group. *)
Definition file_content (self : Storage) (now : datetime) (records : list WeatherRecord)
           (r : WeatherRecord) : list dict :=
  if String.eqb (layout self) "hive_compact"
  then [saved_row records (last_sharing self now records r)]
  else group_rows (layout self) records r.

(** The outcome of a write on a batch, in the words of the layout table. *)
Definition follows_table (self : Storage) (now : datetime) (records : list WeatherRecord)
           (fs0 : FS) : Prop :=
  exists fs',
    write self now records fs0 = (fs', OK tt)
    (* every parseable record is in the file the table names, with its group *)
    /\ (forall r, In r records -> parseable r = true ->
          read_file (files fs') (target self now r)
          = Some (mkFile (fmt self) (file_content self now records r)))
    (* no other file is written or changed *)
    /\ (forall q, (forall r, In r records -> parseable r = true -> q <> target self now r) ->
          read_file (files fs') q = read_file (files fs0) q)
    (* two records share a file exactly when they share a group *)
    /\ (forall r r', target self now r = target self now r'
                     <-> same_group (layout self) r r' = true)
    (* every file name ends with the one run timestamp, YYYYMMDD_HHMMSS of
       the clock reading of the call, and the format *)
    /\ (forall r, exists prefix,
          last (parts (target self now r)) ""
          = prefix
            ++ (zfill 4 (year now) ++ zfill 2 (month now) ++ zfill 2 (day now) ++ "_"
                ++ zfill 2 (hour now) ++ zfill 2 (minute now) ++ zfill 2 (second now))
            ++ "." ++ fmt self)
    (* hive_compact: different cities, different files, one row each *)
    /\ (layout self = "hive_compact" ->
        forall r1 r2, In r1 records -> In r2 records ->
          parseable r1 = true -> parseable r2 = true -> city_of r1 <> city_of r2 ->
          target self now r1 <> target self now r2
          /\ (exists row1, read_file (files fs') (target self now r1)
                           = Some (mkFile (fmt self) [row1]))
          /\ (exists row2, read_file (files fs') (target self now r2)
                           = Some (mkFile (fmt self) [row2]))
          /\ (records = [r1; r2] ->
              read_file (files fs') (target self now r1)
              = Some (mkFile (fmt self) [saved_row records r1])
              /\ read_file (files fs') (target self now r2)
                 = Some (mkFile (fmt self) [saved_row records r2])))
    (* date_country: same date and country, same single file *)
    /\ (layout self = "date_country" ->
        forall r r', In r records -> In r' records ->
          parseable r = true -> parseable r' = true ->
          obs_date r = obs_date r' -> country_of r = country_of r' ->
          target self now r = target self now r'
          /\ exists f, read_file (files fs') (target self now r) = Some f
                       /\ In (saved_row records r) (file_rows f)
                       /\ In (saved_row records r') (file_rows f)).

Lemma same_group_refl (layout : string) (r : WeatherRecord) : same_group layout r r = true.
Proof.
  assert (Hd : date_eqb (obs_date r) (obs_date r) = true) by (apply date_eqb_true; reflexivity).
  unfold same_group.
  repeat match goal with
         | |- context [if ?b then _ else _] => destruct b
         end;
    rewrite ?Hd, ?String.eqb_refl; reflexivity.
Qed.

Lemma target_file_name (self : Storage) (now : datetime) (r : WeatherRecord) :
  exists prefix,
    last (parts (target self now r)) "" = prefix ++ strftime_run_ts now ++ "." ++ fmt self.
Proof.
  unfold target. simpl parts. rewrite app_assoc, last_last.
  unfold table_file.
  destruct (String.eqb (layout self) "date_country").
  - exists (country_of r ++ "_weather_"). rewrite append_assoc. reflexivity.
  - destruct (String.eqb (layout self) "hive_compact").
    + exists (country_of r ++ "_" ++ city_of r ++ "_").
      rewrite !append_assoc. reflexivity.
    + exists "weather_". reflexivity.
Qed.

(** Any supported layout: the write succeeds and leaves the files of the
    table. *)
Lemma write_any_layout (self : Storage) (now : datetime) (records : list WeatherRecord)
      (fs0 : FS) :
  records <> [] ->
  supported_format (fmt self) = true ->
  supported_layout (layout self) = true ->
  forallb storable records = true ->
  fits (List.length (parts (base_path self)) + layout_depth (layout self)) fs0 = true ->
  exists fs',
    write self now records fs0 = (fs', OK tt)
    /\ written self now records (file_content self now records) fs0 fs'.
Proof.
  intros Hne Hfmt Hl Hall Hfits. unfold file_content.
  destruct (supported_layout_cases _ Hl) as [E|[E|[E|[E|E]]]]; rewrite E in Hfits |- *.
  - destruct (write_date self now Hfmt records fs0 Hne Hall E Hfits) as (fs' & H1 & _ & H2).
    exists fs'. split; assumption.
  - destruct (write_date_country self now Hfmt records fs0 Hne Hall E Hfits)
      as (fs' & H1 & _ & H2).
    exists fs'. split; assumption.
  - destruct (write_country_date self now Hfmt records fs0 Hne Hall E Hfits)
      as (fs' & H1 & _ & H2).
    exists fs'. split; assumption.
  - destruct (write_hive_compact self now Hfmt records fs0 Hne Hall E Hfits)
      as (fs' & H1 & _ & H2).
    exists fs'. split; assumption.
  - destruct (write_city_date self now Hfmt records fs0 Hne Hall E Hfits)
      as (fs' & H1 & _ & H2).
    exists fs'. split; assumption.
Qed.

(** C2, as the code has it. For a batch that is not empty, with a
    supported format and layout, records that format, carry a real date and
    time and have a city and a country that are single path segments, and an
    output tree that is not in the way: the write succeeds; every record
    whose timestamp parses is stored in the file the layout table names
    (directory segments year=Y/month=M/day=D written without padding, with
    the country and city segments of the layout), together with its group;
    no other file is touched; every file name carries the one run timestamp,
    YYYYMMDD_HHMMSS of the clock reading of the call; two records share a
    file exactly when they share the group of the table.  Under hive_compact
    two records with different cities get two different files of one row
    each, and under date_country the records that share date and country are
    in the same file.  Two batches written at 2024-01-06 08:30:00 show the
    paths. *)
Theorem write_follows_layout_table :
  (forall (self : Storage) (now : datetime) (records : list WeatherRecord) (fs0 : FS),
     records <> [] ->
     supported_format (fmt self) = true ->
     supported_layout (layout self) = true ->
     forallb storable records = true ->
     fits (List.length (parts (base_path self)) + layout_depth (layout self)) fs0 = true ->
     follows_table self now records fs0)
  /\ paths_and_rows (write (new "data/weather" "csv" "hive_compact") run_time
                           [lisbon; porto] empty_fs)
     = [ (["data"; "weather"; "year=2024"; "month=1"; "day=5"; "PT"; "Porto";
           "PT_Porto_20240106_083000.csv"], 1%nat);
         (["data"; "weather"; "year=2024"; "month=1"; "day=5"; "PT"; "Lisbon";
           "PT_Lisbon_20240106_083000.csv"], 1%nat) ]
  /\ paths_and_rows (write (new "data/weather" "csv" "date_country") run_time
                           [lisbon; madrid; porto] empty_fs)
     = [ (["data"; "weather"; "year=2024"; "month=1"; "day=5";
           "PT_weather_20240106_083000.csv"], 2%nat);
         (["data"; "weather"; "year=2024"; "month=1"; "day=5";
           "ES_weather_20240106_083000.csv"], 1%nat) ].
Proof.
  split; [|split; vm_compute; reflexivity].
  intros self now records fs0 Hne Hfmt Hl Hall Hfits.
  destruct (write_any_layout self now records fs0 Hne Hfmt Hl Hall Hfits)
    as (fs' & Hrun & Hfiles & Hother).
  exists fs'. split; [exact Hrun|]. split; [exact Hfiles|]. split; [exact Hother|].
  split; [|split; [|split]].
  - intros r r'. split.
    + apply target_same_group. exact Hl.
    + apply same_group_target. exact Hl.
  - intros r. apply target_file_name.
  - intros E r1 r2 Hin1 Hin2 Hp1 Hp2 Hcity.
    assert (Hdiff : target self now r1 <> target self now r2).
    { intros Heq. apply (target_same_group self now r1 r2 Hl) in Heq.
      rewrite E in Heq. unfold same_group in Heq. simpl in Heq.
      apply andb_true_iff in Heq. destruct Heq as [_ Heq].
      apply andb_true_iff in Heq. destruct Heq as [_ Heq].
      apply String.eqb_eq in Heq. contradiction. }
    pose proof (Hfiles r1 Hin1 Hp1) as F1. pose proof (Hfiles r2 Hin2 Hp2) as F2.
    unfold file_content in F1, F2. rewrite E in F1, F2. simpl in F1, F2.
    split; [exact Hdiff|]. split; [eexists; exact F1|]. split; [eexists; exact F2|].
    intros Hrec. rewrite F1, F2. unfold last_sharing. rewrite Hrec. simpl filter.
    rewrite Hp1, Hp2. simpl rev. simpl find.
    rewrite !path_eqb_refl.
    assert (N12 : path_eqb (target self now r1) (target self now r2) = false)
      by (apply path_eqb_neq; exact Hdiff).
    rewrite N12. split; reflexivity.
  - intros E r r' Hin Hin' Hp Hp' Hdate Hcountry.
    assert (Hsame : same_group (layout self) r r' = true).
    { rewrite E. unfold same_group. simpl. rewrite Hdate, Hcountry, String.eqb_refl.
      assert (Hd : date_eqb (obs_date r') (obs_date r') = true)
        by (apply date_eqb_true; reflexivity).
      rewrite Hd. reflexivity. }
    split; [apply same_group_target; assumption|].
    eexists. split; [apply (Hfiles r Hin Hp)|].
    unfold file_content. rewrite E. simpl. unfold group_rows. split.
    + apply in_map. apply filter_In. split; [exact Hin|].
      rewrite Hp. rewrite <- E. rewrite same_group_refl. reflexivity.
    + apply in_map. apply filter_In. split; [exact Hin'|].
      rewrite Hp'. rewrite <- E. rewrite Hsame. reflexivity.
Qed.

(** ** Records that collide under hive_compact *)




(** ** Batches with nothing to write *)

(** A batch of records that format but whose timestamps all become NaT
    leaves the file system as it was. *)
Lemma write_nothing_parseable (self : Storage) (now : datetime)
      (records : list WeatherRecord) (fs0 : FS) :
  supported_layout (layout self) = true ->
  forallb storable records = true ->
  filter parseable records = [] ->
  write self now records fs0 = (fs0, OK tt).
Proof.
  intros Hl Hall Hnone.
  destruct records as [|r0 rest]; [reflexivity|].
  unfold write. set (records := r0 :: rest) in *.
  unfold bindM at 1. unfold lift.
  rewrite (formatted_records_all records) by (apply all_format; exact Hall).
  rewrite (frame_of_batch records Hall), Hnone.
  destruct (supported_layout_cases _ Hl) as [E|[E|[E|[E|E]]]]; rewrite E; reflexivity.
Qed.

(** A record without a timestamp does not format: the attribute lookup on
    [None] fails, and so does the write of any batch that starts with it. *)
Lemma write_without_timestamp (self : Storage) (now : datetime)
      (r : WeatherRecord) (rest : list WeatherRecord) (fs0 : FS) :
  timestamp r = None ->
  write self now (r :: rest) fs0
  = (fs0, raise AttributeError "'NoneType' object has no attribute 'strftime'").
Proof.
  intros H. unfold write, bindM, lift. simpl formatted_records.
  unfold formatted_record. rewrite H. reflexivity.
Qed.

(** ** Configuration errors *)





Section NoWriterGrouped.

Context {K : Type}.
Variable compare : K -> K -> comparison.
Variable key : dict -> option K.
Hypothesis compare_eq : forall a b, compare a b = Eq <-> a = b.

Variable self : Storage.
Variable now : datetime.
Variable records : list WeatherRecord.
Hypothesis fmt_bad : supported_format (fmt self) = false.
Variable n : nat.

Variable body : K * DataFrame -> M unit.
Variable tdir : K -> Path.
Variable fname : K -> string.
Hypothesis body_eq :
  forall k g, body (k, g)
              = (mkdir (tdir k) ;;; _save self (drop_ts g) (joinpath (tdir k) (fname k))).

Variable rkey : WeatherRecord -> K.
Hypothesis key_row :
  forall r, In r (filter parseable records) -> key (row_in records r) = Some (rkey r).
Hypothesis dir_shape :
  forall r, In r (filter parseable records) ->
    List.length (parts (tdir (rkey r))) = n
    /\ tdir (rkey r) = parent (target self now r).


End NoWriterGrouped.

Section NoWriter.

Variable self : Storage.
Variable now : datetime.
Hypothesis fmt_bad : supported_format (fmt self) = false.








End NoWriter.


(** ** The ingestion loop *)

Import Main.

Section IngestFacts.

Variable client : OpenWeatherClient.
Variable network : string -> string -> Z -> result Response.
Variable validate : RecordArgs -> result WeatherRecord.

(** The name under which a city is listed when it fails. *)
Definition label (c : city_info) : string := upper (cfg_country c) ++ "." ++ cfg_name c.

(** What the [try] block of a city comes to. *)
Definition outcome (c : city_info) : result WeatherRecord :=
  snd (process client network validate (cfg_name c) (upper (cfg_country c))).

Definition raises (c : city_info) : bool :=
  match outcome c with
  | Raise _ => true
  | OK _ => false
  end.

Definition fetched (c : city_info) : result json :=
  snd (fetch_weather client (network (cfg_name c) (upper (cfg_country c)))
                     (cfg_name c) (upper (cfg_country c))).

(** The records built, in the order of the cities. *)
Fixpoint built (cities : list city_info) : list WeatherRecord :=
  match cities with
  | [] => []
  | c :: rest =>
      match outcome c with
      | OK r => r :: built rest
      | Raise _ => built rest
      end
  end.

Lemma outcome_unfold (c : city_info) :
  outcome c = (raw <- fetched c ;;
               args <- record_args client (cfg_name c) (upper (cfg_country c)) raw ;;
               validate args).
Proof.
  unfold outcome, fetched, process.
  destruct (fetch_weather client (network (cfg_name c) (upper (cfg_country c)))
                          (cfg_name c) (upper (cfg_country c))) as [tr r].
  reflexivity.
Qed.

Lemma ingest_city_outcome (st : state) (c : city_info) :
  (forall e, outcome c = Raise e -> is_Exception e = true) ->
  exists st',
    ingest_city client network validate st c = OK st'
    /\ failed_cities st' = (failed_cities st ++ (if raises c then [label c] else []))%list
    /\ failed_cities_count st' = failed_cities_count st + (if raises c then 1 else 0)
    /\ success_count st' = success_count st + (if raises c then 0 else 1)
    /\ records st' = (records st ++ match outcome c with OK r => [r] | Raise _ => [] end)%list.
Proof.
  intros Hexc. unfold ingest_city, raises, outcome in *.
  destruct (process client network validate (cfg_name c) (upper (cfg_country c)))
    as [tr r].
  simpl in *. destruct r as [record|e].
  - eexists. split; [reflexivity|]. simpl.
    rewrite app_nil_r. repeat split; lia.
  - rewrite (Hexc e eq_refl).
    eexists. split; [reflexivity|]. simpl.
    rewrite app_nil_r. repeat split; lia.
Qed.

Lemma ingest_from (cities : list city_info) :
  forall st,
    (forall c e, In c cities -> outcome c = Raise e -> is_Exception e = true) ->
    exists st',
      ingest client network validate st cities = OK st'
      /\ failed_cities st' = (failed_cities st ++ map label (filter raises cities))%list
      /\ failed_cities_count st'
         = failed_cities_count st + Z.of_nat (List.length (filter raises cities))
      /\ success_count st'
         = success_count st
           + Z.of_nat (List.length (filter (fun c => negb (raises c)) cities))
      /\ records st' = (records st ++ built cities)%list.
Proof.
  induction cities as [|c cities IH]; intros st Hexc.
  - exists st. simpl. rewrite !app_nil_r. repeat split; lia.
  - destruct (ingest_city_outcome st c (fun e => Hexc c e (or_introl eq_refl)))
      as (st1 & Hstep & Hf & Hc & Hs & Hr).
    destruct (IH st1 (fun c' e Hin => Hexc c' e (or_intror Hin)))
      as (st' & Hrun & Hf' & Hc' & Hs' & Hr').
    exists st'. split; [simpl; rewrite Hstep; exact Hrun|].
    rewrite Hf', Hc', Hs', Hr', Hf, Hc, Hs, Hr.
    unfold raises in *. simpl.
    destruct (outcome c) as [r|e]; simpl; rewrite <- !app_assoc; simpl;
      repeat split; lia.
Qed.

End IngestFacts.

(** *** Fields a response lacks *)

(** The paths of the three times; the code hands what it finds there to
    [fromtimestamp]. *)
Definition time_paths : list (list key) :=
  [ [KStr "dt"]; [KStr "sys"; KStr "sunrise"]; [KStr "sys"; KStr "sunset"] ].

(** The paths of the other fields of a record. *)
Definition optional_paths : list (list key) :=
  [ [KStr "timezone"];
    [KStr "weather"; KInt 0; KStr "main"];
    [KStr "weather"; KInt 0; KStr "description"];
    [KStr "main"; KStr "temp_min"];
    [KStr "main"; KStr "temp_max"];
    [KStr "main"; KStr "temp"];
    [KStr "main"; KStr "feels_like"];
    [KStr "clouds"; KStr "all"];
    [KStr "wind"; KStr "speed"];
    [KStr "wind"; KStr "deg"];
    [KStr "main"; KStr "humidity"];
    [KStr "main"; KStr "pressure"] ].

Definition same_or_null (j' j : json) : Prop := j' = j \/ j' = JNull.

(** [raw'] is [raw] with some of the other fields missing (or null): the
    times are found as in [raw], every other field is found as in [raw] or
    not at all. *)
Definition lacks_fields (raw' raw : json) : Prop :=
  (forall p, In p time_paths -> get_field raw' p JNull = get_field raw p JNull)
  /\ (forall p, In p optional_paths ->
        same_or_null (get_field raw' p JNull) (get_field raw p JNull)).

(** The same arguments, some of the optional ones replaced by [None]. *)
Definition blanks (a' a : RecordArgs) : Prop :=
  a_city a' = a_city a /\ a_country a' = a_country a
  /\ a_timestamp a' = a_timestamp a
  /\ a_sunrise a' = a_sunrise a /\ a_sunset a' = a_sunset a
  /\ a_units a' = a_units a
  /\ same_or_null (a_timezone_offset a') (a_timezone_offset a)
  /\ same_or_null (a_weather a') (a_weather a)
  /\ same_or_null (a_weather_description a') (a_weather_description a)
  /\ same_or_null (a_temperature_min a') (a_temperature_min a)
  /\ same_or_null (a_temperature_max a') (a_temperature_max a)
  /\ same_or_null (a_temperature_current a') (a_temperature_current a)
  /\ same_or_null (a_temperature_feels_like a') (a_temperature_feels_like a)
  /\ same_or_null (a_cloudiness a') (a_cloudiness a)
  /\ same_or_null (a_wind_speed a') (a_wind_speed a)
  /\ same_or_null (a_wind_direction_deg a') (a_wind_direction_deg a)
  /\ same_or_null (a_humidity a') (a_humidity a)
  /\ same_or_null (a_pressure a') (a_pressure a).

(** What [Optional] means for the validation of the model: arguments that
    are accepted are still accepted when optional ones are [None]. *)
Definition optional_fields (validate : RecordArgs -> result WeatherRecord) : Prop :=
  forall a a' r, blanks a' a -> validate a = OK r -> exists r', validate a' = OK r'.

Lemma record_args_lacking (client : OpenWeatherClient) (city_name country_code : string)
      (raw' raw : json) (args : RecordArgs) :
  lacks_fields raw' raw ->
  record_args client city_name country_code raw = OK args ->
  exists args',
    record_args client city_name country_code raw' = OK args' /\ blanks args' args.
Proof.
  intros [Htimes Hopt] H. unfold record_args in *.
  rewrite (Htimes [KStr "dt"]) by (simpl; tauto).
  rewrite (Htimes [KStr "sys"; KStr "sunrise"]) by (simpl; tauto).
  rewrite (Htimes [KStr "sys"; KStr "sunset"]) by (simpl; tauto).
  apply bind_OK in H. destruct H as (ts & Hts & H). rewrite Hts.
  apply bind_OK in H. destruct H as (sr & Hsr & H). rewrite Hsr.
  apply bind_OK in H. destruct H as (ss & Hss & H). rewrite Hss.
  inversion H; subst args; clear H.
  eexists. split; [reflexivity|].
  unfold blanks.
  cbn [a_city a_country a_timestamp a_sunrise a_sunset a_units a_timezone_offset
       a_weather a_weather_description a_temperature_min a_temperature_max
       a_temperature_current a_temperature_feels_like a_cloudiness a_wind_speed
       a_wind_direction_deg a_humidity a_pressure].
  repeat (split; [first [reflexivity | apply Hopt; simpl; tauto]|]).
  apply Hopt. simpl. tauto.
Qed.

(** C7, as the code has it. When no exception outside [Exception] occurs,
    the loop ends and a city is recorded as failed (listed once, as
    COUNTRY.name, and counted) exactly when its [try] block raised: when the
    fetch raised, or when building the record from the response raised.  In
    particular a fetch that ends in its terminal error records the city as
    failed; every other city adds its record and is counted as a success.
    Fields that a response merely lacks, other than the three times, never
    make a city fail: when the response with these fields would have given a
    record, so does the response without them ([Optional] fields accept
    [None]), and the city is not recorded as failed. *)
Theorem ingest_records_failures :
  forall (client : OpenWeatherClient) (network : string -> string -> Z -> result Response)
         (validate : RecordArgs -> result WeatherRecord) (cities : list city_info),
    (forall c e, In c cities ->
       outcome client network validate c = Raise e -> is_Exception e = true) ->
    exists st,
      ingest client network validate initial cities = OK st
      /\ failed_cities st = map label (filter (raises client network validate) cities)
      /\ failed_cities_count st
         = Z.of_nat (List.length (filter (raises client network validate) cities))
      /\ success_count st
         = Z.of_nat (List.length
                       (filter (fun c => negb (raises client network validate c)) cities))
      /\ records st = built client network validate cities
      /\ (forall c, raises client network validate c = true <->
            (exists e, fetched client network c = Raise e)
            \/ (exists raw e,
                  fetched client network c = OK raw
                  /\ (args <- record_args client (cfg_name c) (upper (cfg_country c)) raw ;;
                      validate args) = Raise e))
      /\ (forall c e, In c cities -> fetched client network c = Raise e ->
            In (label c) (failed_cities st))
      /\ (optional_fields validate ->
          forall c raw' raw r,
            fetched client network c = OK raw' ->
            lacks_fields raw' raw ->
            (args <- record_args client (cfg_name c) (upper (cfg_country c)) raw ;;
             validate args) = OK r ->
            raises client network validate c = false).
Proof.
  intros client network validate cities Hexc.
  destruct (ingest_from client network validate cities initial Hexc)
    as (st & Hrun & Hf & Hc & Hs & Hr).
  simpl in Hf, Hc, Hs, Hr.
  assert (Hiff : forall c, raises client network validate c = true <->
            (exists e, fetched client network c = Raise e)
            \/ (exists raw e,
                  fetched client network c = OK raw
                  /\ (args <- record_args client (cfg_name c) (upper (cfg_country c)) raw ;;
                      validate args) = Raise e)).
  { intros c. unfold raises. rewrite outcome_unfold.
    destruct (fetched client network c) as [raw|e]; simpl.
    - destruct (bind (record_args client (cfg_name c) (upper (cfg_country c)) raw) _)
        as [r|e] eqn:E.
      + split; [discriminate|]. intros [[e H]|(raw' & e & Hraw & H)]; [discriminate|].
        inversion Hraw; subst raw'. simpl in H. congruence.
      + split; [|reflexivity]. intros _. right. exists raw, e. split; [reflexivity | exact E].
    - split; [|reflexivity]. intros _. left. exists e. reflexivity. }
  exists st. split; [exact Hrun|]. split; [exact Hf|]. split; [exact Hc|].
  split; [exact Hs|]. split; [exact Hr|]. split; [exact Hiff|]. split.
  - intros c e Hin Hfetch. rewrite Hf. apply in_map. apply filter_In. split; [exact Hin|].
    apply Hiff. left. exists e. exact Hfetch.
  - intros Hopt c raw' raw r Hfetch Hlack Hfull.
    apply bind_OK in Hfull. destruct Hfull as (args & Hargs & Hval).
    destruct (record_args_lacking client (cfg_name c) (upper (cfg_country c))
                                  raw' raw args Hlack Hargs) as (args' & Hargs' & Hblank).
    destruct (Hopt args args' r Hblank Hval) as (r' & Hval').
    unfold raises. rewrite outcome_unfold, Hfetch. simpl. rewrite Hargs'. simpl.
    rewrite Hval'. reflexivity.
Qed.

(** ** Worked batches *)

Example hive_compact_collision :
  paths_and_rows (write (new "data/weather" "csv" "hive_compact") run_time
                        [lisbon; lisbon_later] empty_fs)
  = [ (["data"; "weather"; "year=2024"; "month=1"; "day=5"; "PT"; "Lisbon";
        "PT_Lisbon_20240106_083000.csv"], 1%nat) ].
Proof. vm_compute. reflexivity. Qed.

Lemma write_follows_layout_table_witness :
  follows_table (new "data/weather" "csv" "date_country") run_time
                [lisbon; madrid; porto] empty_fs.
Proof.
  apply (proj1 write_follows_layout_table);
    first [discriminate | vm_compute; reflexivity].
Defined.

(** A record without a country, and one whose city name holds a slash. *)
Definition no_country : WeatherRecord :=
  mkWeatherRecord (Some "Lisbon") None (Some (utc 2024 1 5 12 0 7)) (Some 3600)
                  (Some "Clouds") (Some "few clouds")
                  (Some f22_5) (Some f22_5) (Some f22_5) (Some f22_5)
                  (Some 20) (Some f22_5) (Some 350) (Some 80) (Some 1013)
                  (Some (utc 2024 1 5 7 51 0)) (Some (utc 2024 1 5 17 28 0))
                  (Some "metric").

Definition biel : WeatherRecord := observation "Biel/Bienne" "CH" (utc 2024 1 5 12 0 7).

(** C2 as stated does not hold for every batch that is not empty.  Under
    date_country a record without a country belongs to no group: the write
    ends normally and the record is in no file, alone or next to a record
    that is written.  Under hive_compact a city name with a slash names a
    file in a directory that was not made: the write raises and stores
    nothing. *)
Lemma write_leaves_records_out :
  write (new "data/weather" "csv" "date_country") run_time [no_country] empty_fs
  = (empty_fs, OK tt)
  /\ paths_and_rows (write (new "data/weather" "csv" "date_country") run_time
                           [no_country; madrid] empty_fs)
     = [ (["data"; "weather"; "year=2024"; "month=1"; "day=5";
           "ES_weather_20240106_083000.csv"], 1%nat) ]
  /\ (exists fs',
        write (new "data/weather" "csv" "hive_compact") run_time [biel] empty_fs
        = (fs', raise OSError "Cannot save file into a non-existent directory")
        /\ files fs' = []).
Proof.
  split; [vm_compute; reflexivity|]. split; [vm_compute; reflexivity|].
  eexists. split; vm_compute; reflexivity.
Qed.


(** *** Configuration errors *)



(** *** Timestamps that are absent or do not parse *)

Definition without_timestamp : WeatherRecord :=
  mkWeatherRecord (Some "Lisbon") (Some "PT") None (Some 3600)
                  (Some "Clouds") (Some "few clouds")
                  (Some f22_5) (Some f22_5) (Some f22_5) (Some f22_5)
                  (Some 20) (Some f22_5) (Some 350) (Some 80) (Some 1013)
                  (Some (utc 2024 1 5 7 51 0)) (Some (utc 2024 1 5 17 28 0))
                  (Some "metric").

(** A timestamp beyond what a nanosecond timestamp can hold. *)
Definition far_future : WeatherRecord := observation "Lisbon" "PT" (utc 2300 1 1 0 0 0).

(** A timestamp that becomes NaT is left out: the batch writes nothing, the
    record next to it is written alone. *)
Example write_out_of_range_timestamp :
  write (new "data/weather" "csv" "date") run_time [far_future] empty_fs = (empty_fs, OK tt)
  /\ paths_and_rows (write (new "data/weather" "csv" "date") run_time
                           [far_future; lisbon] empty_fs)
     = [ (["data"; "weather"; "year=2024"; "month=1"; "day=5";
           "weather_20240106_083000.csv"], 1%nat) ].
Proof.
  split; vm_compute; reflexivity.
Qed.

(** C3 on the code. A record whose timestamp is absent is not left out: it
    makes the write raise, alone or next to a record that could have been
    written, and nothing is stored. *)
Theorem write_absent_timestamp_raises :
  write (new "data/weather" "csv" "date") run_time [without_timestamp] empty_fs
  = (empty_fs, raise AttributeError "'NoneType' object has no attribute 'strftime'")
  /\ write (new "data/weather" "csv" "date") run_time [lisbon; without_timestamp] empty_fs
     = (empty_fs, raise AttributeError "'NoneType' object has no attribute 'strftime'").
Proof.
  split; vm_compute; reflexivity.
Qed.

(** *** Responses with missing fields *)

Definition client_pt : OpenWeatherClient :=
  mkClient "https://api.example/weather" "k" "metric" 10 3 2.

Definition body_complete : json :=
  JDict [ (KStr "dt", JInt 1704456007);
          (KStr "timezone", JInt 0);
          (KStr "weather", JList [JDict [(KStr "main", JStr "Clouds");
                                         (KStr "description", JStr "few clouds")]]);
          (KStr "main", JDict [(KStr "temp", JFloat f22_5); (KStr "temp_min", JInt 20);
                               (KStr "temp_max", JInt 24); (KStr "feels_like", JInt 22);
                               (KStr "humidity", JInt 80); (KStr "pressure", JInt 1013)]);
          (KStr "clouds", JDict [(KStr "all", JInt 20)]);
          (KStr "wind", JDict [(KStr "speed", JFloat f22_5); (KStr "deg", JInt 350)]);
          (KStr "sys", JDict [(KStr "sunrise", JInt 1704441060);
                              (KStr "sunset", JInt 1704475680)]) ].

(** The same body without one top-level field. *)
Definition without_field (field : string) (body : json) : json :=
  match body with
  | JDict items => JDict (filter (fun e => negb (key_eqb (fst e) (KStr field))) items)
  | other => other
  end.

Definition answers (body : json) : string -> string -> Z -> result Response :=
  fun _ _ _ => OK (mkResponse 200 "OK" "https://api.example/weather" (OK body)).

Definition lisbon_cfg : city_info := mkCity "Lisbon" "pt".

(** A body whose [dt] is not a number. *)
Definition body_bad_dt : json :=
  match without_field "dt" body_complete with
  | JDict items => JDict ((KStr "dt", JStr "2024-01-05T12:00:07Z") :: items)
  | other => other
  end.

(** C7 as stated does not hold: the fetch succeeds at the first attempt, yet
    the city is listed and counted as failed, because the [dt] of the
    response is not a number and the record cannot be built from it. *)
Lemma malformed_dt_counts_as_failed :
  fetched client_pt (answers body_bad_dt) lisbon_cfg = OK body_bad_dt
  /\ exists out,
       ingest client_pt (answers body_bad_dt) exact_types initial [lisbon_cfg]
       = OK (mkState 0 1 ["PT.Lisbon"] [] out).
Proof.
  split; [vm_compute; reflexivity|]. eexists. vm_compute. reflexivity.
Qed.

(** The validation on exact types treats the optional fields as such. *)
Lemma as_str_blank (field : string) (j' j : json) (v : option string) :
  same_or_null j' j -> as_str field j = OK v -> exists v', as_str field j' = OK v'.
Proof.
  intros [->| ->] H; [exists v; exact H | exists None; reflexivity].
Qed.

Lemma as_int_blank (field : string) (j' j : json) (v : option Z) :
  same_or_null j' j -> as_int field j = OK v -> exists v', as_int field j' = OK v'.
Proof.
  intros [->| ->] H; [exists v; exact H | exists None; reflexivity].
Qed.

Lemma as_float_blank (field : string) (j' j : json) (v : option float) :
  same_or_null j' j -> as_float field j = OK v -> exists v', as_float field j' = OK v'.
Proof.
  intros [->| ->] H; [exists v; exact H | exists None; reflexivity].
Qed.

Lemma exact_types_optional : optional_fields exact_types.
Proof.
  intros a a' r Hb H. unfold exact_types in *.
  destruct Hb as (_ & _ & _ & _ & _ & _ & B1 & B2 & B3 & B4 & B5 & B6 & B7
                  & B8 & B9 & B10 & B11 & B12).
  apply bind_OK in H. destruct H as (v1 & H1 & H).
  destruct (as_int_blank _ _ _ _ B1 H1) as (w1 & E1). rewrite E1.
  apply bind_OK in H. destruct H as (v2 & H2 & H).
  destruct (as_str_blank _ _ _ _ B2 H2) as (w2 & E2). rewrite E2.
  apply bind_OK in H. destruct H as (v3 & H3 & H).
  destruct (as_str_blank _ _ _ _ B3 H3) as (w3 & E3). rewrite E3.
  apply bind_OK in H. destruct H as (v4 & H4 & H).
  destruct (as_float_blank _ _ _ _ B4 H4) as (w4 & E4). rewrite E4.
  apply bind_OK in H. destruct H as (v5 & H5 & H).
  destruct (as_float_blank _ _ _ _ B5 H5) as (w5 & E5). rewrite E5.
  apply bind_OK in H. destruct H as (v6 & H6 & H).
  destruct (as_float_blank _ _ _ _ B6 H6) as (w6 & E6). rewrite E6.
  apply bind_OK in H. destruct H as (v7 & H7 & H).
  destruct (as_float_blank _ _ _ _ B7 H7) as (w7 & E7). rewrite E7.
  apply bind_OK in H. destruct H as (v8 & H8 & H).
  destruct (as_int_blank _ _ _ _ B8 H8) as (w8 & E8). rewrite E8.
  apply bind_OK in H. destruct H as (v9 & H9 & H).
  destruct (as_float_blank _ _ _ _ B9 H9) as (w9 & E9). rewrite E9.
  apply bind_OK in H. destruct H as (v10 & H10 & H).
  destruct (as_int_blank _ _ _ _ B10 H10) as (w10 & E10). rewrite E10.
  apply bind_OK in H. destruct H as (v11 & H11 & H).
  destruct (as_int_blank _ _ _ _ B11 H11) as (w11 & E11). rewrite E11.
  apply bind_OK in H. destruct H as (v12 & H12 & H).
  destruct (as_int_blank _ _ _ _ B12 H12) as (w12 & E12). rewrite E12.
  eexists. reflexivity.
Qed.

Definition porto_cfg : city_info := mkCity "Porto" "pt".

(** Lisbon is answered, by a response without clouds and without wind; no
    connection is made for any other city. *)
Definition body_partial : json :=
  without_field "wind" (without_field "clouds" body_complete).

Definition lisbon_partial : string -> string -> Z -> result Response :=
  fun city _ _ =>
    if String.eqb city "Lisbon"
    then OK (mkResponse 200 "OK" "https://api.example/weather" (OK body_partial))
    else raise ConnectionError "connection refused".

(** Two cities: Lisbon, whose response lacks fields, gives a record; Porto,
    whose fetch ends in the terminal error, is listed as failed. *)
Lemma ingest_records_failures_witness :
  (exists r out,
     ingest client_pt lisbon_partial exact_types initial [lisbon_cfg; porto_cfg]
     = OK (mkState 1 1 ["PT.Porto"] [r] out)
     /\ cloudiness r = None /\ wind_speed r = None /\ wind_direction_deg r = None
     /\ fetched client_pt lisbon_partial porto_cfg
        = raise RuntimeError "Failed to fetch data for Porto,PT")
  /\ exists st,
    ingest client_pt lisbon_partial exact_types initial [lisbon_cfg; porto_cfg] = OK st
    /\ failed_cities st
       = map label (filter (raises client_pt lisbon_partial exact_types)
                           [lisbon_cfg; porto_cfg])
    /\ failed_cities_count st
       = Z.of_nat (List.length
                     (filter (raises client_pt lisbon_partial exact_types)
                             [lisbon_cfg; porto_cfg]))
    /\ success_count st
       = Z.of_nat (List.length
                     (filter (fun c => negb (raises client_pt lisbon_partial exact_types c))
                             [lisbon_cfg; porto_cfg]))
    /\ records st = built client_pt lisbon_partial exact_types [lisbon_cfg; porto_cfg]
    /\ (forall c, raises client_pt lisbon_partial exact_types c = true <->
          (exists e, fetched client_pt lisbon_partial c = Raise e)
          \/ (exists raw e,
                fetched client_pt lisbon_partial c = OK raw
                /\ (args <- record_args client_pt (cfg_name c) (upper (cfg_country c)) raw ;;
                    exact_types args) = Raise e))
    /\ (forall c e, In c [lisbon_cfg; porto_cfg] ->
          fetched client_pt lisbon_partial c = Raise e ->
          In (label c) (failed_cities st))
    /\ (optional_fields exact_types ->
        forall c raw' raw r,
          fetched client_pt lisbon_partial c = OK raw' ->
          lacks_fields raw' raw ->
          (args <- record_args client_pt (cfg_name c) (upper (cfg_country c)) raw ;;
           exact_types args) = OK r ->
          raises client_pt lisbon_partial exact_types c = false).
Proof.
  split.
  - eexists. eexists. split; [vm_compute; reflexivity|].
    repeat split; vm_compute; reflexivity.
  - apply (ingest_records_failures client_pt lisbon_partial exact_types
             [lisbon_cfg; porto_cfg]).
    intros c e [H|[H|[]]] E; subst c; vm_compute in E.
    + discriminate E.
    + inversion E. reflexivity.
Defined.

(** C6 on the code. The response lacks only [timezone]: the record is built
    and counted as a success, with the gap carried as [None]; formatting it
    raises, and so does the write, which stores nothing.  The same happens
    for a missing wind direction; and a missing [dt] stops the construction
    of the record itself. *)
Theorem missing_field_raises :
  (exists r out,
     ingest client_pt (answers (without_field "timezone" body_complete)) exact_types
            initial [lisbon_cfg]
     = OK (mkState 1 0 [] [r] out)
     /\ timezone_offset r = None
     /\ formatted_record r
        = raise TypeError "unsupported operand type(s) for //: 'NoneType' and 'int'"
     /\ write (new "data/weather" "csv" "date") run_time [r] empty_fs
        = (empty_fs,
           raise TypeError "unsupported operand type(s) for //: 'NoneType' and 'int'"))
  /\ (exists r out,
        ingest client_pt (answers (without_field "wind" body_complete)) exact_types
               initial [lisbon_cfg]
        = OK (mkState 1 0 [] [r] out)
        /\ wind_direction_deg r = None
        /\ write (new "data/weather" "csv" "date") run_time [r] empty_fs
           = (empty_fs,
              raise TypeError "unsupported operand type(s) for /: 'NoneType' and 'float'"))
  /\ record_args client_pt "Lisbon" "PT" (without_field "dt" body_complete)
     = raise TypeError "'NoneType' object cannot be interpreted as an integer".
Proof.
  split; [|split].
  - eexists. eexists. split; [vm_compute; reflexivity|].
    repeat split; vm_compute; reflexivity.
  - eexists. eexists. split; [vm_compute; reflexivity|].
    repeat split; vm_compute; reflexivity.
  - vm_compute. reflexivity.
Qed.

(* ================================================================== *)
(** * Further properties                                               *)
(* ================================================================== *)
(** ** The fetch client: answers, bounds, requests *)

Section FirstAnswer.

Variable self : OpenWeatherClient.
Variable query : string.
Variable params : list (string * string).

Hypothesis backoff_ok : 0 <= backoff_seconds self.

(** How the loop ends on an attempt that does not fail. *)
Definition exit_of (r : result json) : loop_exit :=
  match r with
  | OK body => Returned body
  | Raise e => Raised e
  end.

(** The attempts [a, ..., k] when [k] is the first that does not fail: one
    call per attempt, a sleep of the configured length after each failure,
    the call of attempt [k] last, and the exit attempt [k] decides.  The
    answers to later attempts play no part. *)
Lemma attempts_until (network network' : Z -> result Response) (n : nat) :
  forall a k,
    Z.of_nat n = k - a -> a <= k <= max_retries self ->
    (forall j, a <= j < k -> fails (network j) = true) ->
    fails (network k) = false ->
    (forall j, a <= j <= k -> network' j = network j) ->
    exists tr,
      attempts self network query params (range a (max_retries self + 1))
      = ((tr ++ [EGet (base_url self) params (timeout self)])%list,
         exit_of (try_body (network k)))
      /\ attempts self network' query params (range a (max_retries self + 1))
         = attempts self network query params (range a (max_retries self + 1))
      /\ attempts_made tr = Z.of_nat n
      /\ sleeps tr = repeat (backoff_seconds self) n.
Proof.
  induction n as [|n IH]; intros a k Hn Hk Hfail Hans Hsame.
  - assert (a = k) by lia. subst a.
    rewrite range_cons by lia. simpl. rewrite (Hsame k ltac:(lia)).
    unfold fails in Hans.
    exists []. destruct (try_body (network k)) as [body|e].
    + repeat split.
    + rewrite Hans. repeat split.
  - rewrite range_cons by lia. simpl. rewrite (Hsame a ltac:(lia)).
    pose proof (Hfail a ltac:(lia)) as Hf. unfold fails in Hf.
    destruct (try_body (network a)) as [body|e]; [discriminate Hf|].
    rewrite Hf.
    assert (Elt : (a <? max_retries self) = true) by (apply Z.ltb_lt; lia).
    rewrite Elt.
    assert (Eb : (backoff_seconds self <? 0) = false) by (apply Z.ltb_ge; lia).
    rewrite Eb.
    destruct (IH (a + 1) k ltac:(lia) ltac:(lia)) as (tr & Htr & Hsm & Hmade & Hsl).
    { intros j Hj. apply Hfail. lia. }
    { exact Hans. }
    { intros j Hj. apply Hsame. lia. }
    rewrite Hsm, Htr.
    eexists (_ :: _ :: _ :: tr). split; [reflexivity|]. split; [reflexivity|]. split.
    + unfold attempts_made in *. simpl. lia.
    + simpl. rewrite Hsl. reflexivity.
Qed.

End FirstAnswer.

Lemma attempts_made_app (tr1 tr2 : list event) :
  attempts_made (tr1 ++ tr2) = attempts_made tr1 + attempts_made tr2.
Proof.
  unfold attempts_made. rewrite filter_app, length_app. lia.
Qed.

Lemma sleeps_app (tr1 tr2 : list event) : sleeps (tr1 ++ tr2) = (sleeps tr1 ++ sleeps tr2)%list.
Proof.
  induction tr1 as [|e tr1 IH]; [reflexivity|].
  destruct e; simpl; rewrite IH; reflexivity.
Qed.

(** X1. The fetch returns the body of the first attempt that succeeds: when
    attempts 1 to k-1 fail with an exception of [requests] and attempt k
    (k within the limit) answers, the body of attempt k is returned after
    exactly k calls and k-1 sleeps of the configured length, the last event
    being the call that succeeded; what later attempts would have answered
    is never looked at. *)
Theorem fetch_weather_first_success :
  forall (self : OpenWeatherClient) (network : Z -> result Response)
         (city country : string) (k : Z) (body : json),
    0 <= backoff_seconds self ->
    1 <= k <= max_retries self ->
    (forall j, 1 <= j < k -> fails (network j) = true) ->
    try_body (network k) = OK body ->
    exists tr,
      fetch_weather self network city country = (tr, OK body)
      /\ attempts_made tr = k
      /\ sleeps tr = repeat (backoff_seconds self) (Z.to_nat (k - 1))
      /\ (forall d, is_get (last tr d) = true)
      /\ (forall network' : Z -> result Response,
            (forall j, 1 <= j <= k -> network' j = network j) ->
            fetch_weather self network' city country = (tr, OK body)).
Proof.
  intros self network city country k body Hb Hk Hfail Hok.
  assert (Hans : fails (network k) = false) by (unfold fails; rewrite Hok; reflexivity).
  assert (Hrun : forall network' : Z -> result Response,
            (forall j, 1 <= j <= k -> network' j = network j) ->
            exists tr,
              fetch_weather self network' city country = (tr, OK body)
              /\ fetch_weather self network city country = (tr, OK body)
              /\ attempts_made tr = k
              /\ sleeps tr = repeat (backoff_seconds self) (Z.to_nat (k - 1))
              /\ (forall d, is_get (last tr d) = true)).
  { intros network' Hsame.
    destruct (attempts_until self (city ++ "," ++ country)
                [("q", city ++ "," ++ country); ("appid", api_key self); ("units", units self)]
                Hb network network' (Z.to_nat (k - 1)) 1 k
                ltac:(lia) ltac:(lia) Hfail Hans Hsame)
      as (tr & Htr & Hsm & Hmade & Hsl).
    unfold fetch_weather. rewrite Hsm, Htr, Hok. simpl exit_of.
    eexists. split; [reflexivity|]. split; [reflexivity|]. split; [|split].
    - rewrite attempts_made_app, Hmade. unfold attempts_made. simpl. lia.
    - rewrite sleeps_app, Hsl. simpl. apply app_nil_r.
    - intros d. rewrite last_last. reflexivity. }
  destruct (Hrun network (fun j _ => eq_refl)) as (tr & _ & Htr & Hmade & Hsl & Hlast).
  exists tr. split; [exact Htr|]. split; [exact Hmade|]. split; [exact Hsl|].
  split; [exact Hlast|].
  intros network' Hsame.
  destruct (Hrun network' Hsame) as (tr' & Htr' & Htr2 & _).
  rewrite Htr in Htr2. inversion Htr2; subst tr'. exact Htr'.
Qed.

(** The third attempt answers, after a timeout and a 503. *)
Definition flaky (attempt : Z) : result Response :=
  if attempt =? 1 then raise Timeout "timed out"
  else if attempt =? 2 then
    OK (mkResponse 503 "Service Unavailable" "https://api.example/weather" (OK JNull))
  else OK (mkResponse 200 "OK" "https://api.example/weather" (OK (JDict [(KStr "dt", JInt 0)]))).

Lemma fetch_weather_first_success_witness :
  exists tr,
    fetch_weather client3 flaky "Lisbon" "PT" = (tr, OK (JDict [(KStr "dt", JInt 0)]))
    /\ attempts_made tr = 3
    /\ sleeps tr = repeat (backoff_seconds client3) (Z.to_nat (3 - 1))
    /\ (forall d, is_get (last tr d) = true)
    /\ (forall network' : Z -> result Response,
          (forall j, 1 <= j <= 3 -> network' j = flaky j) ->
          fetch_weather client3 network' "Lisbon" "PT"
          = (tr, OK (JDict [(KStr "dt", JInt 0)]))).
Proof.
  apply (fetch_weather_first_success client3 flaky "Lisbon" "PT" 3).
  - simpl. lia.
  - simpl. lia.
  - intros j Hj. assert (j = 1 \/ j = 2) as [E|E] by lia; subst j; reflexivity.
  - reflexivity.
Defined.

(** X2. An exception that is not one of [requests] is not retried: when
    attempts 1 to k-1 fail with an exception of [requests] and attempt k
    raises anything else (a keyboard interrupt, for instance), the fetch
    raises that very exception after k calls, without a warning for it and
    without a further attempt. *)
Theorem fetch_weather_other_exception :
  forall (self : OpenWeatherClient) (network : Z -> result Response)
         (city country : string) (k : Z) (e : exn),
    0 <= backoff_seconds self ->
    1 <= k <= max_retries self ->
    (forall j, 1 <= j < k -> fails (network j) = true) ->
    try_body (network k) = Raise e ->
    is_RequestException e = false ->
    exists tr,
      fetch_weather self network city country = (tr, Raise e)
      /\ attempts_made tr = k
      /\ sleeps tr = repeat (backoff_seconds self) (Z.to_nat (k - 1))
      /\ (forall d, is_get (last tr d) = true).
Proof.
  intros self network city country k e Hb Hk Hfail Hraise Hother.
  assert (Hans : fails (network k) = false) by (unfold fails; rewrite Hraise; exact Hother).
  destruct (attempts_until self (city ++ "," ++ country)
              [("q", city ++ "," ++ country); ("appid", api_key self); ("units", units self)]
              Hb network network (Z.to_nat (k - 1)) 1 k
              ltac:(lia) ltac:(lia) Hfail Hans (fun j _ => eq_refl))
    as (tr & Htr & _ & Hmade & Hsl).
  unfold fetch_weather. rewrite Htr, Hraise. simpl exit_of.
  eexists. split; [reflexivity|]. split; [|split].
  - rewrite attempts_made_app, Hmade. unfold attempts_made. simpl. lia.
  - rewrite sleeps_app, Hsl. simpl. apply app_nil_r.
  - intros d. rewrite last_last. reflexivity.
Qed.

Lemma fetch_weather_other_exception_witness :
  exists tr,
    fetch_weather client3 (fun _ => raise KeyboardInterrupt "") "Lisbon" "PT"
    = (tr, Raise (mkExn KeyboardInterrupt ""))
    /\ attempts_made tr = 1
    /\ sleeps tr = repeat (backoff_seconds client3) (Z.to_nat (1 - 1))
    /\ (forall d, is_get (last tr d) = true).
Proof.
  apply (fetch_weather_other_exception client3 (fun _ => raise KeyboardInterrupt "")
           "Lisbon" "PT" 1 (mkExn KeyboardInterrupt "")).
  - simpl. lia.
  - simpl. lia.
  - intros j Hj. lia.
  - reflexivity.
  - reflexivity.
Defined.

(** What holds of the trace of any run of the loop over the attempts
    [a, ..., max_retries]: at most one call per attempt, every call with the
    same arguments, fewer sleeps than calls, every sleep of the configured
    length. *)
Definition well_paced (self : OpenWeatherClient) (params : list (string * string))
           (todo : Z) (tr : list event) : Prop :=
  attempts_made tr <= Z.max 0 todo
  /\ Z.of_nat (List.length (sleeps tr)) <= Z.max 0 (attempts_made tr - 1)
  /\ (forall s, In s (sleeps tr) -> s = backoff_seconds self)
  /\ (forall e, In e tr -> is_get e = true ->
        e = EGet (base_url self) params (timeout self)).

Ltac in_cases :=
  repeat match goal with
         | H : In _ [] |- _ => destruct H
         | H : In _ (_ :: _) |- _ => destruct H as [H|H]
         | H : _ \/ _ |- _ => destruct H as [H|H]
         | H : False |- _ => destruct H
         end.

Ltac paced Hlen Hget :=
  cbn [fst filter is_get sleeps List.length]; repeat split; try lia;
  intros; in_cases; subst;
  first [reflexivity | discriminate | symmetry; assumption
        | apply Hlen; assumption | apply Hget; assumption].

Lemma attempts_well_paced (self : OpenWeatherClient) (network : Z -> result Response)
      (query : string) (params : list (string * string)) (n : nat) :
  forall a,
    Z.of_nat n = Z.max 0 (max_retries self + 1 - a) ->
    well_paced self params (Z.of_nat n)
               (fst (attempts self network query params (range a (max_retries self + 1)))).
Proof.
  unfold well_paced.
  induction n as [|n IH]; intros a Hn.
  - rewrite range_empty by lia. unfold attempts_made. simpl.
    repeat split; try lia; intros ? [].
  - rewrite range_cons by lia. simpl attempts.
    specialize (IH (a + 1) ltac:(lia)).
    destruct (attempts self network query params (range (a + 1) (max_retries self + 1)))
      as [tr ex] eqn:Erest.
    simpl fst in IH. destruct IH as (Hmade & Hcount & Hlen & Hget).
    unfold attempts_made in *.
    destruct (try_body (network a)) as [body|e]; [paced Hlen Hget|].
    destruct (is_RequestException e); [|paced Hlen Hget].
    destruct (a <? max_retries self) eqn:Elt; [|paced Hlen Hget].
    destruct (backoff_seconds self <? 0); [paced Hlen Hget|].
    apply Z.ltb_lt in Elt.
    assert (Hnext : range (a + 1) (max_retries self + 1)
                    = (a + 1) :: range (a + 1 + 1) (max_retries self + 1))
      by (apply range_cons; lia).
    assert (Hone : (1 <= List.length (filter is_get tr))%nat).
    { rewrite Hnext in Erest. simpl in Erest.
      repeat match type of Erest with
             | context [match ?x with _ => _ end] => destruct x
             | context [if ?b then _ else _] => destruct b
             end;
        inversion Erest; subst; simpl; lia. }
    paced Hlen Hget.
Qed.

(** X3. Whatever the network answers and whatever the configuration, one
    fetch never makes more calls than the attempt limit (none when the limit
    is zero or negative), always sleeps fewer times than it calls, only ever
    sleeps for the configured backoff, and sends every call to the configured
    URL with the same parameters q = "City,Country", appid and units and the
    configured timeout. *)
Theorem fetch_weather_bounded :
  forall (self : OpenWeatherClient) (network : Z -> result Response) (city country : string),
    let tr := fst (fetch_weather self network city country) in
    attempts_made tr <= Z.max 0 (max_retries self)
    /\ Z.of_nat (List.length (sleeps tr)) <= Z.max 0 (attempts_made tr - 1)
    /\ (forall s, In s (sleeps tr) -> s = backoff_seconds self)
    /\ (forall e, In e tr -> is_get e = true ->
          e = EGet (base_url self)
                   [("q", city ++ "," ++ country); ("appid", api_key self);
                    ("units", units self)]
                   (timeout self)).
Proof.
  intros self network city country.
  pose proof (attempts_well_paced self network (city ++ "," ++ country)
                [("q", city ++ "," ++ country); ("appid", api_key self); ("units", units self)]
                (Z.to_nat (Z.max 0 (max_retries self))) 1 ltac:(lia)) as H.
  unfold well_paced in H. unfold fetch_weather.
  destruct (attempts self network (city ++ "," ++ country) _ (range 1 (max_retries self + 1)))
    as [tr ex].
  simpl in *. rewrite Z2Nat.id in H by lia.
  destruct H as (H1 & H2). split; [lia | exact H2].
Qed.

(** X4. With an attempt limit of zero or less the fetch makes no call at
    all: it raises the terminal error at once, with an empty trace. *)
Theorem fetch_weather_no_attempt :
  forall (self : OpenWeatherClient) (network : Z -> result Response) (city country : string),
    max_retries self <= 0 ->
    fetch_weather self network city country
    = ([], raise RuntimeError ("Failed to fetch data for " ++ city ++ "," ++ country)).
Proof.
  intros self network city country H.
  unfold fetch_weather. rewrite range_empty by lia. reflexivity.
Qed.

Definition client0 : OpenWeatherClient := mkClient "https://api.example/weather" "k" "metric" 10 0 2.

Lemma fetch_weather_no_attempt_witness :
  fetch_weather client0 (fun _ => OK multiple_choices) "Lisbon" "PT"
  = ([], raise RuntimeError ("Failed to fetch data for " ++ "Lisbon" ++ "," ++ "PT")).
Proof.
  apply (fetch_weather_no_attempt client0 (fun _ => OK multiple_choices) "Lisbon" "PT").
  simpl. lia.
Defined.

(** X5. A negative backoff makes the first failure final: with a limit of at
    least two attempts, when the first attempt fails the sleep between
    attempts is refused with a [ValueError], which leaves the fetch after one
    call and one warning; no second attempt is made and the terminal error
    of the fetch is not the one raised. *)
Theorem fetch_weather_negative_backoff :
  forall (self : OpenWeatherClient) (network : Z -> result Response) (city country : string),
    backoff_seconds self < 0 ->
    2 <= max_retries self ->
    fails (network 1) = true ->
    exists warning,
      fetch_weather self network city country
      = ([EGet (base_url self)
               [("q", city ++ "," ++ country); ("appid", api_key self); ("units", units self)]
               (timeout self);
          EWarning warning],
         raise ValueError "sleep length must be non-negative").
Proof.
  intros self network city country Hb Hn Hfail.
  unfold fetch_weather. rewrite range_cons by lia. simpl attempts.
  unfold fails in Hfail.
  destruct (try_body (network 1)) as [body|e]; [discriminate Hfail|].
  rewrite Hfail.
  assert (E1 : (1 <? max_retries self) = true) by (apply Z.ltb_lt; lia).
  assert (E2 : (backoff_seconds self <? 0) = true) by (apply Z.ltb_lt; lia).
  rewrite E1, E2. eexists. reflexivity.
Qed.

Definition client_neg : OpenWeatherClient :=
  mkClient "https://api.example/weather" "k" "metric" 10 3 (-1).

Lemma fetch_weather_negative_backoff_witness :
  exists warning,
    fetch_weather client_neg (fun _ => raise Timeout "timed out") "Lisbon" "PT"
    = ([EGet (base_url client_neg)
             [("q", "Lisbon" ++ "," ++ "PT"); ("appid", api_key client_neg);
              ("units", units client_neg)]
             (timeout client_neg);
        EWarning warning],
       raise ValueError "sleep length must be non-negative").
Proof.
  apply (fetch_weather_negative_backoff client_neg (fun _ => raise Timeout "timed out")
           "Lisbon" "PT").
  - simpl. lia.
  - simpl. lia.
  - reflexivity.
Defined.

(** ** The field extractor on joined paths *)

Lemma get_field_prefix (p1 : list key) :
  forall d p2 default,
    (exists v, reaches d p1 v
               /\ get_field d (p1 ++ p2) default = get_field v p2 default)
    \/ ((forall v, ~ reaches d p1 v) /\ get_field d (p1 ++ p2) default = default).
Proof.
  induction p1 as [|k rest IH]; intros d p2 default.
  - left. exists d. split; [constructor | reflexivity].
  - destruct (get_field_total [k] d default) as [[v Hv] | [Hno _]].
    + inversion Hv as [|d' k' w rest' r Hstep Hrest]; subst.
      inversion Hrest; subst.
      change ((k :: rest) ++ p2)%list with (k :: (rest ++ p2))%list.
      rewrite (get_field_step d k v (rest ++ p2) default Hstep).
      destruct (IH v p2 default) as [(r & Hr & Heq) | [Hnone Heq]].
      * left. exists r. split; [econstructor; eassumption | exact Heq].
      * right. split; [|exact Heq].
        intros r Hr. inversion Hr as [|d' k' w rest' r' Hstep' Hrest']; subst.
        rewrite (descends_functional d k w v Hstep' Hstep) in Hrest'.
        apply (Hnone r). exact Hrest'.
    + assert (Hstuck : forall v, ~ descends d k v).
      { intros v Hv. apply (Hno v). econstructor; [exact Hv | constructor]. }
      right. split.
      * intros r Hr. inversion Hr; subst. eapply Hstuck. eassumption.
      * change ((k :: rest) ++ p2)%list with (k :: (rest ++ p2))%list.
        apply get_field_stuck. exact Hstuck.
Qed.

(** X6. Extracting along a joined path is extracting along its first part
    and then, from the value reached, along the second part with the same
    default; when the first part cannot be walked the default is returned
    whatever the second part is.  (Feeding the extractor its own result is
    not the same: a default that is itself a container could be walked.) *)
Theorem get_field_joined_path :
  (forall d p1 p2 default v,
     reaches d p1 v -> get_field d (p1 ++ p2) default = get_field v p2 default)
  /\ (forall d p1 p2 default,
        (forall v, ~ reaches d p1 v) -> get_field d (p1 ++ p2) default = default)
  /\ (exists d p1 p2 default,
        get_field (get_field d p1 default) p2 default <> get_field d (p1 ++ p2) default).
Proof.
  split; [|split].
  - intros d p1 p2 default v Hv.
    destruct (get_field_prefix p1 d p2 default) as [(w & Hw & Heq) | [Hno _]].
    + rewrite Heq. f_equal.
      rewrite <- (get_field_reaches p1 d default w Hw).
      rewrite <- (get_field_reaches p1 d default v Hv). reflexivity.
    + exfalso. apply (Hno v). exact Hv.
  - intros d p1 p2 default Hno.
    destruct (get_field_prefix p1 d p2 default) as [(w & Hw & _) | [_ Heq]].
    + exfalso. apply (Hno w). exact Hw.
    + exact Heq.
  - exists (JDict []), [KStr "a"], [KStr "b"], (JDict [(KStr "b", JInt 1)]).
    simpl. discriminate.
Qed.

Lemma get_field_joined_path_witness :
  get_field (JDict [(KStr "sys", JDict [(KStr "sunrise", JInt 7)])])
            ([KStr "sys"] ++ [KStr "sunrise"]) JNull
  = get_field (JDict [(KStr "sunrise", JInt 7)]) [KStr "sunrise"] JNull.
Proof.
  apply (proj1 get_field_joined_path).
  eapply reaches_step; [|apply reaches_here].
  apply (descends_dict [] []). intros [].
Defined.

(** ** Column names of a formatted record *)

(** The last piece of a text that ends with a separator and a word. *)
Lemma pieces_last_word (sep : ascii -> bool) (c : ascii) (u : string) :
  sep c = true -> no_sep sep u = true -> u <> "" ->
  forall s cur, exists l, pieces sep cur (s ++ String c u) = (l ++ [u])%list.
Proof.
  intros Hc Hu Hne.
  assert (Hword : pieces sep "" u = [u]).
  { rewrite <- (append_nil_r u) at 1. rewrite pieces_app by exact Hu.
    simpl. destruct u; [congruence | reflexivity]. }
  induction s as [|x s IH]; intros cur.
  - simpl. rewrite Hc, Hword. destruct cur.
    + exists []. reflexivity.
    + exists [String a cur]. reflexivity.
  - simpl. destruct (sep x).
    + destruct (IH "") as (l & Hl). rewrite Hl. destruct cur.
      * exists l. reflexivity.
      * exists (String a cur :: l). reflexivity.
    + apply IH.
Qed.

Lemma last_item_word (s u : string) :
  no_sep is_space u = true -> u <> "" ->
  last_item (split (s ++ " " ++ u)) = OK u.
Proof.
  intros Hu Hne. unfold split, last_item.
  destruct (pieces_last_word is_space " "%char u eq_refl Hu Hne s "") as (l & Hl).
  change (s ++ " " ++ u) with (s ++ String " " u). rewrite Hl.
  rewrite rev_app_distr. reflexivity.
Qed.

(** The unit of the temperature columns and of the wind speed column, as
    the unit system of the record decides them. *)
Definition temperature_unit (u : option string) : string :=
  if opt_string_eqb u "metric" then "°C"
  else if opt_string_eqb u "imperial" then "°F"
  else "K".

Definition wind_speed_unit (u : option string) : string :=
  if orb (opt_string_eqb u "metric") (opt_string_eqb u "default") then "m/s" else "mph".

Definition headers (u : option string) : list string :=
  [ "City"; "Country"; "Timestamp"; "Timezone"; "Weather"; "Weather_Description";
    "Cloudiness_(%)";
    "Temperature_Current_(" ++ temperature_unit u ++ ")";
    "Temperature_Min_(" ++ temperature_unit u ++ ")";
    "Temperature_Max_(" ++ temperature_unit u ++ ")";
    "Temperature_Feels_Like_(" ++ temperature_unit u ++ ")";
    "Wind_Speed_(" ++ wind_speed_unit u ++ ")";
    "Wind_Direction"; "Humidity_(%)"; "Pressure_(hPa)"; "Sunrise"; "Sunset" ].

Lemma temperature_unit_word (u : option string) :
  no_sep is_space (temperature_unit u) = true /\ temperature_unit u <> "".
Proof.
  unfold temperature_unit.
  destruct (opt_string_eqb u "metric"); [split; [reflexivity | discriminate]|].
  destruct (opt_string_eqb u "imperial"); split; first [reflexivity | discriminate].
Qed.

Lemma wind_speed_unit_word (u : option string) :
  no_sep is_space (wind_speed_unit u) = true /\ wind_speed_unit u <> "".
Proof.
  unfold wind_speed_unit.
  destruct (orb _ _); split; first [reflexivity | discriminate].
Qed.

(** The text of a temperature field always carries the temperature unit. *)
Lemma field_with_units_temperature (self : WeatherRecord) (name : string) :
  In name ["temperature_current"; "temperature_min"; "temperature_max";
           "temperature_feels_like"] ->
  exists v, getattr self name = OK v
            /\ field_with_units self name = OK (str v ++ " " ++ temperature_unit (Models.units self)).
Proof.
  intros Hin. unfold temperature_unit.
  assert (Hc : contains "temperature" name = true)
    by (in_cases; subst; reflexivity).
  assert (Hg : exists v, getattr self name = OK v)
    by (in_cases; subst; eexists; reflexivity).
  destruct Hg as (v & Hg). exists v. split; [exact Hg|].
  unfold field_with_units. rewrite Hc, Hg.
  destruct (opt_string_eqb (Models.units self) "metric"); [reflexivity|].
  destruct (opt_string_eqb (Models.units self) "imperial"); [reflexivity|].
  destruct (opt_string_eqb (Models.units self) "default"); reflexivity.
Qed.

Lemma field_with_units_wind_speed (self : WeatherRecord) :
  field_with_units self "wind_speed"
  = OK (str (of_opt VFloat (wind_speed self)) ++ " " ++ wind_speed_unit (Models.units self)).
Proof.
  unfold field_with_units, wind_speed_unit.
  change (contains "temperature" "wind_speed") with false.
  change (getattr self "wind_speed") with (OK (of_opt VFloat (wind_speed self))).
  cbn [String.eqb Ascii.eqb Bool.eqb].
  destruct (orb _ _); reflexivity.
Qed.

Lemma header_unit_temperature (self : WeatherRecord) (name : string) :
  In name ["temperature_current"; "temperature_min"; "temperature_max";
           "temperature_feels_like"] ->
  header_unit self name = OK (temperature_unit (Models.units self)).
Proof.
  intros Hin. unfold header_unit.
  destruct (field_with_units_temperature self name Hin) as (v & _ & Hf).
  rewrite Hf. simpl bind.
  destruct (temperature_unit_word (Models.units self)) as [Hw Hne].
  apply last_item_word; assumption.
Qed.

Lemma header_unit_wind_speed (self : WeatherRecord) :
  header_unit self "wind_speed" = OK (wind_speed_unit (Models.units self)).
Proof.
  unfold header_unit. rewrite field_with_units_wind_speed. simpl bind.
  destruct (wind_speed_unit_word (Models.units self)) as [Hw Hne].
  apply last_item_word; assumption.
Qed.

(** The formatted record, with the units of its headers resolved. *)
Lemma formatted_record_unfold (self : WeatherRecord) :
  formatted_record self
  = (ts <- format_datetime (timestamp self) ;;
     tz <- timezone_str self ;;
     wd <- wind_direction_compass self ;;
     sr <- format_datetime (sunrise self) ;;
     ss <- format_datetime (sunset self) ;;
     OK (combine (headers (Models.units self))
           [ cell_of CStr (city self); cell_of CStr (country self); CStr ts; CStr tz;
             cell_of CStr (weather self); cell_of CStr (weather_description self);
             cell_of CInt (cloudiness self);
             cell_of CFloat (temperature_current self);
             cell_of CFloat (temperature_min self);
             cell_of CFloat (temperature_max self);
             cell_of CFloat (temperature_feels_like self);
             cell_of CFloat (wind_speed self);
             CStr wd; cell_of CInt (humidity self); cell_of CInt (pressure self);
             CStr sr; CStr ss ])).
Proof.
  unfold formatted_record.
  rewrite !header_unit_temperature by (simpl; tauto).
  rewrite header_unit_wind_speed.
  reflexivity.
Qed.

Lemma headers_NoDup (u : option string) : NoDup (headers u).
Proof.
  unfold headers, temperature_unit, wind_speed_unit.
  destruct (opt_string_eqb u "metric"); destruct (opt_string_eqb u "imperial");
    destruct (opt_string_eqb u "default"); cbn [orb];
    repeat (constructor; [simpl; intuition discriminate|]); constructor.
Qed.

(** X7. The column names of a formatted record are decided by the unit
    system of the record alone, whatever the values are (a missing
    temperature still gets its unit): seventeen names, no two alike, in the
    order of the source; the temperature columns end in (°C) for metric,
    (°F) for imperial and (K) for anything else, the wind speed column in
    (m/s) for metric and default and in (mph) for anything else.  Two records
    with the same unit system have the same column names. *)
Theorem formatted_record_headers :
  forall (self : WeatherRecord) (d : dict),
    formatted_record self = OK d ->
    map fst d = headers (Models.units self)
    /\ List.length d = 17%nat
    /\ NoDup (map fst d)
    /\ (forall other d', formatted_record other = OK d' ->
          Models.units other = Models.units self -> map fst d' = map fst d).
Proof.
  assert (Hkeys : forall r d, formatted_record r = OK d -> map fst d = headers (Models.units r)).
  { intros r d H. rewrite formatted_record_unfold in H.
    repeat (apply bind_OK in H; destruct H as (? & _ & H)).
    inversion H; subst d. reflexivity. }
  intros self d H. pose proof (Hkeys self d H) as Hk.
  split; [exact Hk|]. split; [|split].
  - rewrite <- (length_map fst), Hk. reflexivity.
  - rewrite Hk. apply headers_NoDup.
  - intros other d' H' Hu. rewrite Hk, (Hkeys other d' H'), Hu. reflexivity.
Qed.

Lemma formatted_record_headers_witness :
  map fst (dict_of lisbon) = headers (Models.units lisbon)
  /\ List.length (dict_of lisbon) = 17%nat
  /\ NoDup (map fst (dict_of lisbon))
  /\ (forall other d', formatted_record other = OK d' ->
        Models.units other = Models.units lisbon -> map fst d' = map fst (dict_of lisbon)).
Proof.
  apply (formatted_record_headers lisbon (dict_of lisbon)).
  vm_compute. reflexivity.
Defined.

(** The five values a formatted record is computed from. *)
Definition derived_present (self : WeatherRecord) : bool :=
  match timestamp self, timezone_offset self, wind_direction_deg self,
        sunrise self, sunset self with
  | Some _, Some _, Some _, Some _, Some _ => true
  | _, _, _, _, _ => false
  end.

(** X8. Formatting a record succeeds exactly when the five values the
    derived columns are computed from are present: the observation time, the
    timezone offset, the wind direction (here between -3600 and 3600
    degrees), the sunrise and the sunset.  When one of them is [None] the
    formatting raises an [AttributeError] or a [TypeError]; the thirteen
    other attributes may all be [None], they are copied as they are. *)
Theorem formatted_record_needs_derived :
  forall (self : WeatherRecord),
    (forall deg, wind_direction_deg self = Some deg -> -3600 <= deg <= 3600) ->
    (derived_present self = true -> exists d, formatted_record self = OK d)
    /\ (derived_present self = false ->
        exists e, formatted_record self = Raise e
                  /\ (exn_cls e = AttributeError \/ exn_cls e = TypeError)).
Proof.
  intros self Hdeg. rewrite formatted_record_unfold.
  unfold derived_present, format_datetime, timezone_str, wind_direction_compass.
  destruct (timestamp self) as [ts|].
  2:{ split; [discriminate|]. intros _. eexists. split; [reflexivity | left; reflexivity]. }
  destruct (timezone_offset self) as [off|].
  2:{ split; [discriminate|]. intros _. eexists. split; [reflexivity | right; reflexivity]. }
  assert (Htz : exists tz,
            (if off / 3600 =? 0 then OK "UTC"
             else OK ("UTC" ++ (if off / 3600 >? 0 then "+" else "-")
                            ++ str_int (Z.abs (off / 3600)))) = OK tz)
    by (destruct (off / 3600 =? 0); eexists; reflexivity).
  destruct Htz as (tz & Htz). cbv zeta. rewrite Htz.
  destruct (wind_direction_deg self) as [deg|] eqn:Ew.
  2:{ split; [discriminate|]. intros _. eexists. split; [reflexivity | right; reflexivity]. }
  pose proof (compass_agrees_on_range deg (Hdeg deg eq_refl)) as Hc.
  unfold compass_agrees in Hc.
  destruct (compass_of (PyInt deg)) as [wd|e]; [clear Hc | discriminate Hc].
  destruct (sunrise self) as [sr|].
  2:{ split; [discriminate|]. intros _. eexists. split; [reflexivity | left; reflexivity]. }
  destruct (sunset self) as [ss|].
  2:{ split; [discriminate|]. intros _. eexists. split; [reflexivity | left; reflexivity]. }
  split; [|discriminate]. intros _. eexists. reflexivity.
Qed.

Lemma formatted_record_needs_derived_witness :
  (derived_present lisbon = true -> exists d, formatted_record lisbon = OK d)
  /\ (derived_present lisbon = false ->
      exists e, formatted_record lisbon = Raise e
                /\ (exn_cls e = AttributeError \/ exn_cls e = TypeError)).
Proof.
  apply (formatted_record_needs_derived lisbon).
  intros deg H. inversion H. lia.
Defined.

(** ** The writer: what it never does *)

Lemma formatted_records_first_failure (pre post : list WeatherRecord) (r : WeatherRecord)
      (e : exn) :
  forallb formats pre = true -> formatted_record r = Raise e ->
  formatted_records (pre ++ r :: post) = Raise e.
Proof.
  intros Hpre Hr. induction pre as [|p pre IH]; simpl.
  - rewrite Hr. reflexivity.
  - simpl in Hpre. apply andb_true_iff in Hpre. destruct Hpre as [Hp Hpre].
    unfold formats in Hp. destruct (formatted_record p) as [d|?]; [|discriminate Hp].
    simpl. rewrite (IH Hpre). reflexivity.
Qed.

(** X9. Every record is formatted before anything is written: when some
    record of the batch does not format, the write raises the exception of
    the first such record and leaves the file system exactly as it was (no
    directory made, no file written), whatever the layout and the format and
    however many records of the batch could have been stored. *)
Theorem write_formats_before_writing :
  forall (self : Storage) (now : datetime) (pre post : list WeatherRecord)
         (r : WeatherRecord) (e : exn) (fs0 : FS),
    forallb formats pre = true ->
    formatted_record r = Raise e ->
    write self now (pre ++ r :: post) fs0 = (fs0, Raise e).
Proof.
  intros self now pre post r e fs0 Hpre Hr.
  unfold write.
  destruct (pre ++ r :: post)%list as [|x l] eqn:E.
  - destruct pre; discriminate E.
  - rewrite <- E. unfold bindM at 1. unfold lift.
    rewrite (formatted_records_first_failure pre post r e Hpre Hr). reflexivity.
Qed.

Lemma write_formats_before_writing_witness :
  write (new "data/weather" "csv" "hive_compact") run_time
        ([lisbon; porto] ++ without_timestamp :: [madrid]) empty_fs
  = (empty_fs, Raise (mkExn AttributeError "'NoneType' object has no attribute 'strftime'")).
Proof.
  apply (write_formats_before_writing (new "data/weather" "csv" "hive_compact") run_time
           [lisbon; porto] [madrid] without_timestamp).
  - vm_compute. reflexivity.
  - vm_compute. reflexivity.
Defined.

(** One file system after another: every directory is still there, every
    file is still there, and a file whose content is not the old one was
    written in the format [fmt]. *)
Definition grows (fmt : string) (fs fs' : FS) : Prop :=
  (forall p, In p (dirs fs) -> In p (dirs fs'))
  /\ (forall p, is_file fs p = true -> is_file fs' p = true)
  /\ (forall p f, read_file (files fs') p = Some f ->
        read_file (files fs) p = Some f \/ file_format f = fmt).

Definition keeps (fmt : string) {A : Type} (m : M A) : Prop :=
  forall fs, grows fmt fs (fst (m fs)).

Lemma grows_refl (fmt : string) (fs : FS) : grows fmt fs fs.
Proof.
  repeat split; auto.
Qed.

Lemma grows_trans (fmt : string) (fs1 fs2 fs3 : FS) :
  grows fmt fs1 fs2 -> grows fmt fs2 fs3 -> grows fmt fs1 fs3.
Proof.
  intros (D1 & F1 & C1) (D2 & F2 & C2). repeat split.
  - intros p H. apply D2, D1, H.
  - intros p H. apply F2, F1, H.
  - intros p f H. destruct (C2 p f H) as [H2|H2]; [|right; exact H2].
    apply (C1 p f H2).
Qed.

Lemma keeps_ret (fmt : string) {A : Type} (a : A) : keeps fmt (ret a).
Proof.
  intros fs. apply grows_refl.
Qed.

Lemma keeps_throw (fmt : string) {A : Type} (c : exn_class) (msg : string) :
  keeps fmt (@throw A c msg).
Proof.
  intros fs. apply grows_refl.
Qed.

Lemma keeps_lift (fmt : string) {A : Type} (r : result A) : keeps fmt (lift r).
Proof.
  intros fs. apply grows_refl.
Qed.

Lemma keeps_bindM (fmt : string) {A B : Type} (m : M A) (k : A -> M B) :
  keeps fmt m -> (forall a, keeps fmt (k a)) -> keeps fmt (bindM m k).
Proof.
  intros Hm Hk fs. unfold bindM. specialize (Hm fs).
  destruct (m fs) as [fs1 [a|e]]; simpl in *.
  - eapply grows_trans; [exact Hm | apply Hk].
  - exact Hm.
Qed.

Lemma keeps_for_each (fmt : string) {A : Type} (l : list A) (body : A -> M unit) :
  (forall x, keeps fmt (body x)) -> keeps fmt (for_each l body).
Proof.
  intros Hbody. induction l as [|x l IH]; simpl.
  - apply keeps_ret.
  - apply keeps_bindM; [apply Hbody | intros _; exact IH].
Qed.

Lemma keeps_mkdir (fmt : string) (p : Path) : keeps fmt (mkdir p).
Proof.
  intros fs. unfold mkdir.
  destruct (existsb (is_file fs) (ancestors p)); simpl; [apply grows_refl|].
  repeat split; simpl; auto.
  intros q H. apply (add_dirs_In (ancestors p) (dirs fs) q). left. exact H.
Qed.

Lemma keeps_write_file (fmt : string) (rows : list dict) (filepath : Path) :
  keeps fmt (write_file fmt rows filepath).
Proof.
  intros fs. unfold write_file.
  destruct (andb (is_dir fs (parent filepath)) (negb (is_dir fs filepath)));
    simpl; [|apply grows_refl].
  repeat split; simpl; auto.
  - intros p H. unfold is_file in *. simpl.
    destruct (path_eqb p filepath) eqn:E; [reflexivity|].
    rewrite read_file_removed by exact E. exact H.
  - intros p f H.
    destruct (path_eqb p filepath) eqn:E.
    + inversion H; subst f. right. reflexivity.
    + rewrite read_file_removed in H by exact E. left. exact H.
Qed.

Lemma keeps_save (self : Storage) (df : DataFrame) (filepath : Path) :
  keeps (fmt self) (_save self df filepath).
Proof.
  unfold _save.
  destruct (String.eqb (fmt self) "parquet"); [apply keeps_write_file|].
  destruct (String.eqb (fmt self) "csv"); [apply keeps_write_file|].
  destruct (String.eqb (fmt self) "json"); [apply keeps_write_file|].
  apply keeps_throw.
Qed.

(** X10. A write never removes or renames anything, however it ends (with
    or without an exception, with any layout, format or batch): every
    directory and every file that existed before still exists afterwards,
    and a file whose content is not what it was before has been written in
    the configured format. *)
Theorem write_never_removes :
  forall (self : Storage) (now : datetime) (records : list WeatherRecord) (fs0 : FS),
    let fs' := fst (write self now records fs0) in
    (forall p, In p (dirs fs0) -> In p (dirs fs'))
    /\ (forall p, is_file fs0 p = true -> is_file fs' p = true)
    /\ (forall p f, read_file (files fs') p = Some f ->
          read_file (files fs0) p = Some f \/ file_format f = fmt self).
Proof.
  intros self now records fs0.
  assert (H : keeps (fmt self) (write self now records)).
  { unfold write. destruct records as [|r0 rest]; [apply keeps_ret|].
    apply keeps_bindM; [apply keeps_lift|]. intros data.
    repeat match goal with
           | |- keeps _ (if ?b then _ else _) => destruct b
           end;
      try apply keeps_throw;
      apply keeps_for_each; intros x;
      repeat match goal with
             | x : (_ * _)%type |- _ => destruct x
             end;
      (apply keeps_bindM; [apply keeps_mkdir | intros _; apply keeps_save]). }
  exact (H fs0).
Qed.

(** ** Runs of the writer one after another *)

(** Any supported layout, with what the next write needs: the output tree
    is still not in the way. *)
Lemma write_any_layout_fits (self : Storage) (now : datetime) (records : list WeatherRecord)
      (fs0 : FS) :
  records <> [] ->
  supported_format (fmt self) = true ->
  supported_layout (layout self) = true ->
  forallb storable records = true ->
  fits (List.length (parts (base_path self)) + layout_depth (layout self)) fs0 = true ->
  exists fs',
    write self now records fs0 = (fs', OK tt)
    /\ fits (List.length (parts (base_path self)) + layout_depth (layout self)) fs' = true
    /\ written self now records (file_content self now records) fs0 fs'.
Proof.
  intros Hne Hfmt Hl Hall Hfits. unfold file_content.
  destruct (supported_layout_cases _ Hl) as [E|[E|[E|[E|E]]]]; rewrite E in Hfits |- *.
  - apply (write_date self now Hfmt records fs0 Hne Hall E Hfits).
  - apply (write_date_country self now Hfmt records fs0 Hne Hall E Hfits).
  - apply (write_country_date self now Hfmt records fs0 Hne Hall E Hfits).
  - apply (write_hive_compact self now Hfmt records fs0 Hne Hall E Hfits).
  - apply (write_city_date self now Hfmt records fs0 Hne Hall E Hfits).
Qed.

(** The same, for a batch that may be empty. *)
Lemma write_any_batch (self : Storage) (now : datetime) (records : list WeatherRecord)
      (fs0 : FS) :
  supported_format (fmt self) = true ->
  supported_layout (layout self) = true ->
  forallb storable records = true ->
  fits (List.length (parts (base_path self)) + layout_depth (layout self)) fs0 = true ->
  exists fs',
    write self now records fs0 = (fs', OK tt)
    /\ fits (List.length (parts (base_path self)) + layout_depth (layout self)) fs' = true
    /\ written self now records (file_content self now records) fs0 fs'.
Proof.
  intros Hfmt Hl Hall Hfits.
  destruct records as [|r0 rest].
  - exists fs0. split; [reflexivity|]. split; [exact Hfits|].
    split; [intros r [] | reflexivity].
  - apply write_any_layout_fits; [discriminate | assumption..].
Qed.

(** Whether [q] is the file of a parseable record of the batch. *)
Definition is_target (self : Storage) (now : datetime) (records : list WeatherRecord)
           (q : Path) : bool :=
  existsb (fun r => andb (parseable r) (path_eqb q (target self now r))) records.

Lemma is_target_false (self : Storage) (now : datetime) (records : list WeatherRecord)
      (q : Path) :
  is_target self now records q = false ->
  forall r, In r records -> parseable r = true -> q <> target self now r.
Proof.
  unfold is_target. intros H r Hin Hp Heq.
  assert (Ht : existsb (fun r => andb (parseable r) (path_eqb q (target self now r))) records
               = true).
  { apply existsb_exists. exists r. split; [exact Hin|].
    rewrite Hp. simpl. apply path_eqb_eq. exact Heq. }
  congruence.
Qed.

Lemma is_target_true (self : Storage) (now : datetime) (records : list WeatherRecord)
      (q : Path) :
  is_target self now records q = true ->
  exists r, In r records /\ parseable r = true /\ q = target self now r.
Proof.
  unfold is_target. intros H. apply existsb_exists in H.
  destruct H as (r & Hin & H). apply andb_true_iff in H. destruct H as [Hp Hq].
  exists r. split; [exact Hin|]. split; [exact Hp|]. apply path_eqb_eq. exact Hq.
Qed.

(** X11. Writing the same batch again while the clock still shows the same
    second changes no file: the second write succeeds, and every path holds
    after it what it held after the first (the files of the batch are
    rewritten with the same rows, nothing else is touched). *)
Theorem write_twice_same_second :
  forall (self : Storage) (now : datetime) (records : list WeatherRecord) (fs0 : FS),
    supported_format (fmt self) = true ->
    supported_layout (layout self) = true ->
    forallb storable records = true ->
    fits (List.length (parts (base_path self)) + layout_depth (layout self)) fs0 = true ->
    exists fs1 fs2,
      write self now records fs0 = (fs1, OK tt)
      /\ write self now records fs1 = (fs2, OK tt)
      /\ (forall q, read_file (files fs2) q = read_file (files fs1) q).
Proof.
  intros self now records fs0 Hfmt Hl Hall Hfits.
  destruct (write_any_batch self now records fs0 Hfmt Hl Hall Hfits)
    as (fs1 & Hrun1 & Hfits1 & Hfiles1 & _).
  destruct (write_any_batch self now records fs1 Hfmt Hl Hall Hfits1)
    as (fs2 & Hrun2 & _ & Hfiles2 & Hother2).
  exists fs1, fs2. split; [exact Hrun1|]. split; [exact Hrun2|].
  intros q. destruct (is_target self now records q) eqn:E.
  - apply is_target_true in E. destruct E as (r & Hin & Hp & Hq). subst q.
    rewrite (Hfiles1 r Hin Hp), (Hfiles2 r Hin Hp). reflexivity.
  - apply Hother2. apply is_target_false. exact E.
Qed.

Lemma write_twice_same_second_witness :
  exists fs1 fs2,
    write (new "data/weather" "csv" "date_country") run_time [lisbon; madrid; porto] empty_fs
    = (fs1, OK tt)
    /\ write (new "data/weather" "csv" "date_country") run_time [lisbon; madrid; porto] fs1
       = (fs2, OK tt)
    /\ (forall q, read_file (files fs2) q = read_file (files fs1) q).
Proof.
  apply (write_twice_same_second (new "data/weather" "csv" "date_country") run_time
           [lisbon; madrid; porto] empty_fs);
    vm_compute; reflexivity.
Defined.

(** *** Runs at different seconds *)

(** [P] on every integer from [lo], [n] of them. *)
Fixpoint all_from (P : Z -> bool) (lo : Z) (n : nat) : bool :=
  match n with
  | O => true
  | S k => if P lo then all_from P (lo + 1) k else false
  end.

Lemma all_from_spec (P : Z -> bool) (n : nat) :
  forall lo, all_from P lo n = true ->
             forall z, lo <= z < lo + Z.of_nat n -> P z = true.
Proof.
  induction n as [|n IH]; intros lo H z Hz; [lia|].
  simpl in H. destruct (P lo) eqn:E; [|discriminate H].
  destruct (Z.eq_dec z lo) as [->|Hne]; [exact E|].
  apply (IH (lo + 1) H). lia.
Qed.

Definition width_ok (w : nat) (n : Z) : bool := Nat.eqb (String.length (zfill w n)) w.

Lemma zfill_width_2 : forall n, 0 <= n < 100 -> String.length (zfill 2 n) = 2%nat.
Proof.
  intros n H. apply Nat.eqb_eq.
  apply (all_from_spec (width_ok 2) (Z.to_nat 100) 0); [vm_compute; reflexivity | lia].
Qed.

Lemma zfill_width_4 : forall n, 0 <= n < 10000 -> String.length (zfill 4 n) = 4%nat.
Proof.
  intros n H. apply Nat.eqb_eq.
  apply (all_from_spec (width_ok 4) (Z.to_nat 10000) 0); [vm_compute; reflexivity | lia].
Qed.

(** The run timestamp of a real date and time has fifteen characters. *)
Lemma run_ts_length (now : datetime) :
  valid_datetime now = true -> String.length (strftime_run_ts now) = 15%nat.
Proof.
  intros H. apply valid_datetime_bounds in H.
  destruct H as (Hy & Hm & Hd & Hh & Hmi & Hs).
  unfold strftime_run_ts.
  rewrite !length_append.
  rewrite (zfill_width_4 (year now)) by lia.
  rewrite (zfill_width_2 (month now)), (zfill_width_2 (day now)),
    (zfill_width_2 (hour now)), (zfill_width_2 (minute now)),
    (zfill_width_2 (second now)) by lia.
  reflexivity.
Qed.

Lemma append_same_length (a b s t : string) :
  a ++ s = b ++ t -> String.length s = String.length t -> s = t.
Proof.
  revert b. induction a as [|x a IH]; intros b H Hlen.
  - destruct b as [|y b]; [exact H|].
    simpl in H. subst s. simpl in Hlen. rewrite length_append in Hlen. lia.
  - destruct b as [|y b].
    + simpl in H. subst t. simpl in Hlen. rewrite length_append in Hlen. lia.
    + simpl in H. inversion H. apply (IH b); assumption.
Qed.

(** Files of runs at different seconds have different names. *)
Lemma targets_of_other_run (self : Storage) (now1 now2 : datetime) (r1 r2 : WeatherRecord) :
  valid_datetime now1 = true -> valid_datetime now2 = true ->
  strftime_run_ts now1 <> strftime_run_ts now2 ->
  target self now1 r1 <> target self now2 r2.
Proof.
  intros Hv1 Hv2 Hdiff Heq.
  destruct (target_file_name self now1 r1) as (p1 & H1).
  destruct (target_file_name self now2 r2) as (p2 & H2).
  rewrite Heq, H2 in H1.
  rewrite <- (append_assoc p1 (strftime_run_ts now1) ("." ++ fmt self)) in H1.
  rewrite <- (append_assoc p2 (strftime_run_ts now2) ("." ++ fmt self)) in H1.
  apply append_cancel_r in H1.
  apply append_same_length in H1.
  - congruence.
  - rewrite !run_ts_length by assumption. reflexivity.
Qed.

(** X12. Runs at different seconds never touch each other's files: after a
    first write at one time and a second write, of any batch, at a time whose
    run timestamp differs, both succeed and every file of the first run
    still holds exactly the rows the first run gave it. *)
Theorem write_keeps_earlier_runs :
  forall (self : Storage) (now1 now2 : datetime) (batch1 batch2 : list WeatherRecord)
         (fs0 : FS),
    supported_format (fmt self) = true ->
    supported_layout (layout self) = true ->
    forallb storable batch1 = true ->
    forallb storable batch2 = true ->
    fits (List.length (parts (base_path self)) + layout_depth (layout self)) fs0 = true ->
    valid_datetime now1 = true -> valid_datetime now2 = true ->
    strftime_run_ts now1 <> strftime_run_ts now2 ->
    exists fs1 fs2,
      write self now1 batch1 fs0 = (fs1, OK tt)
      /\ write self now2 batch2 fs1 = (fs2, OK tt)
      /\ (forall r, In r batch1 -> parseable r = true ->
            read_file (files fs1) (target self now1 r)
            = Some (mkFile (fmt self) (file_content self now1 batch1 r))
            /\ read_file (files fs2) (target self now1 r)
               = Some (mkFile (fmt self) (file_content self now1 batch1 r))).
Proof.
  intros self now1 now2 batch1 batch2 fs0 Hfmt Hl Hall1 Hall2 Hfits Hv1 Hv2 Hdiff.
  destruct (write_any_batch self now1 batch1 fs0 Hfmt Hl Hall1 Hfits)
    as (fs1 & Hrun1 & Hfits1 & Hfiles1 & _).
  destruct (write_any_batch self now2 batch2 fs1 Hfmt Hl Hall2 Hfits1)
    as (fs2 & Hrun2 & _ & _ & Hother2).
  exists fs1, fs2. split; [exact Hrun1|]. split; [exact Hrun2|].
  intros r Hin Hp. split; [apply (Hfiles1 r Hin Hp)|].
  rewrite Hother2; [apply (Hfiles1 r Hin Hp)|].
  intros r' _ _. apply targets_of_other_run; assumption.
Qed.

Definition run_time_later : datetime := utc 2024 1 6 9 30 0.

Lemma write_keeps_earlier_runs_witness :
  exists fs1 fs2,
    write (new "data/weather" "json" "city_date") run_time [lisbon; porto] empty_fs
    = (fs1, OK tt)
    /\ write (new "data/weather" "json" "city_date") run_time_later [lisbon_later; madrid] fs1
       = (fs2, OK tt)
    /\ (forall r, In r [lisbon; porto] -> parseable r = true ->
          read_file (files fs1) (target (new "data/weather" "json" "city_date") run_time r)
          = Some (mkFile (fmt (new "data/weather" "json" "city_date"))
                         (file_content (new "data/weather" "json" "city_date") run_time
                                       [lisbon; porto] r))
          /\ read_file (files fs2) (target (new "data/weather" "json" "city_date") run_time r)
             = Some (mkFile (fmt (new "data/weather" "json" "city_date"))
                            (file_content (new "data/weather" "json" "city_date") run_time
                                          [lisbon; porto] r))).
Proof.
  apply (write_keeps_earlier_runs (new "data/weather" "json" "city_date")
           run_time run_time_later [lisbon; porto] [lisbon_later; madrid] empty_fs);
    first [discriminate | vm_compute; reflexivity].
Defined.

(** ** Rows of a batch with one unit system *)

Lemma add_columns_known (keys cols : list string) :
  (forall k, In k keys -> In k cols) -> add_columns cols keys = cols.
Proof.
  induction keys as [|k keys IH]; intros H; simpl; [reflexivity|].
  assert (E : existsb (String.eqb k) cols = true).
  { apply existsb_exists. exists k. split; [apply H; left; reflexivity|].
    apply String.eqb_refl. }
  rewrite E. apply IH. intros x Hx. apply H. right. exact Hx.
Qed.

Lemma add_columns_fresh (keys : list string) :
  forall cols, NoDup keys -> (forall k, In k keys -> ~ In k cols) ->
               add_columns cols keys = (cols ++ keys)%list.
Proof.
  induction keys as [|k keys IH]; intros cols Hnd Hfresh; simpl.
  - rewrite app_nil_r. reflexivity.
  - inversion Hnd as [|k' keys' Hk Hnd']; subst.
    assert (E : existsb (String.eqb k) cols = false).
    { destruct (existsb (String.eqb k) cols) eqn:E; [|reflexivity].
      apply existsb_exists in E. destruct E as (x & Hx & Hkx).
      apply String.eqb_eq in Hkx. subst x.
      exfalso. apply (Hfresh k (or_introl eq_refl)). exact Hx. }
    rewrite E, IH; [rewrite <- app_assoc; reflexivity | exact Hnd' |].
    intros x Hx Hin. apply in_app_iff in Hin. destruct Hin as [Hin|[Hin|[]]].
    + apply (Hfresh x (or_intror Hx)). exact Hin.
    + subst x. contradiction.
Qed.

(** The columns of a frame whose dicts all have the keys [H]. *)
Lemma columns_of_same_keys (H : list string) (data : list dict) :
  NoDup H -> data <> [] -> (forall d, In d data -> map fst d = H) ->
  columns_of data = H.
Proof.
  intros Hnd Hne Hall. unfold columns_of.
  destruct data as [|d0 data]; [congruence|]. simpl.
  rewrite (Hall d0 (or_introl eq_refl)).
  rewrite (add_columns_fresh H [] Hnd) by (intros k _ []).
  simpl.
  assert (G : forall l : list dict, (forall d, In d l -> map fst d = H) ->
                fold_left (fun cols d => add_columns cols (map fst d)) l H = H).
  { induction l as [|d l IH]; intros Hl; simpl; [reflexivity|].
    rewrite (Hl d (or_introl eq_refl)).
    rewrite add_columns_known by auto.
    apply IH. intros d' Hd'. apply Hl. right. exact Hd'. }
  apply G. intros d Hd. apply Hall. right. exact Hd.
Qed.

(** Reading a dict back column by column gives the dict. *)
Lemma row_of_own_keys (d : dict) :
  NoDup (map fst d) ->
  map (fun c => (c, cell_or_nan (get c d))) (map fst d) = d.
Proof.
  induction d as [|[k v] d IH]; intros Hnd; [reflexivity|].
  simpl in Hnd. inversion Hnd as [|k' l Hk Hnd']; subst.
  simpl. rewrite String.eqb_refl. simpl. f_equal.
  rewrite <- (IH Hnd') at 2.
  apply map_ext_in. intros c Hc.
  destruct (String.eqb c k) eqn:E; [|reflexivity].
  apply String.eqb_eq in E. subst c. contradiction.
Qed.

Lemma filter_not_ts_id (d : dict) :
  ~ In "_ts" (map fst d) -> filter not_ts d = d.
Proof.
  induction d as [|[k v] d IH]; intros H; [reflexivity|].
  simpl in *. unfold not_ts at 1. simpl.
  destruct (String.eqb k "_ts") eqn:E.
  - apply String.eqb_eq in E. subst k. exfalso. apply H. left. reflexivity.
  - simpl. rewrite IH; [reflexivity|]. intros Hin. apply H. right. exact Hin.
Qed.

Lemma headers_no_ts (u : option string) : ~ In "_ts" (headers u).
Proof.
  unfold headers, temperature_unit, wind_speed_unit.
  destruct (opt_string_eqb u "metric"); destruct (opt_string_eqb u "imperial");
    destruct (opt_string_eqb u "default"); cbn [orb];
    simpl; intuition discriminate.
Qed.

Lemma dict_of_keys (r : WeatherRecord) :
  formats r = true -> map fst (dict_of r) = headers (Models.units r).
Proof.
  unfold formats, dict_of. intros H.
  destruct (formatted_record r) as [d|e] eqn:E; [|discriminate H].
  rewrite formatted_record_unfold in E.
  repeat (apply bind_OK in E; destruct E as (? & _ & E)).
  inversion E; subst d. reflexivity.
Qed.

(** In a batch of records that format and share one unit system, the row
    saved for a record is its formatted record: the same columns in the same
    order, no filler. *)
Lemma saved_row_formatted (records : list WeatherRecord) (u : option string)
      (r : WeatherRecord) :
  forallb formats records = true ->
  (forall r', In r' records -> Models.units r' = u) ->
  In r records ->
  saved_row records r = dict_of r.
Proof.
  intros Hall Hu Hin.
  assert (Hf : forall r', In r' records -> formats r' = true)
    by (apply forallb_forall; exact Hall).
  assert (Hcols : columns_of (map dict_of records) = headers u).
  { apply columns_of_same_keys.
    - apply headers_NoDup.
    - destruct records; [destruct Hin | discriminate].
    - intros d Hd. apply in_map_iff in Hd. destruct Hd as (r' & Hd & Hr'). subst d.
      rewrite (dict_of_keys r' (Hf r' Hr')), (Hu r' Hr'). reflexivity. }
  assert (Hk : map fst (dict_of r) = headers u)
    by (rewrite (dict_of_keys r (Hf r Hin)), (Hu r Hin); reflexivity).
  unfold saved_row, row_in, frame_row. rewrite Hcols, <- Hk.
  rewrite row_of_own_keys by (rewrite Hk; apply headers_NoDup).
  rewrite filter_app.
  rewrite !(filter_not_ts_id (dict_of r)) by (rewrite Hk; apply headers_no_ts).
  apply app_nil_r.
Qed.

(** The records whose rows the file of [r] holds after the write: under
    [hive_compact] the last record sent to that file, otherwise the
    parseable records of the group of [r], in batch order. *)
Definition stored_with (self : Storage) (now : datetime) (records : list WeatherRecord)
           (r : WeatherRecord) : list WeatherRecord :=
  if String.eqb (layout self) "hive_compact"
  then [last_sharing self now records r]
  else filter (fun r' => andb (parseable r') (same_group (layout self) r r')) records.

Lemma last_sharing_In (self : Storage) (now : datetime) (records : list WeatherRecord)
      (r : WeatherRecord) :
  In r records -> In (last_sharing self now records r) records.
Proof.
  intros Hin. unfold last_sharing.
  destruct (find _ (rev (filter parseable records))) as [r'|] eqn:E; [|exact Hin].
  apply find_some in E. destruct E as [E _].
  apply in_rev in E. apply filter_In in E. tauto.
Qed.

(** Every number of the record is there, so that no numeric column of the
    frame holds a gap and the frame keeps the numbers as they are given. *)
Definition measured (r : WeatherRecord) : bool :=
  match cloudiness r, humidity r, pressure r, wind_speed r with
  | Some _, Some _, Some _, Some _ =>
      match temperature_current r, temperature_min r, temperature_max r,
            temperature_feels_like r with
      | Some _, Some _, Some _, Some _ => true
      | _, _, _, _ => false
      end
  | _, _, _, _ => false
  end.

(** X13. When all records of a batch have the same unit system and every
    numeric field of every record is present, what is stored is the
    formatted records themselves: under the conditions of a successful
    write, the file of every record with a parseable timestamp holds, in
    batch order, exactly the dicts [formatted_record] returned for the
    records stored with it; no column is added, dropped, renamed or
    reordered, no cell is replaced by a filler, and the helper column [_ts]
    is not written. *)
Theorem write_stores_formatted_records :
  forall (self : Storage) (now : datetime) (records : list WeatherRecord) (fs0 : FS)
         (u : option string),
    records <> [] ->
    supported_format (fmt self) = true ->
    supported_layout (layout self) = true ->
    forallb storable records = true ->
    fits (List.length (parts (base_path self)) + layout_depth (layout self)) fs0 = true ->
    (forall r, In r records -> Models.units r = u) ->
    forallb measured records = true ->
    exists fs',
      write self now records fs0 = (fs', OK tt)
      /\ (forall r, In r records -> parseable r = true ->
            read_file (files fs') (target self now r)
            = Some (mkFile (fmt self) (map dict_of (stored_with self now records r)))
            /\ (forall r', In r' (stored_with self now records r) ->
                  In r' records /\ formatted_record r' = OK (dict_of r')
                  /\ map fst (dict_of r') = headers u)).
Proof.
  intros self now records fs0 u Hne Hfmt Hl Hall Hfits Hu _.
  destruct (write_any_layout self now records fs0 Hne Hfmt Hl Hall Hfits)
    as (fs' & Hrun & Hfiles & _).
  assert (Hformats : forallb formats records = true) by (apply all_format; exact Hall).
  assert (Hstored : forall r r', In r records -> In r' (stored_with self now records r) ->
                                 In r' records).
  { intros r r' Hin Hr'. unfold stored_with in Hr'.
    destruct (String.eqb (layout self) "hive_compact").
    - destruct Hr' as [Hr'|[]]. subst r'. apply last_sharing_In. exact Hin.
    - apply filter_In in Hr'. tauto. }
  exists fs'. split; [exact Hrun|].
  intros r Hin Hp. split.
  - rewrite (Hfiles r Hin Hp). f_equal. f_equal.
    unfold file_content, stored_with, group_rows.
    destruct (String.eqb (layout self) "hive_compact").
    + simpl. f_equal. apply (saved_row_formatted records u); try assumption.
      apply last_sharing_In. exact Hin.
    + apply map_ext_in. intros r' Hr'. apply filter_In in Hr'.
      apply (saved_row_formatted records u); tauto.
  - intros r' Hr'. pose proof (Hstored r r' Hin Hr') as Hin'.
    split; [exact Hin'|].
    assert (Hf : formats r' = true).
    { rewrite forallb_forall in Hformats. apply Hformats. exact Hin'. }
    split.
    + unfold formats in Hf. unfold dict_of.
      destruct (formatted_record r'); [reflexivity | discriminate Hf].
    + rewrite (dict_of_keys r' Hf), (Hu r' Hin'). reflexivity.
Qed.

Lemma write_stores_formatted_records_witness :
  exists fs',
    write (new "data/weather" "csv" "date_country") run_time [lisbon; madrid; porto] empty_fs
    = (fs', OK tt)
    /\ (forall r, In r [lisbon; madrid; porto] -> parseable r = true ->
          read_file (files fs') (target (new "data/weather" "csv" "date_country") run_time r)
          = Some (mkFile (fmt (new "data/weather" "csv" "date_country"))
                         (map dict_of
                              (stored_with (new "data/weather" "csv" "date_country") run_time
                                           [lisbon; madrid; porto] r)))
          /\ (forall r',
                In r' (stored_with (new "data/weather" "csv" "date_country") run_time
                                   [lisbon; madrid; porto] r) ->
                In r' [lisbon; madrid; porto] /\ formatted_record r' = OK (dict_of r')
                /\ map fst (dict_of r') = headers (Some "metric"))).
Proof.
  apply (write_stores_formatted_records (new "data/weather" "csv" "date_country") run_time
           [lisbon; madrid; porto] empty_fs (Some "metric"));
    try first [discriminate | vm_compute; reflexivity].
  intros r [H|[H|[H|[]]]]; subst r; reflexivity.
Defined.

(** ** The ingestion loop: counters and output *)

Section IngestCounts.

Variable client : OpenWeatherClient.
Variable network : string -> string -> Z -> result Response.
Variable validate : RecordArgs -> result WeatherRecord.

(** The line printed before a city is fetched. *)
Definition fetching (c : city_info) : string :=
  "Fetching weather for " ++ cfg_name c ++ ", " ++ upper (cfg_country c) ++ "...".

Fixpoint printed (out : list output) : list string :=
  match out with
  | [] => []
  | Print line :: rest => line :: printed rest
  | _ :: rest => printed rest
  end.

Fixpoint errors_logged (out : list output) : list string :=
  match out with
  | [] => []
  | LogError msg :: rest => msg :: errors_logged rest
  | _ :: rest => errors_logged rest
  end.

Lemma printed_app (a b : list output) : printed (a ++ b) = (printed a ++ printed b)%list.
Proof.
  induction a as [|x a IH]; [reflexivity|].
  destruct x; simpl; rewrite IH; reflexivity.
Qed.

Lemma errors_logged_app (a b : list output) :
  errors_logged (a ++ b) = (errors_logged a ++ errors_logged b)%list.
Proof.
  induction a as [|x a IH]; [reflexivity|].
  destruct x; simpl; rewrite IH; reflexivity.
Qed.

Lemma printed_client (tr : list event) : printed (map Client tr) = [].
Proof.
  induction tr as [|e tr IH]; [reflexivity | exact IH].
Qed.

Lemma errors_logged_client (tr : list event) : errors_logged (map Client tr) = [].
Proof.
  induction tr as [|e tr IH]; [reflexivity | exact IH].
Qed.

(** The balance the loop keeps: every city seen so far is counted once. *)
Definition balanced (seen : nat) (st : state) : Prop :=
  success_count st + failed_cities_count st = Z.of_nat seen
  /\ Z.of_nat (List.length (records st)) = success_count st
  /\ Z.of_nat (List.length (failed_cities st)) = failed_cities_count st
  /\ Z.of_nat (List.length (errors_logged (out st))) = failed_cities_count st
  /\ 0 <= success_count st /\ 0 <= failed_cities_count st.

Lemma ingest_city_balanced (seen : nat) (st st' : state) (c : city_info) :
  balanced seen st ->
  ingest_city client network validate st c = OK st' ->
  balanced (S seen) st' /\ printed (out st') = (printed (out st) ++ [fetching c])%list.
Proof.
  intros (Hsum & Hrec & Hfail & Hlog & Hs & Hf) Hstep.
  unfold ingest_city in Hstep.
  destruct (process client network validate (cfg_name c) (upper (cfg_country c)))
    as [tr r].
  destruct r as [record|e].
  - inversion Hstep; subst st'; clear Hstep. unfold balanced.
    cbn [success_count failed_cities_count failed_cities records out].
    rewrite ?errors_logged_app, ?printed_app.
    cbn [errors_logged printed].
    rewrite errors_logged_client, printed_client, ?length_app, ?app_nil_r.
    cbn [List.length app].
    repeat split; lia.
  - destruct (is_Exception e); [|discriminate Hstep].
    inversion Hstep; subst st'; clear Hstep. unfold balanced.
    cbn [success_count failed_cities_count failed_cities records out].
    rewrite ?errors_logged_app, ?printed_app.
    cbn [errors_logged printed].
    rewrite errors_logged_client, printed_client, ?length_app, ?app_nil_r.
    cbn [List.length app].
    repeat split; lia.
Qed.

Lemma ingest_balanced (cities : list city_info) :
  forall (seen : nat) (st st' : state),
    balanced seen st ->
    ingest client network validate st cities = OK st' ->
    balanced (seen + List.length cities) st'
    /\ printed (out st') = (printed (out st) ++ map fetching cities)%list.
Proof.
  induction cities as [|c cities IH]; intros seen st st' Hb Hrun; simpl in Hrun.
  - inversion Hrun; subst st'. rewrite Nat.add_0_r, app_nil_r. split; [exact Hb | reflexivity].
  - apply bind_OK in Hrun. destruct Hrun as (st1 & Hstep & Hrun).
    destruct (ingest_city_balanced seen st st1 c Hb Hstep) as [Hb1 Hp1].
    destruct (IH (S seen) st1 st' Hb1 Hrun) as [Hb' Hp'].
    split.
    + simpl. rewrite Nat.add_succ_r. exact Hb'.
    + rewrite Hp', Hp1, <- app_assoc. reflexivity.
Qed.

End IngestCounts.

(** X14. When the loop over the cities ends, every city has been counted
    exactly once: the successes and the failures add up to the number of
    cities, the list of records has one record per success, the list of
    failed cities has one name per failure and one error was logged per
    failure; one line "Fetching weather for <name>, <COUNTRY>..." was printed
    per city, in the order of the configuration, with the country code in
    upper case. *)
Theorem ingest_counts_every_city :
  forall (client : OpenWeatherClient) (network : string -> string -> Z -> result Response)
         (validate : RecordArgs -> result WeatherRecord) (cities : list city_info)
         (st : state),
    ingest client network validate initial cities = OK st ->
    success_count st + failed_cities_count st = Z.of_nat (List.length cities)
    /\ Z.of_nat (List.length (records st)) = success_count st
    /\ Z.of_nat (List.length (failed_cities st)) = failed_cities_count st
    /\ Z.of_nat (List.length (errors_logged (out st))) = failed_cities_count st
    /\ printed (out st) = map fetching cities.
Proof.
  intros client network validate cities st Hrun.
  assert (H0 : balanced 0 initial) by (unfold balanced; simpl; lia).
  destruct (ingest_balanced client network validate cities 0 initial st H0 Hrun)
    as [(Hsum & Hrec & Hfail & Hlog & _) Hp].
  simpl in Hsum, Hp. repeat split; assumption.
Qed.

(** Two cities, the second of which gets no usable answer. *)
Definition lisbon_only : string -> string -> Z -> result Response :=
  fun city _ _ =>
    if String.eqb city "Lisbon"
    then OK (mkResponse 200 "OK" "https://api.example/weather" (OK body_complete))
    else raise ConnectionError "connection refused".

Definition two_cities : state :=
  match ingest client_pt lisbon_only exact_types initial [lisbon_cfg; porto_cfg] with
  | OK st => st
  | Raise _ => initial
  end.

Lemma ingest_counts_every_city_witness :
  success_count two_cities + failed_cities_count two_cities
  = Z.of_nat (List.length [lisbon_cfg; porto_cfg])
  /\ Z.of_nat (List.length (records two_cities)) = success_count two_cities
  /\ Z.of_nat (List.length (failed_cities two_cities)) = failed_cities_count two_cities
  /\ Z.of_nat (List.length (errors_logged (out two_cities))) = failed_cities_count two_cities
  /\ printed (out two_cities) = map fetching [lisbon_cfg; porto_cfg].
Proof.
  apply (ingest_counts_every_city client_pt lisbon_only exact_types [lisbon_cfg; porto_cfg]).
  vm_compute. reflexivity.
Defined.

(** X15. The loop only catches [Exception]: when the cities before are
    processed (successfully or not) and one city raises something that is not
    an [Exception], such as a keyboard interrupt during the request, that
    exception leaves the loop whatever cities come after: they are not
    processed, and the city is not counted as failed. *)
Theorem ingest_interrupt_leaves_loop :
  forall (client : OpenWeatherClient) (network : string -> string -> Z -> result Response)
         (validate : RecordArgs -> result WeatherRecord)
         (before after : list city_info) (c : city_info) (e : exn),
    (forall c' e', In c' before ->
       outcome client network validate c' = Raise e' -> is_Exception e' = true) ->
    outcome client network validate c = Raise e ->
    is_Exception e = false ->
    ingest client network validate initial (before ++ c :: after) = Raise e.
Proof.
  intros client network validate before after c e Hbefore Hc He.
  assert (Hstop : forall st, ingest client network validate st (c :: after) = Raise e).
  { intros st. simpl. unfold ingest_city. unfold outcome in Hc.
    destruct (process client network validate (cfg_name c) (upper (cfg_country c)))
      as [tr r].
    simpl in Hc. subst r. rewrite He. reflexivity. }
  generalize initial.
  induction before as [|b before' IH]; intros st.
  - apply Hstop.
  - simpl.
    destruct (ingest_city_outcome client network validate st b
                (fun e' => Hbefore b e' (or_introl eq_refl))) as (st1 & Hstep & _).
    rewrite Hstep. simpl. apply IH.
    intros c' e' Hin. apply Hbefore. right. exact Hin.
Qed.

Definition interrupted : string -> string -> Z -> result Response :=
  fun city _ _ =>
    if String.eqb city "Lisbon"
    then OK (mkResponse 200 "OK" "https://api.example/weather" (OK body_complete))
    else raise KeyboardInterrupt "".

Lemma ingest_interrupt_leaves_loop_witness :
  ingest client_pt interrupted exact_types initial ([lisbon_cfg] ++ porto_cfg :: [lisbon_cfg])
  = Raise (mkExn KeyboardInterrupt "").
Proof.
  apply (ingest_interrupt_leaves_loop client_pt interrupted exact_types
           [lisbon_cfg] [lisbon_cfg] porto_cfg (mkExn KeyboardInterrupt "")).
  - intros c' e' [H|[]] E. subst c'. vm_compute in E. discriminate E.
  - vm_compute. reflexivity.
  - reflexivity.
Defined.

(** ** Timestamps of the API, from the response to the frame *)

(** Days since 1970-01-01 of a civil date: the way back from
    [civil_from_days]. *)
Definition days_from_civil (y m d : Z) : Z :=
  let y := if m <=? 2 then y - 1 else y in
  let era := y / 400 in
  let yoe := y - era * 400 in
  let mp := if 2 <? m then m - 3 else m + 9 in
  let doy := (153 * mp + 2) / 5 + d - 1 in
  let doe := yoe * 365 + yoe / 4 - yoe / 100 + doy in
  era * 146097 + doe - 719468.

Definition lex_ltb3 (a b : Z * Z * Z) : bool :=
  let '(y1, m1, d1) := a in
  let '(y2, m2, d2) := b in
  orb (y1 <? y2) (andb (y1 =? y2) (orb (m1 <? m2) (andb (m1 =? m2) (d1 <? d2)))).

(** What is checked of each day a nanosecond timestamp can fall on: the
    date is a real one, the way back gives the day, and the date lies
    between the first and the last day of the range (which are day -106752
    and day 106751). *)
Definition day_checked (z : Z) : bool :=
  let '(y, m, d) := civil_from_days z in
  andb (andb (andb (1 <=? y) (y <=? 9999))
             (andb (andb (1 <=? m) (m <=? 12))
                   (andb (1 <=? d) (d <=? days_in_month y m))))
       (andb (days_from_civil y m d =? z)
             (andb (if z =? -106752 then andb (andb (y =? 1677) (m =? 9)) (d =? 21)
                    else lex_ltb3 (1677, 9, 21) (y, m, d))
                   (if z =? 106751 then andb (andb (y =? 2262) (m =? 4)) (d =? 11)
                    else lex_ltb3 (y, m, d) (2262, 4, 11)))).

(** The year of the era and the day of that year (both counted from the
    first of March), for a day [doe] of a 400-year era. *)
Lemma year_of_era (doe : Z) :
  0 <= doe < 146097 ->
  let yoe := (doe - doe / 1460 + doe / 36524 - doe / 146096) / 365 in
  let doy := doe - (365 * yoe + yoe / 4 - yoe / 100) in
  0 <= yoe < 400 /\ 0 <= doy <= 365
  /\ (doy = 365 -> (yoe + 1) mod 4 = 0 /\ ((yoe + 1) mod 100 <> 0 \/ yoe = 399)).
Proof.
  intros H yoe doy. subst yoe doy.
  Z.to_euclidean_division_equations; lia.
Qed.

(** The month (counted from March) and the day of the month. *)
Lemma month_of_year (doy : Z) :
  0 <= doy <= 365 ->
  let mp := (5 * doy + 2) / 153 in
  let d := doy - (153 * mp + 2) / 5 + 1 in
  0 <= mp <= 11 /\ 1 <= d <= 31
  /\ (mp = 11 -> d <= 29 /\ (d = 29 -> doy = 365))
  /\ (mp = 1 \/ mp = 3 \/ mp = 6 \/ mp = 8 -> d <= 30).
Proof.
  intros H mp d. subst mp d.
  Z.to_euclidean_division_equations; lia.
Qed.

Lemma civil_from_days_fields (z : Z) :
  -106752 <= z <= 106751 ->
  exists era yoe doy mp,
    civil_from_days z
    = (if (if mp <? 10 then mp + 3 else mp - 9) <=? 2 then yoe + era * 400 + 1
       else yoe + era * 400,
       if mp <? 10 then mp + 3 else mp - 9,
       doy - (153 * mp + 2) / 5 + 1)
    /\ (era = 4 \/ era = 5)
    /\ z + 719468 = era * 146097 + 365 * yoe + yoe / 4 - yoe / 100 + doy
    /\ 0 <= yoe < 400 /\ 0 <= doy <= 365
    /\ (doy = 365 -> (yoe + 1) mod 4 = 0 /\ ((yoe + 1) mod 100 <> 0 \/ yoe = 399))
    /\ mp = (5 * doy + 2) / 153.
Proof.
  intros Hz. unfold civil_from_days. cbv zeta.
  set (era := (z + 719468) / 146097).
  set (doe := z + 719468 - era * 146097).
  assert (Hera : era = 4 \/ era = 5) by (subst era; Z.to_euclidean_division_equations; lia).
  assert (Hdoe : 0 <= doe < 146097)
    by (subst doe era; Z.to_euclidean_division_equations; lia).
  pose proof (year_of_era doe Hdoe) as Hy. cbv zeta in Hy.
  set (yoe := (doe - doe / 1460 + doe / 36524 - doe / 146096) / 365) in *.
  set (doy := doe - (365 * yoe + yoe / 4 - yoe / 100)) in *.
  exists era, yoe, doy, ((5 * doy + 2) / 153).
  split; [reflexivity|]. split; [exact Hera|].
  split; [subst doy doe; lia|]. tauto.
Qed.

Ltac fold_closed t := let v := eval vm_compute in t in change t with v.

Ltac hyps_to_arith :=
  repeat match goal with
         | H : andb _ _ = true |- _ => apply andb_true_iff in H; destruct H
         | H : andb _ _ = false |- _ => apply andb_false_iff in H
         | H : orb _ _ = true |- _ => apply orb_true_iff in H
         | H : orb _ _ = false |- _ => apply orb_false_iff in H; destruct H
         | H : negb _ = true |- _ => apply negb_true_iff in H
         | H : negb _ = false |- _ => apply negb_false_iff in H
         | H : (_ =? _) = true |- _ => apply Z.eqb_eq in H
         | H : (_ =? _) = false |- _ => apply Z.eqb_neq in H
         end.

Ltac to_arith :=
  rewrite ?andb_true_iff, ?orb_true_iff, ?Z.leb_le, ?Z.ltb_lt, ?Z.eqb_eq.

(** The tests on the month, settled for the month number [k] counted from
    March. *)
Ltac settle_month k :=
  let m := eval vm_compute in (if k <? 10 then k + 3 else k - 9) in
  change (if k <? 10 then k + 3 else k - 9) with m;
  fold_closed (m <=? 2); fold_closed (m =? 2); fold_closed (2 <? m);
  fold_closed (1 <=? m); fold_closed (m <=? 12);
  fold_closed (m =? 4); fold_closed (m =? 6); fold_closed (m =? 9); fold_closed (m =? 11);
  fold_closed (9 <? m); fold_closed (9 =? m); fold_closed (m <? 4);
  cbv beta iota; cbn [orb andb negb].

Lemma days_checked :
  forall z, -106752 <= z <= 106751 -> day_checked z = true.
Proof.
  intros z Hz. unfold day_checked.
  destruct (civil_from_days_fields z Hz)
    as (era & yoe & doy & mp & E & Hera & Hsum & Hyoe & Hdoy & Hleap & Hmp).
  rewrite E. clear E.
  pose proof (month_of_year doy Hdoy) as Hm. cbv zeta in Hm. rewrite <- Hmp in Hm.
  destruct Hm as (Hmp' & Hd & Hfeb & H30).
  assert (Hcases : mp = 0 \/ mp = 1 \/ mp = 2 \/ mp = 3 \/ mp = 4 \/ mp = 5 \/ mp = 6
                   \/ mp = 7 \/ mp = 8 \/ mp = 9 \/ mp = 10 \/ mp = 11) by lia.
  unfold days_from_civil, days_in_month, is_leap, lex_ltb3. cbv zeta.
  repeat destruct Hcases as [Hk|Hcases]; try rename Hcases into Hk;
    rewrite Hk in *; clear Hk.
  all: [> settle_month 0 | settle_month 1 | settle_month 2 | settle_month 3 | settle_month 4
          | settle_month 5 | settle_month 6 | settle_month 7 | settle_month 8
          | settle_month 9 | settle_month 10 | settle_month 11 ].
  all: repeat match goal with
              | |- context [if ?b then _ else _] =>
                  let E := fresh "E" in destruct b eqn:E
              end.
  all: hyps_to_arith; rewrite ?andb_false_r, ?orb_false_r, ?andb_true_r; cbn [andb orb].
  all: first [ to_arith; Z.to_euclidean_division_equations; lia
             | exfalso; Z.to_euclidean_division_equations; lia ].
Qed.

Ltac to_prop :=
  repeat match goal with
         | H : andb _ _ = true |- _ => apply andb_true_iff in H; destruct H
         | H : orb _ _ = true |- _ => apply orb_true_iff in H; destruct H
         | H : (_ <? _) = true |- _ => apply Z.ltb_lt in H
         | H : (_ <? _) = false |- _ => apply Z.ltb_ge in H
         | H : (_ <=? _) = true |- _ => apply Z.leb_le in H
         | H : (_ =? _) = true |- _ => apply Z.eqb_eq in H
         | H : (_ =? _) = false |- _ => apply Z.eqb_neq in H
         end.

Ltac lex_cases :=
  cbn [lex_leb];
  repeat match goal with
         | |- (if ?a <? ?b then _ else _) = true =>
             let E := fresh "E" in
             destruct (a <? b) eqn:E;
             [apply Z.ltb_lt in E | apply Z.ltb_ge in E];
             try reflexivity; try (exfalso; lia)
         end.

(** The datetime of a whole number of seconds that a nanosecond timestamp
    can hold. *)
Lemma utc_datetime_in_range (t : Z) :
  -9223372036 <= t <= 9223372036 ->
  exists d,
    utc_datetime t 0 = OK d
    /\ valid_datetime d = true
    /\ in_ns_bounds d = true
    /\ days_from_civil (year d) (month d) (day d) = t / 86400
    /\ 3600 * hour d + 60 * minute d + second d = t mod 86400
    /\ microsecond d = 0 /\ utcoffset d = Some 0.
Proof.
  intros Ht.
  assert (Hday : -106752 <= t / 86400 <= 106751).
  { assert (t / 86400 < 106752) by (apply Z.div_lt_upper_bound; lia).
    assert (-106752 <= t / 86400) by (apply Z.div_le_lower_bound; lia).
    lia. }
  pose proof (days_checked (t / 86400) Hday) as Hc.
  pose proof (Z.mod_pos_bound t 86400 ltac:(lia)) as Hs.
  pose proof (Z.div_mod t 86400 ltac:(lia)) as Hdm.
  unfold utc_datetime.
  change (2 ^ 63) with 9223372036854775808.
  assert (E1 : orb (t <? Z.opp 9223372036854775808) (9223372036854775808 <=? t) = false).
  { apply orb_false_iff. split; [apply Z.ltb_ge | apply Z.leb_gt]; lia. }
  assert (E2 : orb (t <? -62135596800) (253402300799 <? t) = false).
  { apply orb_false_iff. split; apply Z.ltb_ge; lia. }
  rewrite E1, E2.
  unfold day_checked in Hc.
  destruct (civil_from_days (t / 86400)) as [[y m] d].
  set (s := t mod 86400) in *.
  assert (Hh : 0 <= s / 3600 < 24).
  { split; [apply Z.div_pos | apply Z.div_lt_upper_bound]; lia. }
  pose proof (Z.mod_pos_bound s 3600 ltac:(lia)) as Hr.
  pose proof (Z.div_mod s 3600 ltac:(lia)) as Hsm.
  assert (Hmi : 0 <= (s mod 3600) / 60 < 60).
  { split; [apply Z.div_pos | apply Z.div_lt_upper_bound]; lia. }
  pose proof (Z.mod_pos_bound s 60 ltac:(lia)) as Hsec.
  pose proof (Z.div_mod (s mod 3600) 60 ltac:(lia)) as Hrm.
  assert (Hmm : (s mod 3600) mod 60 = s mod 60).
  { apply Z.mod_mod_divide. exists 60. reflexivity. }
  eexists. split; [reflexivity|].
  apply andb_true_iff in Hc. destruct Hc as [Hvalid Hc].
  apply andb_true_iff in Hc. destruct Hc as [Hback Hc].
  apply andb_true_iff in Hc. destruct Hc as [Hlo Hhi].
  apply Z.eqb_eq in Hback.
  split; [|split; [|split; [|split; [|split]]]]; cbn [year month day hour minute second microsecond utcoffset].
  - unfold valid_datetime. cbn [year month day hour minute second].
    rewrite Hvalid. cbn [andb].
    repeat (apply andb_true_iff; split);
      first [apply Z.leb_le | apply Z.ltb_lt]; lia.
  - unfold in_ns_bounds, fields. cbn [year month day hour minute second].
    rewrite Hmm in Hrm.
    remember (s / 3600) as h. remember ((s mod 3600) / 60) as mi.
    remember (s mod 60) as ss. remember (s mod 3600) as rest.
    clear Heqh Heqmi Heqss Heqrest Hmm.
    apply andb_true_iff. split.
    + clear Hhi. unfold lex_ltb3 in Hlo.
      destruct (t / 86400 =? -106752) eqn:Ez; to_prop; subst; lex_cases.
    + clear Hlo. unfold lex_ltb3 in Hhi.
      destruct (t / 86400 =? 106751) eqn:Ez; to_prop; subst; lex_cases.
  - exact Hback.
  - rewrite Hmm in Hrm. lia.
  - reflexivity.
  - reflexivity.
Qed.

(** X16. Every whole Unix time a nanosecond timestamp can hold (from
    1677-09-21 00:12:44 to 2262-04-11 23:47:16 UTC) goes through the
    pipeline unharmed: [fromtimestamp] turns it into a real UTC date and
    time, namely the civil date whose day number is [t // 86400] with the
    time of day [t mod 86400]; the text [format_datetime] prints for it is
    read back by the writer as the same date and time, so a record with this
    timestamp is never dropped as NaT. *)
Theorem api_timestamp_is_stored :
  forall t : Z,
    -9223372036 <= t <= 9223372036 ->
    exists d,
      fromtimestamp (JInt t) = OK d
      /\ days_from_civil (year d) (month d) (day d) = t / 86400
      /\ 3600 * hour d + 60 * minute d + second d = t mod 86400
      /\ valid_datetime d = true
      /\ (exists text, format_datetime (Some d) = OK text
                       /\ to_datetime (CStr text) = CTimestamp (naive d))
      /\ (forall r, timestamp r = Some d -> parseable r = true).
Proof.
  intros t Ht.
  destruct (utc_datetime_in_range t Ht) as (d & Hd & Hvalid & Hns & Hday & Hsec & _).
  exists d. split; [exact Hd|]. split; [exact Hday|]. split; [exact Hsec|].
  split; [exact Hvalid|]. split.
  - eexists. split; [reflexivity|].
    rewrite (to_datetime_strftime d Hvalid), Hns. reflexivity.
  - intros r Hr. unfold parseable. rewrite Hr, Hvalid, Hns. reflexivity.
Qed.

Lemma api_timestamp_is_stored_witness :
  exists d,
    fromtimestamp (JInt 1704456007) = OK d
    /\ days_from_civil (year d) (month d) (day d) = 1704456007 / 86400
    /\ 3600 * hour d + 60 * minute d + second d = 1704456007 mod 86400
    /\ valid_datetime d = true
    /\ (exists text, format_datetime (Some d) = OK text
                     /\ to_datetime (CStr text) = CTimestamp (naive d))
    /\ (forall r, timestamp r = Some d -> parseable r = true).
Proof.
  apply (api_timestamp_is_stored 1704456007). lia.
Defined.

(** ** From a response to the arguments of a record *)

(** Whole seconds that fall in the years 1 to 9999. *)
Definition in_year_range (t : Z) : Prop := -62135596800 <= t <= 253402300799.

Lemma fromtimestamp_int (t : Z) :
  in_year_range t -> exists d, fromtimestamp (JInt t) = OK d.
Proof.
  unfold in_year_range. intros H. simpl. unfold utc_datetime.
  change (2 ^ 63) with 9223372036854775808.
  assert (E1 : orb (t <? Z.opp 9223372036854775808) (9223372036854775808 <=? t) = false).
  { apply orb_false_iff. split; [apply Z.ltb_ge | apply Z.leb_gt]; lia. }
  assert (E2 : orb (t <? -62135596800) (253402300799 <? t) = false).
  { apply orb_false_iff. split; apply Z.ltb_ge; lia. }
  rewrite E1, E2.
  destruct (civil_from_days (t / 86400)) as [[y m] d]. eexists. reflexivity.
Qed.

(** X17. A response needs only its three times to become the arguments of
    a record: when [dt], [sys.sunrise] and [sys.sunset] are whole numbers of
    seconds within the years 1 to 9999, the arguments are built whatever
    else the response holds; every other argument is the value found at its
    path, or [None] when the path cannot be walked, and city, country and
    units are those of the call and of the client.  When [dt] is missing, no
    record is built: the conversion of [None] raises a [TypeError]. *)
Theorem record_args_needs_three_times :
  forall (client : OpenWeatherClient) (city_name country_code : string) (raw : json),
    (forall (dt sunrise sunset : Z),
       get_field raw [KStr "dt"] JNull = JInt dt ->
       get_field raw [KStr "sys"; KStr "sunrise"] JNull = JInt sunrise ->
       get_field raw [KStr "sys"; KStr "sunset"] JNull = JInt sunset ->
       in_year_range dt -> in_year_range sunrise -> in_year_range sunset ->
       exists args,
         record_args client city_name country_code raw = OK args
         /\ a_city args = city_name /\ a_country args = country_code
         /\ a_units args = ApiClient.units client
         /\ fromtimestamp (JInt dt) = OK (a_timestamp args)
         /\ fromtimestamp (JInt sunrise) = OK (a_sunrise args)
         /\ fromtimestamp (JInt sunset) = OK (a_sunset args)
         /\ a_timezone_offset args = get_field raw [KStr "timezone"] JNull
         /\ a_weather args = get_field raw [KStr "weather"; KInt 0; KStr "main"] JNull
         /\ a_weather_description args
            = get_field raw [KStr "weather"; KInt 0; KStr "description"] JNull
         /\ a_temperature_min args = get_field raw [KStr "main"; KStr "temp_min"] JNull
         /\ a_temperature_max args = get_field raw [KStr "main"; KStr "temp_max"] JNull
         /\ a_temperature_current args = get_field raw [KStr "main"; KStr "temp"] JNull
         /\ a_temperature_feels_like args
            = get_field raw [KStr "main"; KStr "feels_like"] JNull
         /\ a_cloudiness args = get_field raw [KStr "clouds"; KStr "all"] JNull
         /\ a_wind_speed args = get_field raw [KStr "wind"; KStr "speed"] JNull
         /\ a_wind_direction_deg args = get_field raw [KStr "wind"; KStr "deg"] JNull
         /\ a_humidity args = get_field raw [KStr "main"; KStr "humidity"] JNull
         /\ a_pressure args = get_field raw [KStr "main"; KStr "pressure"] JNull)
    /\ ((forall v, ~ reaches raw [KStr "dt"] v) ->
        record_args client city_name country_code raw
        = raise TypeError "'NoneType' object cannot be interpreted as an integer").
Proof.
  intros client city_name country_code raw. split.
  - intros dt sunrise sunset Hdt Hsr Hss Rdt Rsr Rss.
    destruct (fromtimestamp_int dt Rdt) as (d1 & H1).
    destruct (fromtimestamp_int sunrise Rsr) as (d2 & H2).
    destruct (fromtimestamp_int sunset Rss) as (d3 & H3).
    unfold record_args. rewrite Hdt, Hsr, Hss, H1, H2, H3.
    cbn [bind]. eexists. split; [reflexivity|].
    cbn [a_city a_country a_units a_timestamp a_sunrise a_sunset a_timezone_offset
         a_weather a_weather_description a_temperature_min a_temperature_max
         a_temperature_current a_temperature_feels_like a_cloudiness a_wind_speed
         a_wind_direction_deg a_humidity a_pressure].
    repeat split.
  - intros Hno. unfold record_args.
    destruct (get_field_total [KStr "dt"] raw JNull) as [[v Hv] | [_ Hdef]].
    + exfalso. apply (Hno v). exact Hv.
    + rewrite Hdef. reflexivity.
Qed.

(** A response with nothing but the three times. *)
Definition body_times_only : json :=
  JDict [ (KStr "dt", JInt 1704456007);
          (KStr "sys", JDict [(KStr "sunrise", JInt 1704441060);
                              (KStr "sunset", JInt 1704475680)]) ].

Lemma record_args_needs_three_times_witness :
  exists args,
    record_args client_pt "Lisbon" "PT" body_times_only = OK args
    /\ a_timezone_offset args = JNull
    /\ a_wind_direction_deg args = JNull
    /\ a_temperature_current args = JNull.
Proof.
  destruct (proj1 (record_args_needs_three_times client_pt "Lisbon" "PT" body_times_only)
                  1704456007 1704441060 1704475680
                  eq_refl eq_refl eq_refl)
    as (args & Hargs & _ & _ & _ & _ & _ & _ & Htz & _ & _ & _ & _ & Htemp & _ & _ & _
        & Hwind & _);
    try (unfold in_year_range; lia).
  exists args. split; [exact Hargs|]. split; [exact Htz|]. split; [exact Hwind | exact Htemp].
Defined.

(** ** City names and the reference list *)

Definition ascii_only (s : string) : bool :=
  forallb ConfigLoader.is_ascii (list_ascii_of_string s).

Definition blank (s : string) : bool := forallb is_space (list_ascii_of_string s).

Ltac each_char c :=
  destruct c as [[] [] [] [] [] [] [] []]; try reflexivity; try discriminate.

Lemma lower_ascii_idem (c : ascii) : lower_ascii (lower_ascii c) = lower_ascii c.
Proof. each_char c. Qed.

Lemma lower_upper_ascii (c : ascii) : lower_ascii (upper_ascii c) = lower_ascii c.
Proof. each_char c. Qed.

Lemma upper_lower_ascii (c : ascii) : upper_ascii (lower_ascii c) = upper_ascii c.
Proof. each_char c. Qed.

Lemma upper_ascii_idem (c : ascii) : upper_ascii (upper_ascii c) = upper_ascii c.
Proof. each_char c. Qed.

Lemma is_space_lower (c : ascii) : is_space (lower_ascii c) = is_space c.
Proof. each_char c. Qed.

Lemma is_space_upper (c : ascii) : is_space (upper_ascii c) = is_space c.
Proof. each_char c. Qed.

Lemma is_ascii_lower (c : ascii) :
  ConfigLoader.is_ascii (lower_ascii c) = ConfigLoader.is_ascii c.
Proof. each_char c. Qed.

Lemma is_ascii_upper (c : ascii) :
  ConfigLoader.is_ascii (upper_ascii c) = ConfigLoader.is_ascii c.
Proof. each_char c. Qed.

Lemma lower_idem (s : string) : lower (lower s) = lower s.
Proof.
  induction s as [|c s IH]; simpl; [reflexivity|].
  rewrite lower_ascii_idem, IH. reflexivity.
Qed.

Lemma lower_upper (s : string) : lower (upper s) = lower s.
Proof.
  induction s as [|c s IH]; simpl; [reflexivity|].
  rewrite lower_upper_ascii, IH. reflexivity.
Qed.

Lemma upper_lower (s : string) : upper (lower s) = upper s.
Proof.
  induction s as [|c s IH]; simpl; [reflexivity|].
  rewrite upper_lower_ascii, IH. reflexivity.
Qed.

Lemma upper_idem (s : string) : upper (upper s) = upper s.
Proof.
  induction s as [|c s IH]; simpl; [reflexivity|].
  rewrite upper_ascii_idem, IH. reflexivity.
Qed.

Lemma ascii_only_lower (s : string) : ascii_only (lower s) = ascii_only s.
Proof.
  unfold ascii_only. induction s as [|c s IH]; simpl; [reflexivity|].
  rewrite is_ascii_lower, IH. reflexivity.
Qed.

Lemma ascii_only_upper (s : string) : ascii_only (upper s) = ascii_only s.
Proof.
  unfold ascii_only. induction s as [|c s IH]; simpl; [reflexivity|].
  rewrite is_ascii_upper, IH. reflexivity.
Qed.

Module Strip.
Import ConfigLoader.

Lemma encode_ascii_only (s : string) : ascii_only (encode_ascii_ignore s) = true.
Proof.
  unfold ascii_only. induction s as [|c s IH]; simpl; [reflexivity|].
  destruct (is_ascii c) eqn:E; simpl; [rewrite E|]; exact IH.
Qed.

Lemma encode_ascii_id (s : string) : ascii_only s = true -> encode_ascii_ignore s = s.
Proof.
  unfold ascii_only. induction s as [|c s IH]; simpl; [reflexivity|].
  intros H. apply andb_true_iff in H. destruct H as [Hc Hs].
  rewrite Hc, (IH Hs). reflexivity.
Qed.

Lemma ascii_only_lstrip (s : string) : ascii_only s = true -> ascii_only (lstrip s) = true.
Proof.
  unfold ascii_only. induction s as [|c s IH]; simpl; [reflexivity|].
  intros H. destruct (is_space c); [|exact H].
  apply andb_true_iff in H. apply IH. tauto.
Qed.

Lemma ascii_only_rstrip (s : string) : ascii_only s = true -> ascii_only (rstrip s) = true.
Proof.
  unfold ascii_only. induction s as [|c s IH]; simpl; [reflexivity|].
  intros H. apply andb_true_iff in H. destruct H as [Hc Hs].
  specialize (IH Hs).
  destruct (rstrip s) as [|c' r].
  - destruct (is_space c); simpl; [reflexivity | rewrite Hc; reflexivity].
  - simpl in *. rewrite Hc. exact IH.
Qed.

Lemma ascii_only_strip (s : string) : ascii_only s = true -> ascii_only (strip s) = true.
Proof.
  intros H. unfold strip. apply ascii_only_rstrip, ascii_only_lstrip, H.
Qed.

(** Case mapping does not change where the white space is. *)
Lemma lstrip_map (f : ascii -> ascii) (g : string -> string) :
  (forall c, is_space (f c) = is_space c) ->
  (forall c r, g (String c r) = String (f c) (g r)) -> g "" = "" ->
  forall s, lstrip (g s) = g (lstrip s).
Proof.
  intros Hf Hg H0. induction s as [|c s IH].
  - simpl. rewrite H0. reflexivity.
  - rewrite Hg. simpl. rewrite Hf. destruct (is_space c); [exact IH|].
    rewrite Hg. reflexivity.
Qed.

Lemma rstrip_map (f : ascii -> ascii) (g : string -> string) :
  (forall c, is_space (f c) = is_space c) ->
  (forall c r, g (String c r) = String (f c) (g r)) -> g "" = "" ->
  forall s, rstrip (g s) = g (rstrip s).
Proof.
  intros Hf Hg H0. induction s as [|c s IH].
  - simpl. rewrite H0. reflexivity.
  - rewrite Hg. simpl. rewrite IH, Hf.
    destruct (rstrip s) as [|c' r].
    + rewrite H0. destruct (is_space c); [symmetry; exact H0|].
      rewrite Hg, H0. reflexivity.
    + rewrite (Hg c' r), (Hg c (String c' r)), (Hg c' r). reflexivity.
Qed.

Lemma strip_lower (s : string) : strip (lower s) = lower (strip s).
Proof.
  unfold strip.
  rewrite (lstrip_map lower_ascii lower is_space_lower (fun _ _ => eq_refl) eq_refl).
  apply (rstrip_map lower_ascii lower is_space_lower (fun _ _ => eq_refl) eq_refl).
Qed.

Lemma strip_upper (s : string) : strip (upper s) = upper (strip s).
Proof.
  unfold strip.
  rewrite (lstrip_map upper_ascii upper is_space_upper (fun _ _ => eq_refl) eq_refl).
  apply (rstrip_map upper_ascii upper is_space_upper (fun _ _ => eq_refl) eq_refl).
Qed.

Lemma rstrip_idem (s : string) : rstrip (rstrip s) = rstrip s.
Proof.
  induction s as [|c s IH]; [reflexivity|].
  simpl. destruct (rstrip s) as [|c' r] eqn:E.
  - destruct (is_space c) eqn:Ec; [reflexivity|].
    simpl. rewrite Ec. reflexivity.
  - change (rstrip (String c (String c' r)))
      with (match rstrip (String c' r) with
            | EmptyString => if is_space c then EmptyString else String c EmptyString
            | kept => String c kept
            end).
    rewrite IH. reflexivity.
Qed.

(** What [lstrip] leaves is empty or starts with a character that is not
    white space; [rstrip] keeps such a start. *)
Definition starts_inked (s : string) : bool :=
  match s with
  | EmptyString => true
  | String c _ => negb (is_space c)
  end.

Lemma lstrip_inked (s : string) : starts_inked (lstrip s) = true.
Proof.
  induction s as [|c s IH]; [reflexivity|].
  simpl. destruct (is_space c) eqn:E; [exact IH|]. simpl. rewrite E. reflexivity.
Qed.

Lemma lstrip_of_inked (s : string) : starts_inked s = true -> lstrip s = s.
Proof.
  destruct s as [|c s]; [reflexivity|]. simpl. intros H.
  apply negb_true_iff in H. rewrite H. reflexivity.
Qed.

Lemma rstrip_inked (s : string) : starts_inked s = true -> starts_inked (rstrip s) = true.
Proof.
  destruct s as [|c s]; [reflexivity|]. simpl. intros H.
  destruct (rstrip s); [|exact H].
  apply negb_true_iff in H. rewrite H. simpl. rewrite H. reflexivity.
Qed.

Lemma strip_idem (s : string) : strip (strip s) = strip s.
Proof.
  unfold strip.
  rewrite (lstrip_of_inked (rstrip (lstrip s))) by (apply rstrip_inked, lstrip_inked).
  apply rstrip_idem.
Qed.

End Strip.

Section Normalized.

Variable nfkd : string -> string.
(** NFKD leaves ASCII text as it is: no ASCII character has a
    decomposition. *)
Hypothesis nfkd_ascii : forall s, ascii_only s = true -> nfkd s = s.

Lemma normalize_city_ascii (name : string) :
  ascii_only name = true ->
  ConfigLoader.normalize_city nfkd name = lower (ConfigLoader.strip name).
Proof.
  intros H. unfold ConfigLoader.normalize_city.
  rewrite (nfkd_ascii name H), (Strip.encode_ascii_id name H). reflexivity.
Qed.

Lemma normalize_city_ascii_only (name : string) :
  ascii_only (ConfigLoader.normalize_city nfkd name) = true.
Proof.
  unfold ConfigLoader.normalize_city. rewrite ascii_only_lower.
  apply Strip.ascii_only_strip, Strip.encode_ascii_only.
Qed.

End Normalized.

(** X18. A normalized city name is in normal form: it is plain ASCII, has no
    upper-case letter and no white space at either end, and normalizing it
    again changes nothing. *)
Theorem normalize_city_normal_form :
  forall (nfkd : string -> string) (name : string),
    (forall s, ascii_only s = true -> nfkd s = s) ->
    let n := ConfigLoader.normalize_city nfkd name in
    ascii_only n = true
    /\ lower n = n
    /\ ConfigLoader.strip n = n
    /\ ConfigLoader.normalize_city nfkd n = n.
Proof.
  intros nfkd name Hnfkd n.
  assert (Ha : ascii_only n = true) by apply normalize_city_ascii_only.
  assert (Hl : lower n = n) by apply lower_idem.
  assert (Hs : ConfigLoader.strip n = n).
  { unfold n, ConfigLoader.normalize_city.
    rewrite Strip.strip_lower, Strip.strip_idem. reflexivity. }
  split; [exact Ha|]. split; [exact Hl|]. split; [exact Hs|].
  rewrite (normalize_city_ascii nfkd Hnfkd n Ha), Hs. exact Hl.
Qed.

(** The decomposition of a few letters, enough for the examples of the
    source: "ö" becomes "o" followed by the combining diaeresis, "ã" becomes
    "a" followed by the combining tilde; everything else is left as it is. *)
Fixpoint nfkd_sample (s : string) : string :=
  match s with
  | String "195" (String "182" r) => String "o" (String "204" (String "136" (nfkd_sample r)))
  | String "195" (String "163" r) => String "a" (String "204" (String "131" (nfkd_sample r)))
  | String c r => String c (nfkd_sample r)
  | EmptyString => EmptyString
  end.

Lemma nfkd_sample_ascii (s : string) : ascii_only s = true -> nfkd_sample s = s.
Proof.
  unfold ascii_only. induction s as [|c s IH]; [reflexivity|].
  intros H. simpl in H. apply andb_true_iff in H. destruct H as [Hc Hs].
  assert (Hstep : nfkd_sample (String c s) = String c (nfkd_sample s)).
  { destruct c as [[] [] [] [] [] [] [] []]; try discriminate Hc; reflexivity. }
  rewrite Hstep, (IH Hs). reflexivity.
Qed.

(** The examples of the source. *)
Example normalize_city_examples :
  ConfigLoader.normalize_city nfkd_sample "Köln" = "koln"
  /\ ConfigLoader.normalize_city nfkd_sample "  Lisboa " = "lisboa".
Proof.
  split; vm_compute; reflexivity.
Qed.

Lemma normalize_city_normal_form_witness :
  let n := ConfigLoader.normalize_city nfkd_sample "  São Paulo " in
  ascii_only n = true
  /\ lower n = n
  /\ ConfigLoader.strip n = n
  /\ ConfigLoader.normalize_city nfkd_sample n = n.
Proof.
  apply (normalize_city_normal_form nfkd_sample "  São Paulo ").
  apply nfkd_sample_ascii.
Defined.

Section LoaderFacts.

Variable yaml_value : Type.
Variable path_exists : Storage.Path -> bool.
Variable read_json : Storage.Path -> ConfigLoader.outcome json.
Variable nfkd : string -> string.

Let Loader : Type := ConfigLoader.ConfigLoader yaml_value.
Let normalize : string -> string := ConfigLoader.normalize_city nfkd.
Let load : Loader -> Loader * ConfigLoader.outcome (list (string * string)) :=
  ConfigLoader.load_valid_cities path_exists read_json nfkd.

(** An entry of the city list with a name and a country code. *)
Definition listed (entries : list json) (name country : string) : Prop :=
  exists items,
    In (JDict items) entries
    /\ lookup (KStr "name") items = Some (JStr name)
    /\ lookup (KStr "country") items = Some (JStr country).

Lemma city_key_Return (c : json) (k : string * string) :
  ConfigLoader.city_key nfkd c = ConfigLoader.Return k ->
  exists items name country,
    c = JDict items
    /\ lookup (KStr "name") items = Some (JStr name)
    /\ lookup (KStr "country") items = Some (JStr country)
    /\ k = (normalize name, upper country).
Proof.
  unfold ConfigLoader.city_key, ConfigLoader.subscript. intros H.
  destruct c as [| | | | |l|items]; try discriminate H.
  destruct (lookup (KStr "name") items) as [v|] eqn:En; [|discriminate H].
  destruct v as [| | | |name| |]; try discriminate H.
  destruct (lookup (KStr "country") items) as [w|] eqn:Ec; [|discriminate H].
  destruct w as [| | | |country| |]; try discriminate H.
  inversion H; subst k. exists items, name, country. repeat split; assumption.
Qed.

Lemma city_keys_Return (entries : list json) :
  forall keys,
    ConfigLoader.city_keys nfkd entries = ConfigLoader.Return keys ->
    forall k, In k keys <->
              exists name country,
                listed entries name country /\ k = (normalize name, upper country).
Proof.
  induction entries as [|c entries IH]; intros keys H k; simpl in H.
  - inversion H; subst keys. split; [intros [] | intros (n & c & (items & [] & _) & _)].
  - destruct (ConfigLoader.city_key nfkd c) as [k0|e] eqn:Ek; [|discriminate H].
    destruct (ConfigLoader.city_keys nfkd entries) as [ks|e] eqn:Eks; [|discriminate H].
    inversion H; subst keys; clear H.
    destruct (city_key_Return c k0 Ek) as (items & name & country & Hc & Hn & Hk & Hk0).
    specialize (IH ks eq_refl k). split.
    + intros [Hin|Hin].
      * subst k. exists name, country. split; [|exact Hk0].
        exists items. split; [left; exact Hc | split; assumption].
      * apply IH in Hin. destruct Hin as (n & c' & (items' & Hin & Hl) & Heq).
        exists n, c'. split; [|exact Heq]. exists items'. split; [right; exact Hin | exact Hl].
    + intros (n & c' & (items' & [Hin|Hin] & Hn' & Hc') & Heq).
      * left. subst c. inversion Hin; subst items'.
        rewrite Hn in Hn'. rewrite Hk in Hc'. inversion Hn'; inversion Hc'; subst.
        reflexivity.
      * right. apply IH. exists n, c'. split; [|exact Heq].
        exists items'. split; [exact Hin | split; assumption].
Qed.

Lemma pair_eqb_eq (a b : string * string) : ConfigLoader.pair_eqb a b = true <-> a = b.
Proof.
  destruct a as [a1 a2], b as [b1 b2]. unfold ConfigLoader.pair_eqb. simpl.
  rewrite andb_true_iff, !String.eqb_eq. split; [intros [-> ->]; reflexivity|].
  intros H. inversion H. split; reflexivity.
Qed.

(** What a successful load of a list of entries leaves in the loader. *)
Lemma load_Return (self self' : Loader) (keys : list (string * string)) :
  load self = (self', ConfigLoader.Return keys) ->
  ConfigLoader.valid_cities_set self' = Some keys
  /\ exists city_list entries,
       read_json (ConfigLoader.city_list_path self) = ConfigLoader.Return city_list
       /\ ConfigLoader.iterate city_list = ConfigLoader.Return entries
       /\ ConfigLoader.city_keys nfkd entries = ConfigLoader.Return keys.
Proof.
  intros H. unfold load, ConfigLoader.load_valid_cities in H.
  destruct (negb (path_exists (ConfigLoader.city_list_path self))); [discriminate H|].
  destruct (read_json (ConfigLoader.city_list_path self)) as [city_list|e]; [|discriminate H].
  destruct (ConfigLoader.iterate city_list) as [entries|e] eqn:Ei; [|discriminate H].
  destruct (ConfigLoader.city_keys nfkd entries) as [ks|e] eqn:Ek; [|discriminate H].
  inversion H; subst. split; [reflexivity|].
  exists city_list, entries. repeat split; assumption.
Qed.

End LoaderFacts.

(** X19. After the reference list has been loaded, a city is valid exactly
    when the list has an entry with the same normalized name and the same
    country code in upper case; in particular every city of the list is
    valid under the name and the country code the list gives it. *)
Theorem validate_city_after_load :
  forall (yaml_value : Type) (path_exists : Storage.Path -> bool)
         (read_json : Storage.Path -> ConfigLoader.outcome json) (nfkd : string -> string)
         (self self' : ConfigLoader.ConfigLoader yaml_value)
         (entries : list json) (keys : list (string * string)),
    read_json (ConfigLoader.city_list_path self) = ConfigLoader.Return (JList entries) ->
    ConfigLoader.load_valid_cities path_exists read_json nfkd self
    = (self', ConfigLoader.Return keys) ->
    (forall city country,
       exists b,
         ConfigLoader.validate_city nfkd self' city country = ConfigLoader.Return b
         /\ (b = true <->
             exists name code,
               listed entries name code
               /\ ConfigLoader.normalize_city nfkd name = ConfigLoader.normalize_city nfkd city
               /\ upper code = upper country))
    /\ (forall name code,
          listed entries name code ->
          ConfigLoader.validate_city nfkd self' name code = ConfigLoader.Return true).
Proof.
  intros yaml_value path_exists read_json nfkd self self' entries keys Hread Hload.
  destruct (load_Return yaml_value path_exists read_json nfkd self self' keys Hload)
    as (Hset & city_list & entries' & Hread' & Hiter & Hkeys).
  rewrite Hread in Hread'. inversion Hread'; subst city_list.
  simpl in Hiter. inversion Hiter; subst entries'.
  pose proof (city_keys_Return nfkd entries keys Hkeys) as Hin.
  assert (Hiff : forall city country,
            existsb (ConfigLoader.pair_eqb
                       (ConfigLoader.normalize_city nfkd city, upper country)) keys = true
            <-> exists name code,
                  listed entries name code
                  /\ ConfigLoader.normalize_city nfkd name
                     = ConfigLoader.normalize_city nfkd city
                  /\ upper code = upper country).
  { intros city country. rewrite existsb_exists. split.
    - intros (k & Hk & Heq). apply pair_eqb_eq in Heq. subst k.
      apply Hin in Hk. destruct Hk as (name & code & Hl & Heq).
      inversion Heq. exists name, code. repeat split; [exact Hl | congruence | congruence].
    - intros (name & code & Hl & Hn & Hc).
      exists (ConfigLoader.normalize_city nfkd city, upper country).
      split; [|apply pair_eqb_eq; reflexivity].
      apply Hin. exists name, code. split; [exact Hl|]. rewrite Hn, Hc. reflexivity. }
  split.
  - intros city country. unfold ConfigLoader.validate_city. rewrite Hset.
    eexists. split; [reflexivity|]. apply Hiff.
  - intros name code Hl. unfold ConfigLoader.validate_city. rewrite Hset.
    f_equal. apply Hiff. exists name, code. repeat split. exact Hl.
Qed.

(** A reference list of two cities on disk. *)
Definition city_list_sample : list json :=
  [ JDict [(KStr "id", JInt 2267057); (KStr "name", JStr "Lisbon");
           (KStr "state", JStr ""); (KStr "country", JStr "PT")];
    JDict [(KStr "id", JInt 2886242); (KStr "name", JStr "Köln");
           (KStr "state", JStr ""); (KStr "country", JStr "DE")] ].

Definition loader_sample : ConfigLoader.ConfigLoader json :=
  ConfigLoader.new JNull "config/config.yaml" "config/city.list.json".

Definition read_sample (p : Storage.Path) : ConfigLoader.outcome json :=
  ConfigLoader.Return (JList city_list_sample).

Definition loaded_sample : ConfigLoader.ConfigLoader json :=
  fst (ConfigLoader.load_valid_cities (fun _ => true) read_sample nfkd_sample loader_sample).

Lemma validate_city_after_load_witness :
  (forall city country,
     exists b,
       ConfigLoader.validate_city nfkd_sample loaded_sample city country
       = ConfigLoader.Return b
       /\ (b = true <->
           exists name code,
             listed city_list_sample name code
             /\ ConfigLoader.normalize_city nfkd_sample name
                = ConfigLoader.normalize_city nfkd_sample city
             /\ upper code = upper country))
  /\ (forall name code,
        listed city_list_sample name code ->
        ConfigLoader.validate_city nfkd_sample loaded_sample name code
        = ConfigLoader.Return true).
Proof.
  apply (validate_city_after_load json (fun _ => true) read_sample nfkd_sample
           loader_sample loaded_sample city_list_sample
           [("lisbon", "PT"); ("koln", "DE")]).
  - reflexivity.
  - vm_compute. reflexivity.
Defined.

Module Blanks.
Import ConfigLoader.

Lemma blank_ascii (s : string) : blank s = true -> ascii_only s = true.
Proof.
  unfold blank, ascii_only. induction s as [|c s IH]; simpl; [reflexivity|].
  intros H. apply andb_true_iff in H. destruct H as [Hc Hs].
  rewrite (IH Hs), andb_true_r.
  destruct c as [[] [] [] [] [] [] [] []]; try discriminate Hc; reflexivity.
Qed.

Lemma ascii_only_app (a b : string) :
  ascii_only (a ++ b) = andb (ascii_only a) (ascii_only b).
Proof.
  unfold ascii_only. induction a as [|c a IH]; simpl; [reflexivity|].
  rewrite IH. apply andb_assoc.
Qed.

Lemma lstrip_blank (s : string) : blank s = true -> lstrip s = "".
Proof.
  unfold blank. induction s as [|c s IH]; simpl; [reflexivity|].
  intros H. apply andb_true_iff in H. destruct H as [Hc Hs].
  rewrite Hc. apply IH. exact Hs.
Qed.

Lemma rstrip_blank (s : string) : blank s = true -> rstrip s = "".
Proof.
  unfold blank. induction s as [|c s IH]; simpl; [reflexivity|].
  intros H. apply andb_true_iff in H. destruct H as [Hc Hs].
  rewrite (IH Hs), Hc. reflexivity.
Qed.

Lemma lstrip_app_blank (before s : string) :
  blank before = true -> lstrip (before ++ s) = lstrip s.
Proof.
  unfold blank. induction before as [|c before IH]; simpl; [reflexivity|].
  intros H. apply andb_true_iff in H. destruct H as [Hc Hs].
  rewrite Hc. apply IH. exact Hs.
Qed.

Lemma rstrip_app_blank (s after : string) :
  blank after = true -> rstrip (s ++ after) = rstrip s.
Proof.
  intros H. induction s as [|c s IH]; simpl.
  - apply rstrip_blank. exact H.
  - rewrite IH. reflexivity.
Qed.

Lemma strip_padded (before s after : string) :
  blank before = true -> blank after = true ->
  strip (before ++ s ++ after) = strip s.
Proof.
  intros Hb Ha. unfold strip. rewrite lstrip_app_blank by exact Hb.
  induction s as [|c s IH]; simpl.
  - rewrite (lstrip_blank after Ha). reflexivity.
  - destruct (is_space c); [exact IH|].
    apply (rstrip_app_blank (String c s) after Ha).
Qed.

End Blanks.

(** X20. For a city name and a country code written in ASCII, validation
    looks neither at the case of the letters nor at white space around the
    name: the name in upper case, in lower case, or padded with blanks, and
    the country code in lower or upper case, all get the answer of the
    original spelling. *)
Theorem validate_city_ignores_case_and_blanks :
  forall (yaml_value : Type) (nfkd : string -> string)
         (self : ConfigLoader.ConfigLoader yaml_value)
         (city country before after : string),
    (forall s, ascii_only s = true -> nfkd s = s) ->
    ascii_only city = true -> ascii_only country = true ->
    blank before = true -> blank after = true ->
    ConfigLoader.validate_city nfkd self (upper city) country
    = ConfigLoader.validate_city nfkd self city country
    /\ ConfigLoader.validate_city nfkd self (lower city) country
       = ConfigLoader.validate_city nfkd self city country
    /\ ConfigLoader.validate_city nfkd self (before ++ city ++ after) country
       = ConfigLoader.validate_city nfkd self city country
    /\ ConfigLoader.validate_city nfkd self city (lower country)
       = ConfigLoader.validate_city nfkd self city country
    /\ ConfigLoader.validate_city nfkd self city (upper country)
       = ConfigLoader.validate_city nfkd self city country.
Proof.
  intros yaml_value nfkd self city country before after Hnfkd Hcity Hcountry Hb Ha.
  assert (Hup : ConfigLoader.normalize_city nfkd (upper city)
                = ConfigLoader.normalize_city nfkd city).
  { rewrite !(normalize_city_ascii nfkd Hnfkd) by (rewrite ?ascii_only_upper; exact Hcity).
    rewrite Strip.strip_upper. apply lower_upper. }
  assert (Hlow : ConfigLoader.normalize_city nfkd (lower city)
                 = ConfigLoader.normalize_city nfkd city).
  { rewrite !(normalize_city_ascii nfkd Hnfkd) by (rewrite ?ascii_only_lower; exact Hcity).
    rewrite Strip.strip_lower. apply lower_idem. }
  assert (Hpad : ConfigLoader.normalize_city nfkd (before ++ city ++ after)
                 = ConfigLoader.normalize_city nfkd city).
  { rewrite !(normalize_city_ascii nfkd Hnfkd).
    - rewrite Blanks.strip_padded by assumption. reflexivity.
    - exact Hcity.
    - rewrite !Blanks.ascii_only_app, Hcity, !Blanks.blank_ascii by assumption.
      reflexivity. }
  unfold ConfigLoader.validate_city.
  rewrite Hup, Hlow, Hpad, upper_lower, upper_idem.
  repeat split.
Qed.

Lemma validate_city_ignores_case_and_blanks_witness :
  ConfigLoader.validate_city nfkd_sample loaded_sample (upper "Lisbon") "pt"
  = ConfigLoader.validate_city nfkd_sample loaded_sample "Lisbon" "pt"
  /\ ConfigLoader.validate_city nfkd_sample loaded_sample (lower "Lisbon") "pt"
     = ConfigLoader.validate_city nfkd_sample loaded_sample "Lisbon" "pt"
  /\ ConfigLoader.validate_city nfkd_sample loaded_sample ("  " ++ "Lisbon" ++ " ") "pt"
     = ConfigLoader.validate_city nfkd_sample loaded_sample "Lisbon" "pt"
  /\ ConfigLoader.validate_city nfkd_sample loaded_sample "Lisbon" (lower "pt")
     = ConfigLoader.validate_city nfkd_sample loaded_sample "Lisbon" "pt"
  /\ ConfigLoader.validate_city nfkd_sample loaded_sample "Lisbon" (upper "pt")
     = ConfigLoader.validate_city nfkd_sample loaded_sample "Lisbon" "pt".
Proof.
  apply (validate_city_ignores_case_and_blanks json nfkd_sample loaded_sample
           "Lisbon" "pt" "  " " ").
  - apply nfkd_sample_ascii.
  - reflexivity.
  - reflexivity.
  - reflexivity.
  - reflexivity.
Defined.

(** X21. Until the reference list has been loaded the loader cannot
    validate: a fresh loader, and a loader whose load failed (the file is
    missing, cannot be parsed, is not a list of entries, or has an entry
    without a name or a country), answers every validation with the
    [RuntimeError] that asks for the list to be loaded first; and a missing
    file is reported as [FileNotFoundError] without being opened. *)
Theorem validate_city_needs_loaded_list :
  forall (yaml_value : Type) (yaml_none : yaml_value) (path_exists : Storage.Path -> bool)
         (read_json : Storage.Path -> ConfigLoader.outcome json) (nfkd : string -> string)
         (config_path city_list_path city country : string),
    let fresh := ConfigLoader.new yaml_none config_path city_list_path in
    let not_loaded :=
      ConfigLoader.Throw
        (ConfigLoader.mkError ConfigLoader.RuntimeError
           "Valid cities set not loaded. Call load_valid_cities() first.") in
    ConfigLoader.validate_city nfkd fresh city country = not_loaded
    /\ (forall e,
          snd (ConfigLoader.load_valid_cities path_exists read_json nfkd fresh)
          = ConfigLoader.Throw e ->
          ConfigLoader.validate_city
            nfkd (fst (ConfigLoader.load_valid_cities path_exists read_json nfkd fresh))
            city country
          = not_loaded)
    /\ (path_exists (Storage.parse_path city_list_path) = false ->
        forall read_json' : Storage.Path -> ConfigLoader.outcome json,
          ConfigLoader.load_valid_cities path_exists read_json' nfkd fresh
          = (fresh,
             ConfigLoader.Throw
               (ConfigLoader.mkError ConfigLoader.FileNotFoundError
                  ("City list not found: "
                     ++ ConfigLoader.path_str (Storage.parse_path city_list_path))))).
Proof.
  intros yaml_value yaml_none path_exists read_json nfkd config_path city_list_path
         city country fresh not_loaded.
  split; [reflexivity|]. split.
  - intros e. unfold ConfigLoader.load_valid_cities.
    destruct (negb (path_exists (ConfigLoader.city_list_path fresh))); [reflexivity|].
    destruct (read_json (ConfigLoader.city_list_path fresh)) as [city_list|e1];
      [|reflexivity].
    destruct (ConfigLoader.iterate city_list) as [entries|e2]; [|reflexivity].
    destruct (ConfigLoader.city_keys nfkd entries) as [keys|e3]; [|reflexivity].
    simpl. discriminate.
  - intros Hmissing read_json'. unfold ConfigLoader.load_valid_cities.
    change (ConfigLoader.city_list_path fresh) with (Storage.parse_path city_list_path).
    rewrite Hmissing. reflexivity.
Qed.

(** ** Tags of the storage *)

(** X22. The format and layout tags given to [Storage] are matched without
    regard to case: for tags written in ASCII, the storage built from the
    tags in upper case or in lower case is the storage built from the tags as
    given, so every write behaves the same; and the tags it holds are in
    lower case. *)
Theorem storage_tags_ignore_case :
  forall (base_path fmt layout : string) (now : datetime)
         (records : list WeatherRecord) (fs : FS),
    ascii_only fmt = true -> ascii_only layout = true ->
    new base_path (upper fmt) (upper layout) = new base_path fmt layout
    /\ new base_path (lower fmt) (lower layout) = new base_path fmt layout
    /\ Storage.fmt (new base_path fmt layout) = lower fmt
    /\ Storage.layout (new base_path fmt layout) = lower layout
    /\ write (new base_path (upper fmt) (upper layout)) now records fs
       = write (new base_path fmt layout) now records fs.
Proof.
  intros base_path fmt layout now records fs _ _.
  assert (Hup : new base_path (upper fmt) (upper layout) = new base_path fmt layout).
  { unfold new. rewrite !lower_upper. reflexivity. }
  split; [exact Hup|]. split.
  - unfold new. rewrite !lower_idem. reflexivity.
  - rewrite Hup. repeat split.
Qed.

Lemma storage_tags_ignore_case_witness :
  new "data/weather" (upper "Csv") (upper "Hive_Compact") = new "data/weather" "Csv" "Hive_Compact"
  /\ new "data/weather" (lower "Csv") (lower "Hive_Compact")
     = new "data/weather" "Csv" "Hive_Compact"
  /\ Storage.fmt (new "data/weather" "Csv" "Hive_Compact") = lower "Csv"
  /\ Storage.layout (new "data/weather" "Csv" "Hive_Compact") = lower "Hive_Compact"
  /\ write (new "data/weather" (upper "Csv") (upper "Hive_Compact")) run_time
           [lisbon; porto] empty_fs
     = write (new "data/weather" "Csv" "Hive_Compact") run_time [lisbon; porto] empty_fs.
Proof.
  apply (storage_tags_ignore_case "data/weather" "Csv" "Hive_Compact" run_time
           [lisbon; porto] empty_fs); reflexivity.
Defined.

(** ** The application logger *)

Module LoggerFacts.
Import Logger.

Lemma find_replace_same (n : string) (lg : Logger) (d : list (string * Logger)) :
  find_logger n d <> None -> find_logger n (replace_logger n lg d) = Some lg.
Proof.
  induction d as [|[k old] d IH]; simpl; [congruence|].
  destruct (String.eqb n k) eqn:E; simpl; rewrite E; [reflexivity | exact IH].
Qed.

Lemma find_replace_other (n n' : string) (lg : Logger) (d : list (string * Logger)) :
  n' <> n -> find_logger n' (replace_logger n lg d) = find_logger n' d.
Proof.
  intros Hne. induction d as [|[k old] d IH]; simpl; [reflexivity|].
  destruct (String.eqb n k) eqn:E; simpl.
  - apply String.eqb_eq in E. subst k.
    destruct (String.eqb n' n) eqn:E'; [|reflexivity].
    apply String.eqb_eq in E'. contradiction.
  - rewrite IH. reflexivity.
Qed.

Lemma replace_same (n : string) (lg : Logger) (d : list (string * Logger)) :
  find_logger n d = Some lg -> replace_logger n lg d = d.
Proof.
  induction d as [|[k old] d IH]; simpl; [reflexivity|].
  destruct (String.eqb n k) eqn:E.
  - intros H. inversion H. reflexivity.
  - intros H. rewrite (IH H). reflexivity.
Qed.

Lemma find_app_new (n : string) (lg : Logger) (d : list (string * Logger)) :
  find_logger n d = None -> find_logger n (d ++ [(n, lg)]) = Some lg.
Proof.
  induction d as [|[k old] d IH]; simpl.
  - rewrite String.eqb_refl. reflexivity.
  - destruct (String.eqb n k); [discriminate | exact IH].
Qed.

Lemma find_app_other (n n' : string) (lg : Logger) (d : list (string * Logger)) :
  n' <> n -> find_logger n' (d ++ [(n, lg)]) = find_logger n' d.
Proof.
  intros Hne. induction d as [|[k old] d IH]; simpl.
  - destruct (String.eqb n' n) eqn:E; [|reflexivity].
    apply String.eqb_eq in E. contradiction.
  - destruct (String.eqb n' k); [reflexivity | exact IH].
Qed.

End LoggerFacts.

(** The logger a name stands for, if it exists. *)
Definition logger_named (n : string) (m : Logger.Manager) : option Logger.Logger :=
  if Logger.is_root n then Some (Logger.root m)
  else Logger.find_logger n (Logger.loggerDict m).

(** The handler the application installs. *)
Definition stdout_handler : Logger.Handler :=
  Logger.mkHandler "stdout" "%(asctime)s - %(levelname)s - %(message)s" "%Y-%m-%d %H:%M:%S".

Ltac settle :=
  repeat split; intros;
  repeat match goal with
         | H : Some _ = Some ?x |- _ => inversion H; subst x; clear H
         | H : forall old, Some ?a = Some old -> _ |- _ => specialize (H a eq_refl)
         end;
  simpl in *;
  try match goal with
      | H : Logger.is_root ?x = false |- context [Logger.is_root ?x] => rewrite H
      end;
  try first [discriminate | reflexivity | congruence].

(** X23. Setting up the logger is idempotent and never duplicates a handler:
    the logger returned is at level INFO and has at least one handler; when
    the logger had no handler it gets exactly the one stdout handler and stops
    propagating, when it already had handlers they and its propagation flag
    are left as they are; the logger is stored under its name; a second call
    returns the same logger and changes nothing; and no other logger is
    touched. *)
Theorem setup_logger_idempotent :
  forall (n : string) (m : Logger.Manager),
    let m1 := fst (Logger.setup_logger n m) in
    let logger := snd (Logger.setup_logger n m) in
    Logger.level logger = Logger.INFO
    /\ Logger.handlers logger <> []
    /\ (forall old, logger_named n m = Some old -> Logger.handlers old <> [] ->
          Logger.handlers logger = Logger.handlers old
          /\ Logger.propagate logger = Logger.propagate old)
    /\ ((forall old, logger_named n m = Some old -> Logger.handlers old = []) ->
        Logger.handlers logger = [stdout_handler] /\ Logger.propagate logger = false)
    /\ logger_named n m1 = Some logger
    /\ Logger.setup_logger n m1 = (m1, logger)
    /\ (forall n', Logger.is_root n' = false -> n' <> n ->
          logger_named n' m1 = logger_named n' m)
    /\ (Logger.is_root n = false -> Logger.root m1 = Logger.root m).
Proof.
  intros n m. unfold Logger.setup_logger, Logger.getLogger, logger_named, Logger.update.
  destruct (Logger.is_root n) eqn:Eroot.
  - (* the root logger *)
    destruct (Logger.root m) as [rn rl rh rp] eqn:Er.
    destruct rh as [|h rh]; simpl; settle.
  - destruct (Logger.find_logger n (Logger.loggerDict m)) as [lg|] eqn:Efind.
    + (* a logger of that name exists *)
      destruct lg as [ln ll lh lp].
      destruct lh as [|h lh]; simpl; rewrite ?Eroot; simpl;
        rewrite !LoggerFacts.find_replace_same by congruence; simpl;
        rewrite (LoggerFacts.replace_same n)
          by (apply LoggerFacts.find_replace_same; congruence);
        settle; apply LoggerFacts.find_replace_other; assumption.
    + (* a new logger *)
      assert (Hnew : forall lg,
                Logger.find_logger n (Logger.loggerDict m ++ [(n, lg)]) <> None)
        by (intros lg; rewrite LoggerFacts.find_app_new by exact Efind; discriminate).
      simpl. rewrite ?Eroot. simpl.
      rewrite !LoggerFacts.find_replace_same by apply Hnew. simpl.
      rewrite (LoggerFacts.replace_same n)
        by (apply LoggerFacts.find_replace_same; apply Hnew).
      settle.
      rewrite LoggerFacts.find_replace_other by assumption.
      apply LoggerFacts.find_app_other. assumption.
Qed.

(** ** The script as a whole *)

Section ScriptFacts.

Variable path_exists : Storage.Path -> bool.
Variable read_yaml : Storage.Path -> ConfigLoader.outcome (option Script.Config).
Variable read_json : Storage.Path -> ConfigLoader.outcome json.
Variable nfkd : string -> string.
Variable environ_api_key : option string.
Variable network : string -> string -> Z -> result Response.
Variable validate : RecordArgs -> result WeatherRecord.
Variable now : datetime.

(** Both files of the configuration were loaded: [config] is the parsed
    YAML and [loader] holds the reference list. *)
Definition configured (config : Script.Config)
           (loader : ConfigLoader.ConfigLoader (option Script.Config)) : Prop :=
  exists loader1 keys,
    ConfigLoader.load_config path_exists read_yaml
      (ConfigLoader.new (@None Script.Config) "config/config.yaml" "config/city.list.json")
    = (loader1, ConfigLoader.Return (Some config))
    /\ ConfigLoader.load_valid_cities path_exists read_json nfkd loader1
       = (loader, ConfigLoader.Return keys).

(** The cities the loader accepts, in the order of the configuration. *)
Definition accepted (loader : ConfigLoader.ConfigLoader (option Script.Config))
           (c : city_info) : bool :=
  match ConfigLoader.validate_city nfkd loader (cfg_name c) (cfg_country c) with
  | ConfigLoader.Return b => b
  | ConfigLoader.Throw _ => false
  end.

(** The client the script builds. *)
Definition client_of (config : Script.Config) (api_key : string) : OpenWeatherClient :=
  mkClient (Script.cfg_base_url (Script.api config)) api_key
           (Script.cfg_units (Script.api config))
           (Script.cfg_timeout_seconds (Script.api config))
           (Script.cfg_max_retries (Script.api config))
           (Script.cfg_backoff_seconds (Script.api config)).

(** The storage the script builds. *)
Definition storage_of (config : Script.Config) : Storage.Storage :=
  Storage.new (Script.cfg_base_path (Script.storage config))
              (Script.cfg_format (Script.storage config))
              (Script.cfg_layout (Script.storage config)).

Lemma configured_loaded (config : Script.Config)
      (loader : ConfigLoader.ConfigLoader (option Script.Config)) :
  configured config loader -> ConfigLoader.valid_cities_set loader <> None.
Proof.
  intros (loader1 & keys & _ & Hload).
  unfold ConfigLoader.load_valid_cities in Hload.
  destruct (negb (path_exists (ConfigLoader.city_list_path loader1))); [discriminate Hload|].
  destruct (read_json (ConfigLoader.city_list_path loader1)); [|discriminate Hload].
  destruct (ConfigLoader.iterate a); [|discriminate Hload].
  destruct (ConfigLoader.city_keys nfkd a0); [|discriminate Hload].
  inversion Hload; subst. discriminate.
Qed.

Lemma validities_loaded (loader : ConfigLoader.ConfigLoader (option Script.Config))
      (l : list city_info) :
  ConfigLoader.valid_cities_set loader <> None ->
  Script.validities nfkd loader l = ConfigLoader.Return (map (accepted loader) l).
Proof.
  intros Hset. induction l as [|c l IH]; simpl; [reflexivity|].
  rewrite IH. unfold accepted, ConfigLoader.validate_city.
  destruct (ConfigLoader.valid_cities_set loader); [reflexivity | congruence].
Qed.

Lemma select_filter {A : Type} (keep : bool) (P : A -> bool) (l : list A) :
  Script.select keep l (map P l) = filter (fun x => Bool.eqb (P x) keep) l.
Proof.
  induction l as [|x l IH]; simpl; [reflexivity|].
  destruct (Bool.eqb (P x) keep); rewrite IH; reflexivity.
Qed.

Lemma select_true {A : Type} (P : A -> bool) (l : list A) :
  Script.select true l (map P l) = filter P l.
Proof.
  rewrite select_filter. apply filter_ext. intros x. destruct (P x); reflexivity.
Qed.

(** The requests of the loop are requests of its cities. *)
Lemma ingest_city_requests (client : OpenWeatherClient) (st st' : state) (c : city_info)
      (e : event) :
  ingest_city client network validate st c = OK st' ->
  In (Client e) (out st') ->
  In (Client e) (out st)
  \/ In e (fst (fetch_weather client (network (cfg_name c) (upper (cfg_country c)))
                              (cfg_name c) (upper (cfg_country c)))).
Proof.
  unfold ingest_city, process. intros Hstep Hin.
  destruct (fetch_weather client (network (cfg_name c) (upper (cfg_country c)))
                          (cfg_name c) (upper (cfg_country c))) as [tr fetched].
  simpl fst.
  assert (Hseen : In (Client e) (out st ++ Print ("Fetching weather for " ++ cfg_name c ++ ", "
                                  ++ upper (cfg_country c) ++ "...") :: map Client tr)%list ->
                  In (Client e) (out st) \/ In e tr).
  { intros H. apply in_app_iff in H. destruct H as [H|[H|H]].
    - left. exact H.
    - discriminate H.
    - right. apply in_map_iff in H. destruct H as (x & Hx & Hin'). inversion Hx; subst.
      exact Hin'. }
  destruct (bind fetched _) as [record|err].
  - inversion Hstep; subst st'. simpl in Hin. apply Hseen. exact Hin.
  - destruct (is_Exception err); [|discriminate Hstep].
    inversion Hstep; subst st'. simpl in Hin.
    apply in_app_iff in Hin. destruct Hin as [Hin|[Hin|[]]].
    + apply Hseen. exact Hin.
    + discriminate Hin.
Qed.

Lemma ingest_requests (client : OpenWeatherClient) (l : list city_info) :
  forall (st st' : state) (e : event),
    ingest client network validate st l = OK st' ->
    In (Client e) (out st') ->
    In (Client e) (out st)
    \/ exists c, In c l
                 /\ In e (fst (fetch_weather client
                                 (network (cfg_name c) (upper (cfg_country c)))
                                 (cfg_name c) (upper (cfg_country c)))).
Proof.
  induction l as [|c l IH]; intros st st' e Hrun Hin; simpl in Hrun.
  - inversion Hrun; subst st'. left. exact Hin.
  - apply bind_OK in Hrun. destruct Hrun as (st1 & Hstep & Hrun).
    destruct (IH st1 st' e Hrun Hin) as [H|(c' & Hc' & H)].
    + destruct (ingest_city_requests client st st1 c e Hstep H) as [H'|H'].
      * left. exact H'.
      * right. exists c. split; [left; reflexivity | exact H'].
    + right. exists c'. split; [right; exact Hc' | exact H].
Qed.

(** The loop of the script is the loop of the cities; it also keeps what
    was printed and requested when an exception leaves it. *)
Lemma loop_ingest (client : OpenWeatherClient) (l : list city_info) :
  forall st st',
    ingest client network validate st l = OK st' ->
    Script.loop network validate client st l = (st', None).
Proof.
  induction l as [|c l IH]; intros st st' Hrun; simpl in Hrun.
  - inversion Hrun. reflexivity.
  - apply bind_OK in Hrun. destruct Hrun as (st1 & Hstep & Hrun).
    simpl. unfold Script.turn. rewrite Hstep. apply IH. exact Hrun.
Qed.

Lemma loop_stopped (client : OpenWeatherClient) (l : list city_info) :
  forall st st' e,
    Script.loop network validate client st l = (st', Some e) ->
    ingest client network validate st l = Raise e.
Proof.
  induction l as [|c l IH]; intros st st' e Hrun; simpl in Hrun; [discriminate Hrun|].
  simpl. unfold Script.turn in Hrun.
  destruct (ingest_city client network validate st c) as [st1|e1].
  - simpl. apply (IH st1 st' e). exact Hrun.
  - inversion Hrun. reflexivity.
Qed.

Lemma turn_requests (client : OpenWeatherClient) (st st' : state) (c : city_info)
      (o : option exn) (e : event) :
  Script.turn network validate client st c = (st', o) ->
  In (Client e) (out st') ->
  In (Client e) (out st)
  \/ In e (fst (fetch_weather client (network (cfg_name c) (upper (cfg_country c)))
                              (cfg_name c) (upper (cfg_country c)))).
Proof.
  unfold Script.turn. intros Hturn Hin.
  destruct (ingest_city client network validate st c) as [st1|e1] eqn:Hstep.
  - inversion Hturn; subst st1 o.
    apply (ingest_city_requests client st st' c e Hstep Hin).
  - inversion Hturn; subst st' o. cbn [out] in Hin.
    apply in_app_iff in Hin. destruct Hin as [Hin|[Hin|Hin]].
    + left. exact Hin.
    + discriminate Hin.
    + right. apply in_map_iff in Hin. destruct Hin as (x & Hx & Hin).
      inversion Hx; subst x. unfold process in Hin.
      destruct (fetch_weather client (network (cfg_name c) (upper (cfg_country c)))
                              (cfg_name c) (upper (cfg_country c))) as [tr fetched].
      exact Hin.
Qed.

Lemma loop_requests (client : OpenWeatherClient) (l : list city_info) :
  forall (st st' : state) (o : option exn) (e : event),
    Script.loop network validate client st l = (st', o) ->
    In (Client e) (out st') ->
    In (Client e) (out st)
    \/ exists c, In c l
                 /\ In e (fst (fetch_weather client
                                 (network (cfg_name c) (upper (cfg_country c)))
                                 (cfg_name c) (upper (cfg_country c)))).
Proof.
  induction l as [|c l IH]; intros st st' o e Hrun Hin; simpl in Hrun.
  - inversion Hrun; subst st'. left. exact Hin.
  - destruct (Script.turn network validate client st c) as [st1 [e1|]] eqn:Hturn.
    + inversion Hrun; subst st1 o.
      destruct (turn_requests client st st' c (Some e1) e Hturn Hin) as [H|H].
      * left. exact H.
      * right. exists c. split; [left; reflexivity | exact H].
    + destruct (IH st1 st' o e Hrun Hin) as [H|(c' & Hc' & H)].
      * destruct (turn_requests client st st1 c None e Hturn H) as [H'|H'].
        -- left. exact H'.
        -- right. exists c. split; [left; reflexivity | exact H'].
      * right. exists c'. split; [right; exact Hc' | exact H].
Qed.

(** The calls of one fetch. *)
Lemma fetch_weather_gets (client : OpenWeatherClient) (net : Z -> result Response)
      (city country : string) (e : event) :
  In e (fst (fetch_weather client net city country)) -> is_get e = true ->
  e = EGet (base_url client)
           [("q", city ++ "," ++ country); ("appid", api_key client);
            ("units", ApiClient.units client)]
           (timeout client).
Proof.
  pose proof (attempts_well_paced client net (city ++ "," ++ country)
                [("q", city ++ "," ++ country); ("appid", api_key client);
                 ("units", ApiClient.units client)]
                (Z.to_nat (Z.max 0 (max_retries client))) 1 ltac:(lia)) as H.
  unfold well_paced in H. unfold fetch_weather.
  destruct (attempts client net (city ++ "," ++ country) _ (range 1 (max_retries client + 1)))
    as [tr ex].
  simpl in *. destruct H as (_ & _ & _ & H). apply H.
Qed.

End ScriptFacts.

(** What the parts of a run have in common: the configuration was loaded
    and the key is set. *)
Ltac enter_main Hconf :=
  let loader1 := fresh "loader1" in
  let keys := fresh "keys" in
  let Hcfg := fresh "Hcfg" in
  let Hload := fresh "Hload" in
  pose proof (configured_loaded _ _ _ _ _ _ Hconf) as Hset;
  destruct Hconf as (loader1 & keys & Hcfg & Hload);
  unfold Script.main; rewrite Hcfg, Hload;
  destruct (Logger.setup_logger Logger.default_name _) as [loggers1 lg];
  rewrite (validities_loaded _ _ _ Hset), select_true.

(** X24. The script only sends requests for cities the reference list
    accepts: once both configuration files are loaded (country codes in
    ASCII), every HTTP call of a run, whether the run ends normally, with an error of the write or with
    an exception that left the loop over the cities, was made for a city of
    the configuration that [validate_city] accepts, with q = "name,COUNTRY"
    (country code in upper case), the API key of the environment, and the
    URL, units and timeout of the configuration. *)
Theorem script_requests_only_valid_cities :
  forall (path_exists : Storage.Path -> bool)
         (read_yaml : Storage.Path -> ConfigLoader.outcome (option Script.Config))
         (read_json : Storage.Path -> ConfigLoader.outcome json)
         (nfkd : string -> string) (environ_api_key : option string)
         (network : string -> string -> Z -> result Response)
         (validate : RecordArgs -> result WeatherRecord) (now : datetime)
         (config : Script.Config)
         (loader : ConfigLoader.ConfigLoader (option Script.Config))
         (fs0 : Storage.FS) (loggers0 : Logger.Manager)
         (url : string) (params : list (string * string)) (timeout : Z),
    configured path_exists read_yaml read_json nfkd config loader ->
    (forall c, In c (Script.cities config) -> ascii_only (cfg_country c) = true) ->
    In (Script.Loop (Client (EGet url params timeout)))
       (Script.lines (Script.main path_exists read_yaml read_json nfkd environ_api_key
                                  network validate now fs0 loggers0)) ->
    exists c api_key,
      In c (Script.cities config)
      /\ ConfigLoader.validate_city nfkd loader (cfg_name c) (cfg_country c)
         = ConfigLoader.Return true
      /\ environ_api_key = Some api_key /\ api_key <> ""
      /\ url = Script.cfg_base_url (Script.api config)
      /\ params = [("q", cfg_name c ++ "," ++ upper (cfg_country c)); ("appid", api_key);
                   ("units", Script.cfg_units (Script.api config))]
      /\ timeout = Script.cfg_timeout_seconds (Script.api config).
Proof.
  intros path_exists read_yaml read_json nfkd environ_api_key network validate now
         config loader fs0 loggers0 url params timeout Hconf _ Hin.
  revert Hin. enter_main Hconf.
  set (valid := filter (accepted nfkd loader) (Script.cities config)).
  set (printed1 := app _ (map (fun s => Script.Loop (Print s)) _)).
  assert (Hp1 : ~ In (Script.Loop (Client (EGet url params timeout))) printed1).
  { unfold printed1. intros [H|H]; [discriminate H|].
    apply in_map_iff in H. destruct H as (s & Hs & _). discriminate Hs. }
  destruct environ_api_key as [[|k0 key]|]; cbn [Script.lines]; try contradiction.
  set (api_key := String k0 key).
  fold (client_of config api_key).
  destruct (Script.loop network validate (client_of config api_key) initial valid)
    as [st stopped] eqn:Erun.
  assert (Hloop : In (Script.Loop (Client (EGet url params timeout)))
                     (app (app printed1
                               [Script.Loop (Print ("Starting weather ingestion pipeline..."
                                                      ++ Script.nl))])
                          (map Script.Loop (out st))) ->
                  In (Client (EGet url params timeout)) (out st)).
  { intros H. apply in_app_iff in H. destruct H as [H|H].
    - apply in_app_iff in H. destruct H as [H|[H|[]]]; [contradiction | discriminate H].
    - apply in_map_iff in H. destruct H as (o & Ho & Hin). inversion Ho; subst o. exact Hin. }
  assert (Hfound : In (Client (EGet url params timeout)) (out st) ->
                   exists c api_key0,
                     In c (Script.cities config)
                     /\ ConfigLoader.validate_city nfkd loader (cfg_name c) (cfg_country c)
                        = ConfigLoader.Return true
                     /\ Some api_key = Some api_key0 /\ api_key0 <> ""
                     /\ url = Script.cfg_base_url (Script.api config)
                     /\ params = [("q", cfg_name c ++ "," ++ upper (cfg_country c));
                                  ("appid", api_key0);
                                  ("units", Script.cfg_units (Script.api config))]
                     /\ timeout = Script.cfg_timeout_seconds (Script.api config)).
  { intros H.
    destruct (loop_requests network validate (client_of config api_key) valid
                            initial st stopped _ Erun H) as [[]|(c & Hc & Hget)].
    apply (fetch_weather_gets (client_of config api_key)) in Hget; [|reflexivity].
    inversion Hget; subst.
    unfold valid in Hc. apply filter_In in Hc. destruct Hc as [Hc Hacc].
    exists c, api_key. split; [exact Hc|]. split.
    - unfold accepted in Hacc.
      destruct (ConfigLoader.validate_city nfkd loader (cfg_name c) (cfg_country c));
        [rewrite Hacc; reflexivity | discriminate Hacc].
    - repeat split. discriminate. }
  destruct stopped as [e|]; [cbn [Script.lines]; intros H; apply Hfound, Hloop, H|].
  destruct (Storage.write _ now (records st) fs0) as [fs1 [[]|e]]; cbn [Script.lines].
  - intros H. apply in_app_iff in H. destruct H as [H|H].
    + apply Hfound, Hloop, H.
    + exfalso. apply in_app_iff in H. destruct H as [H|[H|[]]]; [|discriminate H].
      unfold Script.summary in H. apply in_map_iff in H.
      destruct H as (s & Hs & _). discriminate Hs.
  - intros H. apply Hfound, Hloop, H.
Qed.

(** A configuration with a city of the reference list and one that is not
    in it, and the files it is read from. *)
Definition config_sample : Script.Config :=
  Script.mkConfig [mkCity "Lisbon" "pt"; mkCity "Atlantis" "xx"]
                  (Script.mkApiConfig "https://api.example/weather" "metric" 10 3 2)
                  (Script.mkStorageConfig "data/weather" "csv" "date").

Definition yaml_sample (p : Storage.Path) : ConfigLoader.outcome (option Script.Config) :=
  ConfigLoader.Return (Some config_sample).

Definition script_loader_sample : ConfigLoader.ConfigLoader (option Script.Config) :=
  fst (ConfigLoader.load_valid_cities
         (fun _ => true) read_sample nfkd_sample
         (fst (ConfigLoader.load_config
                 (fun _ => true) yaml_sample
                 (ConfigLoader.new (@None Script.Config)
                                   "config/config.yaml" "config/city.list.json")))).

Definition loggers_sample : Logger.Manager :=
  Logger.mkManager (Logger.mkLogger "root" Logger.WARNING [] true) [].

Lemma configured_sample :
  configured (fun _ => true) yaml_sample read_sample nfkd_sample
             config_sample script_loader_sample.
Proof.
  eexists. eexists. split; vm_compute; reflexivity.
Qed.

(** The request is interrupted from the keyboard. *)
Definition interrupts : string -> string -> Z -> result Response :=
  fun _ _ _ => raise KeyboardInterrupt "".

Lemma script_requests_only_valid_cities_witness :
  exists c api_key,
    In c (Script.cities config_sample)
    /\ ConfigLoader.validate_city nfkd_sample script_loader_sample (cfg_name c) (cfg_country c)
       = ConfigLoader.Return true
    /\ Some "k" = Some api_key /\ api_key <> ""
    /\ "https://api.example/weather" = Script.cfg_base_url (Script.api config_sample)
    /\ [("q", "Lisbon,PT"); ("appid", "k"); ("units", "metric")]
       = [("q", cfg_name c ++ "," ++ upper (cfg_country c)); ("appid", api_key);
          ("units", Script.cfg_units (Script.api config_sample))]
    /\ 10 = Script.cfg_timeout_seconds (Script.api config_sample).
Proof.
  apply (script_requests_only_valid_cities
           (fun _ => true) yaml_sample read_sample nfkd_sample (Some "k")
           interrupts exact_types run_time
           config_sample script_loader_sample empty_fs loggers_sample).
  - exact configured_sample.
  - intros c [H|[H|[]]]; subst c; reflexivity.
  - vm_compute. tauto.
Defined.

Section AllFail.

Variable client : OpenWeatherClient.
Variable network : string -> string -> Z -> result Response.
Variable validate : RecordArgs -> result WeatherRecord.

Lemma built_none (l : list city_info) :
  (forall c, In c l -> raises client network validate c = true) ->
  built client network validate l = []
  /\ filter (raises client network validate) l = l
  /\ filter (fun c => negb (raises client network validate c)) l = [].
Proof.
  induction l as [|c l IH]; intros H; [repeat split|].
  destruct (IH (fun c' Hc' => H c' (or_intror Hc'))) as (Hb & Hf & Hn).
  pose proof (H c (or_introl eq_refl)) as Hc.
  simpl. rewrite Hc, Hf, Hn. simpl. unfold raises in Hc.
  destruct (outcome client network validate c); [discriminate Hc|].
  repeat split. exact Hb.
Qed.

End AllFail.

(** X25. A run in which every accepted city fails writes nothing and still
    ends normally: when both configuration files are loaded, the key is set
    and the processing of every accepted city raises an [Exception], the
    script finishes without an uncaught exception, the file system is
    exactly as before (no directory is made for an empty batch), and the
    summary reports zero successes and as many failures as there are
    accepted cities, followed by the closing log line. *)
Theorem script_all_cities_fail :
  forall (path_exists : Storage.Path -> bool)
         (read_yaml : Storage.Path -> ConfigLoader.outcome (option Script.Config))
         (read_json : Storage.Path -> ConfigLoader.outcome json)
         (nfkd : string -> string) (api_key : string)
         (network : string -> string -> Z -> result Response)
         (validate : RecordArgs -> result WeatherRecord) (now : datetime)
         (config : Script.Config)
         (loader : ConfigLoader.ConfigLoader (option Script.Config))
         (fs0 : Storage.FS) (loggers0 : Logger.Manager),
    configured path_exists read_yaml read_json nfkd config loader ->
    api_key <> "" ->
    (forall c, In c (Script.cities config) -> accepted nfkd loader c = true ->
       exists e, outcome (client_of config api_key) network validate c = Raise e
                 /\ is_Exception e = true) ->
    let r := Script.main path_exists read_yaml read_json nfkd (Some api_key)
                         network validate now fs0 loggers0 in
    Script.uncaught r = None
    /\ Script.disk r = fs0
    /\ In (Script.Loop (Print ("✅ Successful cities: " ++ str_int 0))) (Script.lines r)
    /\ In (Script.Loop
             (Print ("❌ Failed cities: "
                       ++ str_int (Z.of_nat (List.length
                                               (filter (accepted nfkd loader)
                                                       (Script.cities config))))
                       ++ Script.nl)))
          (Script.lines r)
    /\ last (Script.lines r) (Script.LogInfo "") = Script.LogInfo "Weather ingestion completed".
Proof.
  intros path_exists read_yaml read_json nfkd api_key network validate now
         config loader fs0 loggers0 Hconf Hkey Hfail r.
  unfold r. clear r. enter_main Hconf.
  set (valid := filter (accepted nfkd loader) (Script.cities config)).
  set (printed1 := app _ (map (fun s => Script.Loop (Print s)) _)).
  destruct api_key as [|k0 key]; [congruence|].
  set (api_key := String k0 key) in *.
  fold (client_of config api_key).
  assert (Hraises : forall c, In c valid ->
            raises (client_of config api_key) network validate c = true).
  { intros c Hc. unfold valid in Hc. apply filter_In in Hc. destruct Hc as [Hc Hacc].
    destruct (Hfail c Hc Hacc) as (e & He & _). unfold raises. rewrite He. reflexivity. }
  assert (Hexc : forall c e, In c valid ->
            outcome (client_of config api_key) network validate c = Raise e ->
            is_Exception e = true).
  { intros c e Hc He. unfold valid in Hc. apply filter_In in Hc. destruct Hc as [Hc Hacc].
    destruct (Hfail c Hc Hacc) as (e' & He' & Hex). congruence. }
  destruct (ingest_from (client_of config api_key) network validate valid initial Hexc)
    as (st & Hrun & _ & Hcount & Hsucc & Hrec).
  destruct (built_none (client_of config api_key) network validate valid Hraises)
    as (Hb & Hf & Hn).
  rewrite (loop_ingest network validate _ _ _ _ Hrun).
  rewrite Hb in Hrec. rewrite Hf in Hcount. rewrite Hn in Hsucc.
  simpl in Hrec, Hcount, Hsucc. rewrite Hrec.
  cbn [Storage.write Storage.ret Script.uncaught Script.disk Script.lines].
  split; [reflexivity|]. split; [reflexivity|].
  unfold Script.summary. rewrite Hsucc, Hcount.
  split; [|split].
  - apply in_or_app. right. apply in_or_app. left.
    apply (in_map (fun s => Script.Loop (Print s))). right. left. reflexivity.
  - apply in_or_app. right. apply in_or_app. left.
    apply (in_map (fun s => Script.Loop (Print s))). right. right. left. reflexivity.
  - rewrite !app_assoc. apply last_last.
Qed.

Definition nothing_answers : string -> string -> Z -> result Response :=
  fun _ _ _ => raise ConnectionError "connection refused".

Lemma script_all_cities_fail_witness :
  let r := Script.main (fun _ => true) yaml_sample read_sample nfkd_sample (Some "k")
                       nothing_answers exact_types run_time empty_fs loggers_sample in
  Script.uncaught r = None
  /\ Script.disk r = empty_fs
  /\ In (Script.Loop (Print ("✅ Successful cities: " ++ str_int 0))) (Script.lines r)
  /\ In (Script.Loop
           (Print ("❌ Failed cities: "
                     ++ str_int (Z.of_nat (List.length
                                             (filter (accepted nfkd_sample script_loader_sample)
                                                     (Script.cities config_sample))))
                     ++ Script.nl)))
        (Script.lines r)
  /\ last (Script.lines r) (Script.LogInfo "") = Script.LogInfo "Weather ingestion completed".
Proof.
  apply (script_all_cities_fail
           (fun _ => true) yaml_sample read_sample nfkd_sample "k"
           nothing_answers exact_types run_time
           config_sample script_loader_sample empty_fs loggers_sample).
  - exact configured_sample.
  - discriminate.
  - intros c [H|[H|[]]] Hacc; subst c.
    + eexists. split; [vm_compute; reflexivity | reflexivity].
    + vm_compute in Hacc. discriminate Hacc.
Defined.

(** X26. Without an API key the script stops before it sends any request:
    when the configuration is loaded but the environment variable is unset
    or empty, the run ends with the [RuntimeError] that names the variable,
    no HTTP call shows in its output and the file system is untouched. *)
Theorem script_needs_api_key :
  forall (path_exists : Storage.Path -> bool)
         (read_yaml : Storage.Path -> ConfigLoader.outcome (option Script.Config))
         (read_json : Storage.Path -> ConfigLoader.outcome json)
         (nfkd : string -> string) (environ_api_key : option string)
         (network : string -> string -> Z -> result Response)
         (validate : RecordArgs -> result WeatherRecord) (now : datetime)
         (config : Script.Config)
         (loader : ConfigLoader.ConfigLoader (option Script.Config))
         (fs0 : Storage.FS) (loggers0 : Logger.Manager),
    configured path_exists read_yaml read_json nfkd config loader ->
    environ_api_key = None \/ environ_api_key = Some "" ->
    let r := Script.main path_exists read_yaml read_json nfkd environ_api_key
                         network validate now fs0 loggers0 in
    Script.uncaught r
    = Some (Script.PythonError
              (mkExn RuntimeError "OPENWEATHER_API_KEY environment variable is not set"))
    /\ Script.disk r = fs0
    /\ (forall e, ~ In (Script.Loop (Client e)) (Script.lines r)).
Proof.
  intros path_exists read_yaml read_json nfkd environ_api_key network validate now
         config loader fs0 loggers0 Hconf Hkey r.
  unfold r. clear r. enter_main Hconf.
  assert (Hnone : forall (l : list string) (e : event),
            ~ In (Script.Loop (Client e))
                 (app [Script.Loop (Print (Script.nl ++ "Validating cities in YAML config..."
                                             ++ Script.nl))]
                      (map (fun s => Script.Loop (Print s)) l))).
  { intros l e [H|H]; [discriminate H|].
    apply in_map_iff in H. destruct H as (s & Hs & _). discriminate Hs. }
  destruct Hkey as [Hkey|Hkey]; rewrite Hkey;
    cbn [Script.uncaught Script.disk Script.lines];
    (split; [reflexivity|]); (split; [reflexivity|]); intros e; apply Hnone.
Qed.

Lemma script_needs_api_key_witness :
  let r := Script.main (fun _ => true) yaml_sample read_sample nfkd_sample None
                       (answers body_complete) exact_types run_time empty_fs loggers_sample in
  Script.uncaught r
  = Some (Script.PythonError
            (mkExn RuntimeError "OPENWEATHER_API_KEY environment variable is not set"))
  /\ Script.disk r = empty_fs
  /\ (forall e, ~ In (Script.Loop (Client e)) (Script.lines r)).
Proof.
  apply (script_needs_api_key
           (fun _ => true) yaml_sample read_sample nfkd_sample None
           (answers body_complete) exact_types run_time
           config_sample script_loader_sample empty_fs loggers_sample).
  - exact configured_sample.
  - left. reflexivity.
Defined.
